(** * Resource harvesting pipeline (scripts/fetch-nate-resources.py)

    A shallow embedding of the URL normalizer, the coverage computation,
    the fetch strategies, the content normalizer and the sync loops of
    [fetch-nate-resources.py], with the properties the specification
    states about them.

    Conventions of the embedding.
    - A Python [str] is a Rocq [string]: a sequence of characters whose
      code points lie in 0..255.  The character tables below ([is_word],
      [is_space], [lower_char]) are the Unicode ones restricted to that
      range, as [re] and [str] use them.
    - A Python [bytes] is a [list Z] of values in 0..255; the text decoded
      from bytes is a list of code points ([list Z]).
    - Tuples are pairs, dictionaries keyed by normalized keys are [gmap]s,
      lists are lists.
    - Code that performs I/O or raises runs in the monad [M] of module
      [Py]: state passing over a [World], with a result that is either a
      value or a raised exception. *)

From Stdlib Require Import ZArith NArith Ascii String Bool Lia.
From stdpp Require Import base option list gmap strings fin_maps pretty sorting.

Local Open Scope string_scope.
Local Open Scope list_scope.

(** ** Characters and strings *)

Module Chars.

Definition code (c : ascii) : N := N_of_ascii c.

Definition between (lo hi : N) (c : ascii) : bool :=
  (lo <=? code c)%N && (code c <=? hi)%N.

Definition is_digit (c : ascii) : bool := between 48 57 c.
Definition is_lower_az (c : ascii) : bool := between 97 122 c.
Definition is_upper_az (c : ascii) : bool := between 65 90 c.
Definition is_ascii_alpha (c : ascii) : bool := is_lower_az c || is_upper_az c.

(** The class [[a-f0-9]]. *)
Definition is_hex (c : ascii) : bool := between 97 102 c || is_digit c.

(** The class [[a-zA-Z0-9_-]]. *)
Definition is_id_char (c : ascii) : bool :=
  is_lower_az c || is_upper_az c || is_digit c
  || (code c =? 95)%N || (code c =? 45)%N.

(** Alphanumeric characters above the ASCII range, below 256:
    the letters, superscript digits and vulgar fractions of Latin-1. *)
Definition is_latin1_alnum (c : ascii) : bool :=
  (code c =? 170)%N || (code c =? 178)%N || (code c =? 179)%N
  || (code c =? 181)%N || (code c =? 185)%N || (code c =? 186)%N
  || between 188 190 c || between 192 214 c || between 216 246 c
  || between 248 255 c.

(** The class [\w] of a [str] pattern. *)
Definition is_word (c : ascii) : bool :=
  is_lower_az c || is_upper_az c || is_digit c || (code c =? 95)%N
  || is_latin1_alnum c.

(** [str.isspace], which is also what [str.strip()] removes. *)
Definition is_space (c : ascii) : bool :=
  between 9 13 c || between 28 32 c || (code c =? 133)%N || (code c =? 160)%N.

(** [str.lower()] on one character. *)
Definition lower_char (c : ascii) : ascii :=
  if is_upper_az c || (between 192 222 c && negb (code c =? 215)%N)
  then ascii_of_N (code c + 32) else c.

End Chars.

Module Str.

Import Chars.

Fixpoint starts_with (p s : string) : bool :=
  match p, s with
  | "", _ => true
  | String a p', String b s' => (a =? b)%char && starts_with p' s'
  | String _ _, "" => false
  end.

(** [needle in s]. *)
Fixpoint contains (needle s : string) : bool :=
  starts_with needle s
  || match s with
     | "" => false
     | String _ s' => contains needle s'
     end.

(** The longest prefix of [s] whose characters satisfy [p], and the rest. *)
Fixpoint span (p : ascii -> bool) (s : string) : string * string :=
  match s with
  | "" => ("", "")
  | String c s' =>
      if p c then let '(a, b) := span p s' in (String c a, b) else ("", s)
  end.

Definition take_while (p : ascii -> bool) (s : string) : string := fst (span p s).
Definition drop_while (p : ascii -> bool) (s : string) : string := snd (span p s).

(** [s.lstrip()], [s.rstrip()] and [s.strip()]. *)
Definition lstrip (s : string) : string := drop_while is_space s.

Fixpoint rstrip (s : string) : string :=
  match s with
  | "" => ""
  | String c s' =>
      match rstrip s' with
      | "" => if is_space c then "" else String c ""
      | r => String c r
      end
  end.

Definition strip (s : string) : string := rstrip (lstrip s).

(** [s.lower()]. *)
Fixpoint lower (s : string) : string :=
  match s with
  | "" => ""
  | String c s' => String (lower_char c) (lower s')
  end.

(** [s.split(sep)] for a one-character separator: never the empty list. *)
Fixpoint split (sep : ascii) (s : string) : list string :=
  match s with
  | "" => [""]
  | String c s' =>
      if (c =? sep)%char then "" :: split sep s'
      else match split sep s' with
           | l :: ls => String c l :: ls
           | [] => [String c ""]
           end
  end.

(** [sep.join(ls)]. *)
Fixpoint join (sep : string) (ls : list string) : string :=
  match ls with
  | [] => ""
  | [l] => l
  | l :: ls' => l +:+ sep +:+ join sep ls'
  end.

Definition nl : ascii := "010"%char.
Definition NL : string := String nl "".

End Str.

(** ** Regular-expression searches *)

Module Re.

Import Chars Str.

(** [re.search]: the match at the leftmost position where the pattern
    matches; positions run from 0 to [len(s)] included. *)
Fixpoint search {A : Type} (match_here : string -> option A) (s : string)
  : option A :=
  match match_here s with
  | Some m => Some m
  | None =>
      match s with
      | "" => None
      | String _ s' => search match_here s'
      end
  end.

(** [[a-f0-9]{n}] at the head of [s]: the matched text and what follows. *)
Fixpoint hex_run (n : nat) (s : string) : option (string * string) :=
  match n with
  | O => Some ("", s)
  | S n' =>
      match s with
      | String c s' =>
          if is_hex c then
            match hex_run n' s' with
            | Some (m, r) => Some (String c m, r)
            | None => None
            end
          else None
      | "" => None
      end
  end.

(** [\b] right after a word character: the end of the string, or a
    character that is not a word character. *)
Definition boundary_after_word (rest : string) : bool :=
  match rest with
  | "" => true
  | String c _ => negb (is_word c)
  end.

(** [r"([a-f0-9]{32})\b"] at the head of [s]; the value is group 1. *)
Definition hex32_here (s : string) : option string :=
  match hex_run 32 s with
  | Some (m, rest) => if boundary_after_word rest then Some m else None
  | None => None
  end.

(** [[a-zA-Z0-9_-]+] at the head of [s] (greedy): group 1, if not empty. *)
Definition id_here (s : string) : option string :=
  match take_while is_id_char s with
  | "" => None
  | id => Some id
  end.

(** A literal at the head of [s]: what follows it. *)
Fixpoint literal (p s : string) : option string :=
  match p with
  | "" => Some s
  | String a p' =>
      match s with
      | String b s' => if (a =? b)%char then literal p' s' else None
      | "" => None
      end
  end.

(** [r"/d/([a-zA-Z0-9_-]+)"] at the head of [s]. *)
Definition slash_d_here (s : string) : option string :=
  match literal "/d/" s with
  | Some r => id_here r
  | None => None
  end.

(** [r"/(?:folders|d)/([a-zA-Z0-9_-]+)"] at the head of [s]: the
    alternatives are tried in order, the second one when the first one
    or what follows it fails. *)
Definition folders_or_d_here (s : string) : option string :=
  match literal "/" s with
  | Some r =>
      let tail r1 :=
        match literal "/" r1 with
        | Some r2 => id_here r2
        | None => None
        end in
      match match literal "folders" r with
            | Some r1 => tail r1
            | None => None
            end with
      | Some id => Some id
      | None =>
          match literal "d" r with
          | Some r1 => tail r1
          | None => None
          end
      end
  | None => None
  end.

End Re.

(** ** The URL normalizer *)

Import Chars Str Re.

(** A normalized key: the source-type tag and the identifier. *)
Definition NormalizedKey : Type := string * string.

Definition normalize_url (url : string) : NormalizedKey :=
  match search hex32_here url, contains "notion" url with
  | Some id, true => ("notion", id)
  | _, _ =>
      match search slash_d_here url, contains "google.com" url with
      | Some id, true =>
          (if contains "spreadsheets" url then "gsheet" else "gdoc", id)
      | _, _ =>
          match contains "drive.google.com" url,
                search folders_or_d_here url with
          | true, Some id => ("gdrive", id)
          | _, _ => ("other", url)
          end
      end
  end.


(** ** The domain of a URL *)

Module Url.

(** [s.replace(old, "")] for a non-empty [old]: occurrences are removed
    from left to right without overlap; [skip] counts the characters of
    the current occurrence still to drop. *)
Fixpoint remove_go (old : string) (skip : nat) (s : string) : string :=
  match s with
  | "" => ""
  | String c s' =>
      match skip with
      | S k => remove_go old k s'
      | O =>
          if starts_with old s then remove_go old (String.length old - 1) s'
          else String c (remove_go old 0 s')
      end
  end.

Definition remove_all (old s : string) : string := remove_go old 0 s.

Definition is_c0_or_space (c : ascii) : bool := (code c <=? 32)%N.
Definition is_tab_cr_lf (c : ascii) : bool :=
  (code c =? 9)%N || (code c =? 10)%N || (code c =? 13)%N.
Definition is_scheme_char (c : ascii) : bool :=
  is_ascii_alpha c || is_digit c
  || (code c =? 43)%N || (code c =? 45)%N || (code c =? 46)%N.
Definition is_netloc_end (c : ascii) : bool :=
  (code c =? 47)%N || (code c =? 63)%N || (code c =? 35)%N.

Fixpoint filter_out (p : ascii -> bool) (s : string) : string :=
  match s with
  | "" => ""
  | String c s' => if p c then filter_out p s' else String c (filter_out p s')
  end.

Fixpoint all_chars (p : ascii -> bool) (s : string) : bool :=
  match s with
  | "" => true
  | String c s' => p c && all_chars p s'
  end.

(** What [urlsplit] leaves after the scheme: [url[i+1:]] when the text
    before the first colon is a scheme, the whole [url] otherwise. *)
Definition after_scheme (url : string) : string :=
  let '(pre, rest) := span (fun c => negb (code c =? 58)%N) url in
  match pre, rest with
  | String c0 _, String _ rest' =>
      if is_ascii_alpha c0 && all_chars is_scheme_char pre then rest' else url
  | _, _ => url
  end.

(** The network location [urlsplit] finds: after a leading [//], up to
    the first of [/], [?] and [#]. *)
Definition netloc (url : string) : string :=
  let url := filter_out is_tab_cr_lf (drop_while is_c0_or_space url) in
  match after_scheme url with
  | String "/" (String "/" r) => take_while (fun c => negb (is_netloc_end c)) r
  | _ => ""
  end.

(** [s.rpartition("@")[2]]: what follows the last [@]. *)
Fixpoint after_last_at (s : string) : string :=
  match s with
  | "" => ""
  | String c s' =>
      if contains "@" s' then after_last_at s'
      else if (code c =? 64)%N then s' else s
  end.

(** [urlparse(url).hostname], for a network location written in ASCII
    without square brackets.  With brackets (an IP literal) or characters
    above the ASCII range [urlsplit] validates the location and may raise
    [ValueError]; the model leaves those URLs unresolved ([None]). *)
Definition hostname (url : string) : option string :=
  let loc := netloc url in
  if contains "[" loc || contains "]" loc
     || negb (all_chars (fun c => (code c <? 128)%N) loc)
  then None
  else Some (lower (take_while (fun c => negb (code c =? 58)%N)
                               (after_last_at loc))).

(** [get_domain]: the host name ([""] when there is none) without any
    occurrence of ["www."]. *)
Definition get_domain (url : string) : option string :=
  match hostname url with
  | Some host => Some (remove_all "www." host)
  | None => None
  end.

End Url.

Import Url.

(** The extraction order as the specification words it, with each
    platform marker looked up in the whole URL: a platform's pattern
    applies when its marker occurs in the URL and its pattern matches;
    the platforms are tried in the order A, B, C, and the fallback is
    taken when none applies. *)
Module NormalizeSpec.

Definition platform_a (url id : string) : Prop :=
  contains "notion" url = true /\ search hex32_here url = Some id.

Definition platform_b (url id : string) : Prop :=
  contains "google.com" url = true /\ search slash_d_here url = Some id.

Definition platform_c (url id : string) : Prop :=
  contains "drive.google.com" url = true
  /\ search folders_or_d_here url = Some id.

Definition sheet_or_doc (url : string) : string :=
  if contains "spreadsheets" url then "gsheet" else "gdoc".

Inductive extraction (url : string) : NormalizedKey -> Prop :=
| extract_a id :
    platform_a url id -> extraction url ("notion", id)
| extract_b id :
    (forall i, ~ platform_a url i) ->
    platform_b url id -> extraction url (sheet_or_doc url, id)
| extract_c id :
    (forall i, ~ platform_a url i) -> (forall i, ~ platform_b url i) ->
    platform_c url id -> extraction url ("gdrive", id)
| extract_other :
    (forall i, ~ platform_a url i) -> (forall i, ~ platform_b url i) ->
    (forall i, ~ platform_c url i) -> extraction url ("other", url).

End NormalizeSpec.

(** A suffix that starts a query string, an anchor fragment or trailing
    punctuation: empty, or beginning with a character that is neither a
    word character nor [-] nor [/]. *)
Definition separator (c : ascii) : bool :=
  negb (is_word c) && negb (code c =? 45)%N && negb (code c =? 47)%N.

Definition sep_start (s : string) : bool :=
  match s with
  | "" => true
  | String c _ => separator c
  end.

(** The source-type tags [normalize_url] can return. *)
Definition source_types : list string :=
  ["notion"; "gsheet"; "gdoc"; "gdrive"; "other"].

(** The characters the literals of the patterns are made of. *)
Definition literal_char (a : ascii) : bool := is_word a || (a =? "/")%char.

(** The marker substrings [normalize_url] looks for, and which of them
    occur in a URL. *)
Definition markers : list string :=
  ["notion"; "google.com"; "spreadsheets"; "drive.google.com"].

Definition marker_profile (url : string) : list bool :=
  map (fun m => contains m url) markers.

(** ** Exceptions and effects *)

Module Py.

(** The exceptions of the program.  [HTTPError] and [Exception] are
    caught by [except Exception]; [SystemExit], which [sys.exit] raises,
    is not. *)
Inductive exn : Type :=
| HTTPError (code : Z) (reason : string)
| Exception (msg : string)
| SystemExit (code : Z).

Definition is_Exception (e : exn) : bool :=
  match e with
  | SystemExit _ => false
  | _ => true
  end.

(** [str(e)]. *)
Definition str_exn (e : exn) : string :=
  match e with
  | HTTPError code reason => "HTTP Error " +:+ pretty code +:+ ": " +:+ reason
  | Exception msg => msg
  | SystemExit code => pretty code
  end.

(** The outcome of running a piece of code. *)
Inductive result (A : Type) : Type :=
| Return (a : A)
| Raise (e : exn).
Arguments Return {A} a.
Arguments Raise {A} e.

(** Pure code that may raise. *)
Global Instance result_ret : MRet result := fun A a => Return a.

Global Instance result_bind : MBind result := fun A B k r =>
  match r with
  | Return a => k a
  | Raise e => Raise e
  end.

(** [try: body / except Exception: handler]. *)
Definition rtry {A : Type} (body : result A) (handler : exn -> result A)
  : result A :=
  match body with
  | Return a => Return a
  | Raise e => if is_Exception e then handler e else Raise e
  end.

(** The monad of code that reads and changes a world [W] and may raise. *)
Definition M (W A : Type) : Type := W -> result A * W.

Global Instance M_ret {W} : MRet (M W) := fun A a w => (Return a, w).

Global Instance M_bind {W} : MBind (M W) := fun A B k m w =>
  match m w with
  | (Return a, w') => k a w'
  | (Raise e, w') => (Raise e, w')
  end.

Definition raise {W A : Type} (e : exn) : M W A := fun w => (Raise e, w).

(** [try: body / except ...]: [handler e] is [None] when no clause
    catches [e], which then propagates. *)
Definition try_except {W A : Type} (body : M W A)
    (handler : exn -> option (M W A)) : M W A :=
  fun w =>
    match body w with
    | (Return a, w') => (Return a, w')
    | (Raise e, w') =>
        match handler e with
        | Some h => h w'
        | None => (Raise e, w')
        end
    end.

(** The clause [except Exception as e]. *)
Definition except_Exception {W A : Type} (h : exn -> M W A) (e : exn)
  : option (M W A) :=
  if is_Exception e then Some (h e) else None.

Definition get {W : Type} : M W W := fun w => (Return w, w).
Definition modify {W : Type} (f : W -> W) : M W unit := fun w => (Return tt, f w).

(** A [for] loop that threads an accumulator. *)
Fixpoint for_each {W A S : Type} (body : S -> A -> M W S) (acc : S)
    (l : list A) : M W S :=
  match l with
  | [] => mret acc
  | x :: l' => acc' ← body acc x; for_each body acc' l'
  end.

End Py.

(** ** Decoding UTF-8 with replacement: [bytes.decode("utf-8", errors="replace")] *)

Module Utf8.

Local Open Scope Z_scope.

(** U+FFFD, the replacement character. *)
Definition replacement : Z := 65533.

Definition is_cont (b : Z) : bool := (128 <=? b) && (b <=? 191).

(** The decoder reads one sequence at a time.  An invalid start byte is
    replaced alone; a sequence broken by a byte that cannot continue it
    is replaced up to that byte, which starts the next sequence; a
    sequence cut by the end of the data is replaced as a whole. *)
Fixpoint decode (bs : list Z) : list Z :=
  match bs with
  | [] => []
  | b0 :: r0 =>
      if b0 <? 128 then b0 :: decode r0
      else if b0 <? 194 then replacement :: decode r0
      else if b0 <? 224 then
        match r0 with
        | [] => [replacement]
        | b1 :: r1 =>
            if is_cont b1 then ((b0 - 192) * 64 + (b1 - 128)) :: decode r1
            else replacement :: decode r0
        end
      else if b0 <? 240 then
        match r0 with
        | [] => [replacement]
        | b1 :: r1 =>
            if negb (is_cont b1) || ((b0 =? 224) && (b1 <? 160))
               || ((b0 =? 237) && (160 <=? b1))
            then replacement :: decode r0
            else
              match r1 with
              | [] => [replacement]
              | b2 :: r2 =>
                  if is_cont b2
                  then ((b0 - 224) * 4096 + (b1 - 128) * 64 + (b2 - 128))
                         :: decode r2
                  else replacement :: decode r1
              end
        end
      else if b0 <? 245 then
        match r0 with
        | [] => [replacement]
        | b1 :: r1 =>
            if negb (is_cont b1) || ((b0 =? 240) && (b1 <? 144))
               || ((b0 =? 244) && (144 <=? b1))
            then replacement :: decode r0
            else
              match r1 with
              | [] => [replacement]
              | b2 :: r2 =>
                  if negb (is_cont b2) then replacement :: decode r1
                  else
                    match r2 with
                    | [] => [replacement]
                    | b3 :: r3 =>
                        if is_cont b3
                        then ((b0 - 240) * 262144 + (b1 - 128) * 4096
                              + (b2 - 128) * 64 + (b3 - 128)) :: decode r3
                        else replacement :: decode r2
                    end
              end
        end
      else replacement :: decode r0
  end.

(** The UTF-8 encoding of a code point, to state what valid input is. *)
Definition encode_cp (cp : Z) : list Z :=
  if cp <? 128 then [cp]
  else if cp <? 2048 then [192 + cp / 64; 128 + cp mod 64]
  else if cp <? 65536 then
    [224 + cp / 4096; 128 + (cp / 64) mod 64; 128 + cp mod 64]
  else [240 + cp / 262144; 128 + (cp / 4096) mod 64;
        128 + (cp / 64) mod 64; 128 + cp mod 64].

Definition encode (cps : list Z) : list Z := flat_map encode_cp cps.

(** The code points text can hold: up to U+10FFFF, surrogates excluded. *)
Definition scalar (cp : Z) : Prop :=
  0 <= cp < 55296 \/ 57344 <= cp < 1114112.

(** A byte. *)
Definition byte (b : Z) : Prop := 0 <= b < 256.

(** The code points of a [str]. *)
Definition codepoints (s : string) : list Z :=
  map (fun c => Z.of_N (Chars.code c)) (list_ascii_of_string s).

End Utf8.

(** ** Coverage: referenced, covered and uncovered keys *)

(** A value of [db_urls]: where a referenced URL was first seen. *)
Record UrlInfo : Type := {
  info_url : string;
  post_asset_id : string;
  project_id : string;
  post_name : string;
}.

(** A JSON value as [json.loads] returns it; an object holds the items
    of the dictionary, a number its literal. *)
#[local] Set Warnings "-register-all".
Inductive json : Type :=
| JNull
| JBool (b : bool)
| JNumber (literal : string)
| JString (s : string)
| JArray (items : list json)
| JObject (items : list (string * json)).
#[local] Set Warnings "register-all".

(** A value of [scraped_keys]: a capture record's metadata. *)
Record ScrapedInfo : Type := {
  scraped_url : string;
  scraped_file : string;
  content_length : json;
}.

(** [args.domain] passes the test [if args.domain:] when it is given and
    not empty. *)
Definition domain_filter (domain : option string) : option string :=
  match domain with
  | Some "" => None
  | d => d
  end.

(** Lines 707-715 of [main]: the uncovered dictionary. *)
Definition uncovered (db_urls : gmap NormalizedKey UrlInfo)
    (scraped_keys : gmap NormalizedKey ScrapedInfo)
    (domain : option string) : gmap NormalizedKey UrlInfo :=
  let uncovered :=
    filter (fun kv => scraped_keys !! kv.1 = None) db_urls in
  let uncovered :=
    match domain_filter domain with
    | Some d => filter (fun kv => kv.1.1 = d) uncovered
    | None => uncovered
    end in
  filter (fun kv => kv.1.1 <> "gdrive") uncovered.

(** The keys the [--domain] option lets through. *)
Definition domain_allows (domain : option string) (k : NormalizedKey) : Prop :=
  match domain_filter domain with
  | Some d => k.1 = d
  | None => True
  end.

Global Instance domain_allows_dec domain k : Decision (domain_allows domain k).
Proof. unfold domain_allows. destruct (domain_filter domain); apply _. Defined.

(** ** The content normalizer *)

Module Sub.

(** [re.sub(pattern, repl, s)] for a pattern whose matches are not empty:
    [match_here s] is the length of the match at the head of [s].  The
    text is scanned from left to right; a match is replaced by [repl] and
    the scan goes on after it ([skip] counts the characters of the
    current match still to pass). *)
Fixpoint sub_go (match_here : string -> option nat) (repl : string)
    (skip : nat) (s : string) : string :=
  match s with
  | "" => ""
  | String c s' =>
      match skip with
      | S k => sub_go match_here repl k s'
      | O =>
          match match_here s with
          | Some n => repl +:+ sub_go match_here repl (n - 1) s'
          | None => String c (sub_go match_here repl 0 s')
          end
      end
  end.

Definition sub (match_here : string -> option nat) (repl s : string) : string :=
  sub_go match_here repl 0 s.

Definition is_nl (c : ascii) : bool := (c =? nl)%char.

(** [r"\n{3,}"] at the head of [s]: greedy, so the whole run of newlines. *)
Definition newlines3_here (s : string) : option nat :=
  let n := String.length (take_while is_nl s) in
  if (3 <=? n)%nat then Some n else None.

(** [re.sub(r"\n{3,}", "\n\n", result)]. *)
Definition collapse_newlines (result : string) : string :=
  sub newlines3_here (NL +:+ NL) result.

End Sub.

Import Sub.

(** The last two statements of [html_to_markdown] (lines 419-421). *)
Definition final_cleanup (result : string) : string :=
  strip (collapse_newlines result).

(** A string of [n] newline characters. *)
Fixpoint newlines (n : nat) : string :=
  match n with
  | O => ""
  | S n' => String nl (newlines n')
  end.

Definition first_char (s : string) : option ascii :=
  match s with
  | String c _ => Some c
  | "" => None
  end.

Fixpoint last_char (s : string) : option ascii :=
  match s with
  | "" => None
  | String c s' =>
      match last_char s' with
      | Some d => Some d
      | None => Some c
      end
  end.

Definition starts_with_nl (s : string) : bool :=
  match first_char s with
  | Some c => is_nl c
  | None => false
  end.

Definition ends_with_nl (s : string) : bool :=
  match last_char s with
  | Some c => is_nl c
  | None => false
  end.

(** What [collapse_newlines] does, one character at a time: [seen] is the
    number of newlines of the current run already passed; the first two
    newlines of a run are kept. *)
Fixpoint squeeze (seen : nat) (s : string) : string :=
  match s with
  | "" => ""
  | String c s' =>
      if is_nl c then
        if (seen <? 2)%nat then String c (squeeze (S seen) s')
        else squeeze (S seen) s'
      else String c (squeeze 0 s')
  end.

(** The document tree that BeautifulSoup builds and the rewriting of
    Notion blocks in it. *)
Module Dom.

#[local] Set Warnings "-register-all".
Inductive node : Type :=
| Text (s : string)
| Element (tag : string) (classes : list string) (children : list node).
#[local] Set Warnings "register-all".

(** The position of a node: the child indices from the top of the soup. *)
Definition path : Type := list nat.

(** The strings below a node, in document order. *)
Fixpoint all_strings (n : node) : list string :=
  match n with
  | Text s => [s]
  | Element _ _ kids => flat_map all_strings kids
  end.

(** [n.get_text(separator)]. *)
Definition get_text (separator : string) (n : node) : string :=
  join separator (all_strings n).

(** [class_=lambda c: c and needle in c]: the function is tried on each
    class of the element and on the classes joined by spaces; an element
    without a [class] attribute has no classes. *)
Definition class_matches (needle : string) (classes : list string) : bool :=
  existsb (contains needle) classes
  || (match classes with [] => false | _ => contains needle (join " " classes) end).

Definition is_div_with_class (needle : string) (n : node) : bool :=
  match n with
  | Element tag classes _ => (tag =? "div")%string && class_matches needle classes
  | Text _ => false
  end.

(** [find_all]: the matching nodes in document order, a node before the
    nodes below it, each with its position. *)
Fixpoint find_in (p : node -> bool) (here : path) (n : node)
  : list (path * node) :=
  (if p n then [(here, n)] else [])
  ++ match n with
     | Text _ => []
     | Element _ _ kids =>
         (fix go (i : nat) (ks : list node) : list (path * node) :=
            match ks with
            | [] => []
            | k :: ks' => find_in p (here ++ [i]) k ++ go (S i) ks'
            end) 0 kids
     end.

Fixpoint find_forest (p : node -> bool) (here : path) (i : nat)
    (ns : list node) : list (path * node) :=
  match ns with
  | [] => []
  | n :: ns' => find_in p (here ++ [i]) n ++ find_forest p here (S i) ns'
  end.

Definition find_all (p : node -> bool) (soup : list node)
  : list (path * node) :=
  find_forest p [] 0 soup.

(** The node at a position. *)
Fixpoint subtree (ns : list node) (p : path) : option node :=
  match p with
  | [] => None
  | i :: p' =>
      match ns !! i with
      | None => None
      | Some n =>
          match p' with
          | [] => Some n
          | _ :: _ =>
              match n with
              | Element _ _ kids => subtree kids p'
              | Text _ => None
              end
          end
      end
  end.

(** The soup with the node at a position replaced. *)
Fixpoint replace_at (p : path) (new : node) (ns : list node) : list node :=
  match p with
  | [] => ns
  | i :: p' =>
      match p' with
      | [] =>
          match ns !! i with
          | Some _ => <[i := new]> ns
          | None => ns
          end
      | _ :: _ =>
          match ns !! i with
          | Some (Element tag classes kids) =>
              <[i := Element tag classes (replace_at p' new kids)]> ns
          | _ => ns
          end
      end
  end.

Fixpoint is_prefix (q p : path) : bool :=
  match q, p with
  | [], _ => true
  | i :: q', j :: p' => (i =? j)%nat && is_prefix q' p'
  | _ :: _, [] => false
  end.

(** [for i, block in enumerate(blocks): ... block.replace_with(new_tag)].
    [blocks] holds the elements found before the loop starts.  An element
    below an element replaced earlier has left the soup with it:
    replacing it changes the detached part only, so the soup stays as it
    is; [detached] lists the positions replaced so far. *)
Fixpoint replace_loop (make : nat -> node -> node) (i : nat)
    (blocks : list (path * node)) (detached : list path)
    (soup : list node) : list node :=
  match blocks with
  | [] => soup
  | (p, block) :: rest =>
      let new_tag := make i block in
      if existsb (fun q => is_prefix q p) detached
      then replace_loop make (S i) rest detached soup
      else replace_loop make (S i) rest (p :: detached)
             (replace_at p new_tag soup)
  end.

Definition rewrite_blocks (target : node -> bool)
    (make : nat -> node -> node) (soup : list node) : list node :=
  replace_loop make 0 (find_all target soup) [] soup.

End Dom.

Import Dom.

Definition lang_labels : list string :=
  ["javascript"; "python"; "plain text"; "text"; "html"; "css";
   "json"; "typescript"; "bash"; "shell"; "xml"; "yaml"; "markdown";
   "sql"; "java"; "c"; "c++"; "ruby"; "go"; "rust"; "swift"; "kotlin";
   "php"; "r"; "scala"; "dart"; "lua"; "perl"; "powershell"].

(** The language label is removed from the first line, and the text is
    stripped (lines 350-354). *)
Definition strip_lang_label (text : string) : string :=
  let lines := split nl text in
  let lines :=
    match lines with
    | l0 :: rest =>
        if bool_decide (lower (strip l0) ∈ lang_labels) then rest else lines
    | [] => lines
    end in
  strip (join NL lines).

(** The text of the [i]-th code block (lines 343-348). *)
Definition code_block_source (code_block_texts : list string) (i : nat)
    (block : node) : string :=
  if negb (bool_decide (code_block_texts = [])) && (i <? length code_block_texts)%nat
  then nth i code_block_texts ""
  else get_text "" block.

(** [<pre><code>text</code></pre>] (lines 356-360). *)
Definition pre_code (text : string) : node :=
  Element "pre" [] [Element "code" [] [Text text]].

Definition new_code_block (code_block_texts : list string) (i : nat)
    (block : node) : node :=
  pre_code (strip_lang_label (code_block_source code_block_texts i block)).

Definition is_code_block : node -> bool := is_div_with_class "notion-code-block".
Definition is_callout : node -> bool := is_div_with_class "notion-callout-block".

(** The loop over the code blocks (lines 339-361). *)
Definition rewrite_code_blocks (code_block_texts : list string)
    (soup : list node) : list node :=
  rewrite_blocks is_code_block (new_code_block code_block_texts) soup.

(** The loop over the callouts (lines 363-369). *)
Definition new_callout (i : nat) (callout : node) : node :=
  Element "blockquote" [] [Text (strip (get_text NL callout))].

Definition rewrite_callouts (soup : list node) : list node :=
  rewrite_blocks is_callout new_callout soup.

(** The libraries the normalizer calls.  [bs4] is [None] when importing
    BeautifulSoup fails; [markdownify] is [None] when
    [MARKDOWNIFY_AVAILABLE] is false. *)
Record Libs : Type := {
  bs4 : option (string -> list node);
  soup_to_html : list node -> string;
  markdownify : option (string -> string);
  strip_non_content : string -> string;
  html_to_text : string -> string;
  is_chrome_line : string -> bool;
}.

Definition preprocess_notion_html (libs : Libs) (html : string)
    (code_block_texts : list string) : string :=
  match bs4 libs with
  | Some parse =>
      soup_to_html libs
        (rewrite_callouts (rewrite_code_blocks code_block_texts (parse html)))
  | None => html
  end.

(** [html_to_markdown].  [strip_non_content] stands for the removal of
    the non-content elements (lines 379-382), [html_to_text] for the
    fallback conversion and [is_chrome_line] for the test against
    [skip_patterns]. *)
Definition html_to_markdown (libs : Libs) (html : string)
    (code_block_texts : list string) : string :=
  let html := strip_non_content libs html in
  let html := preprocess_notion_html libs html code_block_texts in
  let result :=
    match markdownify libs with
    | Some md => md html
    | None => html_to_text libs html
    end in
  let lines := split nl result in
  let cleaned := List.filter (fun line => negb (is_chrome_line libs line)) lines in
  let result := join NL cleaned in
  final_cleanup result.

(** ** The covered set: [get_scraped_keys] *)

(** What reading and parsing one file of the capture store gives. *)
Inductive json_file : Type :=
| Unreadable (msg : string)
| NotJson (msg : string)
| Parsed (meta : json).

(** [json.loads(jf.read_text())]. *)
Definition load_json (file : json_file) : Py.result json :=
  match file with
  | Unreadable msg => Py.Raise (Py.Exception msg)
  | NotJson msg => Py.Raise (Py.Exception msg)
  | Parsed meta => Py.Return meta
  end.

Fixpoint assoc (key : string) (items : list (string * json)) : option json :=
  match items with
  | [] => None
  | (k, v) :: items' => if String.eqb k key then Some v else assoc key items'
  end.

(** [meta.get(key, default)]: only a dictionary has the method. *)
Definition dict_get (meta : json) (key : string) (default : json)
  : Py.result json :=
  match meta with
  | JObject items => Py.Return (from_option id default (assoc key items))
  | _ => Py.Raise (Py.Exception "AttributeError: object has no attribute 'get'")
  end.

(** [normalize_url(u)] on a JSON value: [re.search] accepts a string only. *)
Definition normalize_url_value (u : json) : Py.result (string * NormalizedKey) :=
  match u with
  | JString s => Py.Return (s, normalize_url s)
  | _ => Py.Raise (Py.Exception "TypeError: expected string or bytes-like object")
  end.

Definition ends_with (suffix s : string) : bool :=
  starts_with (String.rev suffix) (String.rev s).

(** [jf.stem] of a name that ends with [.json]. *)
Definition stem (name : string) : string :=
  if (5 <? String.length name)%nat
  then String.substring 0 (String.length name - 5) name
  else name.

(** The body of the loop of [get_scraped_keys] for one file. *)
Definition scan_file (keys : gmap NormalizedKey ScrapedInfo)
    (jf : string * json_file) : Py.result (gmap NormalizedKey ScrapedInfo) :=
  if String.eqb jf.1 "manifest.json" then Py.Return keys
  else
    Py.rtry
      (meta ← load_json jf.2;
       u ← dict_get meta "url" (JString "");
       '(u, key) ← normalize_url_value u;
       len ← dict_get meta "content_length" (JNumber "0");
       Py.Return (<[key := {| scraped_url := u; scraped_file := stem jf.1;
                              content_length := len |}]> keys))
      (fun _ => Py.Return keys).

Fixpoint scan_files (keys : gmap NormalizedKey ScrapedInfo)
    (files : list (string * json_file))
  : Py.result (gmap NormalizedKey ScrapedInfo) :=
  match files with
  | [] => Py.Return keys
  | jf :: files' => keys' ← scan_file keys jf; scan_files keys' files'
  end.

(** [get_scraped_keys]: [directory] lists the files of [RESOURCES_DIR]
    in the order [glob] yields them. *)
Definition get_scraped_keys (directory : list (string * json_file))
  : Py.result (gmap NormalizedKey ScrapedInfo) :=
  scan_files ∅ (List.filter (fun jf => ends_with ".json" jf.1) directory).

Definition is_damaged (file : json_file) : bool :=
  match file with
  | Parsed _ => false
  | _ => true
  end.

(** ** The outside world *)

(** What [urllib.request.urlopen(req, timeout=30)] and the read of the
    body end in, redirects followed: a response, or a failure below HTTP
    (no connection, time-out, broken transfer). *)
Inductive http_outcome : Type :=
| HttpResponse (status : Z) (reason : string) (body : list Z)
| NetworkFailure (msg : string).

(** What [json_path] holds when the re-scrape mode comes to update the
    metadata of a capture (lines 599-604): no file; a file whose read
    or parse raises (caught, [meta] stays [{}]); a JSON object; a JSON
    value that is no object (a list, a string, a number, [true],
    [false] or [null]), which has no [update]; or [json_path.exists()]
    itself raises. *)
Inductive existing_meta : Type :=
| NoMeta
| MetaUnreadable
| MetaObject
| MetaNotObject
| MetaInaccessible (msg : string).

(** The answers of the outside world, by the number of exchanges made
    before ([clock]). *)
Record Env : Type := {
  (** [CDP_AVAILABLE]: [requests] and [websocket] were imported. *)
  CDP_AVAILABLE : bool;
  (** [GET /json/version] was answered with status 200. *)
  cdp_version_ok : nat -> bool;
  (** [CDPClient.connect]: the message of the exception, if it raises. *)
  cdp_connect : nat -> option string;
  (** The protocol exchange of [CDPClient.fetch_html]: the message of
      the exception, or [(html, code_block_texts)]. *)
  cdp_fetch_html : nat -> string -> string + string * list string;
  (** [urlopen] of a URL and the read of the body. *)
  http_get : nat -> string -> http_outcome;
  (** [update_db_asset_content]: the message of the exception, if any. *)
  db_update : nat -> string -> option string;
  (** [RESOURCES_DIR.mkdir(parents=True, exist_ok=True)]: the message of
      the exception, if it raises. *)
  fs_mkdir : nat -> option string;
  (** [path.write_text(...)] for the file of that name in the capture
      store: the message of the exception, if it raises. *)
  fs_write : nat -> string -> option string;
  (** The metadata file of that name, as the re-scrape mode finds it. *)
  fs_meta : nat -> string -> existing_meta;
}.

(** What the program does to the outside world; a write is recorded
    when it is attempted, whether or not it succeeds. *)
Inductive Event : Type :=
| EvProbe
| EvConnect
| EvBrowse (url : string)
| EvHttpGet (url : string)
| EvMkdir
| EvReadMeta (filename : string)
| EvWriteText (filename : string) (content : list Z)
| EvWriteMeta (filename url method : string) (length : nat)
| EvDbUpdate (asset_id : string)
| EvSleep (milliseconds : nat).

(** How the loop left an item. *)
Inductive Outcome : Type :=
| Skipped
| Previewed (filename : string)
| Failed (error : string)
| Saved (filename : string) (length : nat).

(** The state of a run: the clock, the global [_cdp_client] ([None], or
    a client and its [_connected] flag), the events so far and, for each
    item a loop has left, its URL and outcome (oldest first). *)
Record World : Type := {
  clock : nat;
  cdp_client : option bool;
  trace : list Event;
  journal : list (string * Outcome);
}.

Definition initial_world : World :=
  {| clock := 0; cdp_client := None; trace := []; journal := [] |}.

(** An event that attempts a fetch. *)
Definition is_fetch_event (ev : Event) : bool :=
  match ev with
  | EvConnect | EvBrowse _ | EvHttpGet _ => true
  | _ => false
  end.

(** The URLs [get_db_resource_urls] can put in [db_urls]: a match of
    [notion_re] or [gdocs_re] starts with one of these prefixes, and
    [rstrip(").,;")] leaves the prefix in place. *)
Definition discovered_prefixes : list string :=
  ["http://notion.so/"; "https://notion.so/";
   "http://www.notion.so/"; "https://www.notion.so/";
   "http://notion.site/"; "https://notion.site/";
   "http://www.notion.site/"; "https://www.notion.site/";
   "http://docs.google.com/document/d/"; "https://docs.google.com/document/d/";
   "http://docs.google.com/spreadsheets/d/";
   "https://docs.google.com/spreadsheets/d/"].

Definition discovered (url : string) : bool :=
  existsb (fun p => starts_with p url) discovered_prefixes.

(** ** The fetch strategies and the sync loops *)

Module Sync.

Import Py.

Abbreviation IO := (M World).

Record Args : Type := {
  dry_run : bool;
  domain : option string;
  rescrape : bool;
}.

Record Counts : Type := {
  extracted : nat;
  failed : nat;
  skipped_cdp : nat;
}.

(** An asset of the re-scrape mode; [published_url] is [""] when the
    field is missing or empty. *)
Record Asset : Type := {
  asset_id : string;
  asset_name : string;
  published_url : string;
}.

Definition CDP_DOMAINS : list string := ["notion.so"; "notion.site"].

Section Run.

Variable libs : Libs.
Variable env : Env.

(** [url_to_filename(url, domain)]: a pure function of its arguments
    (it hashes the URL). *)
Variable url_to_filename : string -> string -> string.

(** One exchange with the outside world: the event is recorded, the
    clock advances, the value is the time of the exchange. *)
Definition exchange (ev : Event) : IO nat := fun w =>
  (Return (clock w),
   {| clock := S (clock w); cdp_client := cdp_client w;
      trace := trace w ++ [ev]; journal := journal w |}).

Definition set_cdp_client (c : option bool) : IO unit :=
  modify (fun w => {| clock := clock w; cdp_client := c;
                      trace := trace w; journal := journal w |}).

Definition record_outcome (url : string) (o : Outcome) : IO unit :=
  modify (fun w => {| clock := clock w; cdp_client := cdp_client w;
                      trace := trace w;
                      journal := journal w ++ [(url, o)] |}).

(** [check_cdp_available]: any exception gives [False]. *)
Definition check_cdp_available : IO bool :=
  if negb (CDP_AVAILABLE env) then mret false
  else t ← exchange EvProbe; mret (cdp_version_ok env t).

(** [CDPClient.connect]. *)
Definition connect : IO unit :=
  w ← get;
  match cdp_client w with
  | Some true => mret tt
  | _ =>
      t ← exchange EvConnect;
      match cdp_connect env t with
      | Some msg => raise (Exception msg)
      | None => set_cdp_client (Some true)
      end
  end.

(** [get_cdp_client]: the client, or [None]. *)
Definition get_cdp_client : IO (option unit) :=
  if negb (CDP_AVAILABLE env) then mret None
  else
    w ← get;
    match cdp_client w with
    | None =>
        try_except
          (set_cdp_client (Some false);; connect;; mret (Some tt))
          (except_Exception (fun _ => mret None))
    | Some _ => mret (Some tt)
    end.

(** [CDPClient.fetch_html]: [send] connects first when the client is not
    connected. *)
Definition fetch_html (url : string) : IO (string * list string) :=
  connect;;
  t ← exchange (EvBrowse url);
  match cdp_fetch_html env t url with
  | inl msg => raise (Exception msg)
  | inr r => mret r
  end.

(** A fetch returns [(content, error)]. *)
Definition Fetched : Type := option (list Z) * option string.

Definition fetch_notion (url : string) : IO Fetched :=
  client ← get_cdp_client;
  match client with
  | None => mret (None, Some "CDP browser not available")
  | Some _ =>
      try_except
        ('(html, code_block_texts) ← fetch_html url;
         if (String.length html <? 500)%nat
         then mret (None, Some "Page did not load")
         else
           let text := html_to_markdown libs html code_block_texts in
           if (String.length text <? 200)%nat
           then mret (None, Some "No meaningful content found")
           else mret (Some (Utf8.codepoints text), None))
        (except_Exception
           (fun e => mret (None, Some ("CDP error: " +:+ str_exn e))))
  end.

(** [urlopen(req, timeout=30)] and [resp.read()]: a status outside
    200..299 raises [HTTPError]. *)
Definition urlopen_read (url : string) : IO (list Z) :=
  t ← exchange (EvHttpGet url);
  match http_get env t url with
  | HttpResponse status reason body =>
      if ((200 <=? status) && (status <? 300))%Z then mret body
      else raise (HTTPError status reason)
  | NetworkFailure msg => raise (Exception msg)
  end.

Definition export_url (url doc_id : string) : string :=
  if contains "spreadsheets" url
  then "https://docs.google.com/spreadsheets/d/" +:+ doc_id +:+ "/export?format=csv"
  else "https://docs.google.com/document/d/" +:+ doc_id +:+ "/export?format=txt".

Definition fetch_gdoc (url : string) : IO Fetched :=
  match search slash_d_here url with
  | None => mret (None, Some "Could not extract doc ID")
  | Some doc_id =>
      try_except
        (body ← urlopen_read (export_url url doc_id);
         mret (Some (Utf8.decode body), None))
        (fun e =>
           match e with
           | HTTPError code reason =>
               Some (if (code =? 403)%Z
                     then mret (None, Some "Access denied (requires login)")
                     else mret (None, Some ("HTTP " +:+ pretty code +:+ ": "
                                            +:+ reason)))
           | _ => except_Exception
                    (fun e => mret (None, Some ("Error: " +:+ str_exn e))) e
           end)
  end.

Definition fetch_resource (url domain : string) : IO Fetched :=
  if bool_decide (domain ∈ CDP_DOMAINS) then fetch_notion url
  else if contains "docs.google.com" url then fetch_gdoc url
  else mret (None, Some ("Unsupported domain: " +:+ domain)).

(** [get_domain(url)] in the program: [urlparse] may raise. *)
Definition get_domain_io (url : string) : IO string :=
  match get_domain url with
  | Some d => mret d
  | None => raise (Exception "ValueError")
  end.

(** [RESOURCES_DIR.mkdir(parents=True, exist_ok=True)]. *)
Definition mkdir : IO unit :=
  t ← exchange EvMkdir;
  match fs_mkdir env t with
  | Some msg => raise (Exception msg)
  | None => mret tt
  end.

(** [path.write_text(...)]: [ev] says what is written to the file
    [filename]; an [OSError] is an [Exception]. *)
Definition write_file (ev : Event) (filename : string) : IO unit :=
  t ← exchange ev;
  match fs_write env t filename with
  | Some msg => raise (Exception msg)
  | None => mret tt
  end.

(** Lines 599-612 of [rescrape_notion]: the existing metadata is read,
    errors of the read and of the parse are caught, and [meta.update]
    is called on what was read. *)
Definition update_meta (filename : string) : IO unit :=
  t ← exchange (EvReadMeta filename);
  match fs_meta env t filename with
  | MetaInaccessible msg => raise (Exception msg)
  | MetaNotObject =>
      raise (Exception "AttributeError: object has no attribute 'update'")
  | NoMeta | MetaUnreadable | MetaObject => mret tt
  end.

(** [if error:] holds for a string that is not empty. *)
Definition truthy (error : option string) : bool :=
  match error with
  | Some (String _ _) => true
  | _ => false
  end.

Definition sleep_after (i n : nat) (milliseconds : nat) : IO unit :=
  if (i <? n)%nat then exchange (EvSleep milliseconds);; mret tt else mret tt.

(** The body of the loop of [main] (lines 756-807) for item number [i]
    of [n].  The two writes are outside every [try]: an exception of
    [write_text] leaves the loop. *)
Definition sync_item (args : Args) (cdp_available : bool) (n : nat)
    (acc : Counts) (item : nat * (NormalizedKey * UrlInfo)) : IO Counts :=
  let '(i, (key, info)) := item in
  let url := info_url info in
  domain ← get_domain_io url;
  let rtype := key.1 in
  if String.eqb rtype "notion" && negb cdp_available then
    record_outcome url Skipped;;
    mret {| extracted := extracted acc; failed := failed acc;
            skipped_cdp := S (skipped_cdp acc) |}
  else
    let filename := url_to_filename url domain in
    if dry_run args then
      record_outcome url (Previewed filename);; mret acc
    else
      '(content, error) ← fetch_resource url domain;
      acc ← (if truthy error then
               record_outcome url (Failed (default "" error));;
               mret {| extracted := extracted acc; failed := S (failed acc);
                       skipped_cdp := skipped_cdp acc |}
             else
               let content := default [] content in
               write_file (EvWriteText (filename +:+ ".txt") content)
                 (filename +:+ ".txt");;
               write_file
                 (EvWriteMeta (filename +:+ ".json") url
                    (if String.eqb rtype "notion" then "cdp" else "http")
                    (length content))
                 (filename +:+ ".json");;
               record_outcome url (Saved filename (length content));;
               mret {| extracted := S (extracted acc); failed := failed acc;
                       skipped_cdp := skipped_cdp acc |});
      sleep_after i n (if String.eqb rtype "notion" then 2000 else 500);;
      mret acc.

(** [enumerate(items, 1)]. *)
Definition enumerate1 {A : Type} (l : list A) : list (nat * A) :=
  imap (fun i x => (S i, x)) l.

(** The loop of [main] over the sorted items. *)
Definition sync_loop (args : Args) (cdp_available : bool)
    (items : list (NormalizedKey * UrlInfo)) : IO Counts :=
  for_each (sync_item args cdp_available (length items))
    {| extracted := 0; failed := 0; skipped_cdp := 0 |}
    (enumerate1 items).

(** [sorted(uncovered.items(), key=lambda x: x[1]["url"])]. *)
Definition url_le (x y : NormalizedKey * UrlInfo) : Prop :=
  String.le (info_url x.2) (info_url y.2).

Global Instance url_le_dec : RelDecision url_le.
Proof. intros x y. unfold url_le. apply _. Defined.

Definition sorted_items (uncovered : gmap NormalizedKey UrlInfo)
  : list (NormalizedKey * UrlInfo) :=
  merge_sort url_le (map_to_list uncovered).

(** [main] after the two dictionaries are built (lines 707-814): the
    counts, or [None] when there is nothing to fetch. *)
Definition main_sync (args : Args) (db_urls : gmap NormalizedKey UrlInfo)
    (scraped_keys : gmap NormalizedKey ScrapedInfo) : IO (option Counts) :=
  let uncovered := uncovered db_urls scraped_keys (domain args) in
  let items := sorted_items uncovered in
  match items with
  | [] => mret None
  | _ :: _ =>
      let needs_cdp := existsb (fun it => String.eqb it.1.1 "notion") items in
      cdp_available ← (if needs_cdp then check_cdp_available else mret false);
      mkdir;;
      counts ← sync_loop args cdp_available items;
      mret (Some counts)
  end.

(** The body of the loop of [rescrape_notion] (lines 575-626).  The
    writes and the update of the metadata are outside every [try]. *)
Definition rescrape_item (n : nat) (acc : nat * nat)
    (item : nat * Asset) : IO (nat * nat) :=
  let '(i, asset) := item in
  let '(success, failed) := acc in
  let url := published_url asset in
  match url with
  | "" => mret acc
  | _ =>
      domain ← get_domain_io url;
      '(content, error) ← fetch_notion url;
      if truthy error then
        record_outcome url (Failed (default "" error));;
        mret (success, S failed)
      else
        let content := default [] content in
        let filename := url_to_filename url domain in
        write_file (EvWriteText (filename +:+ ".txt") content)
          (filename +:+ ".txt");;
        update_meta (filename +:+ ".json");;
        write_file
          (EvWriteMeta (filename +:+ ".json") url "cdp" (length content))
          (filename +:+ ".json");;
        acc ← try_except
                (t ← exchange (EvDbUpdate (asset_id asset));
                 match db_update env t (asset_id asset) with
                 | Some msg => raise (Exception msg)
                 | None =>
                     record_outcome url (Saved filename (length content));;
                     mret (S success, failed)
                 end)
                (except_Exception
                   (fun e =>
                      record_outcome url
                        (Failed ("File saved but DB update failed: "
                                 +:+ str_exn e));;
                      mret (success, S failed)));
        sleep_after i n 2000;;
        mret acc
  end.

(** [rescrape_notion], given the assets that [get_notion_asset_urls]
    returned. *)
Definition rescrape_notion (args : Args) (assets : list Asset)
  : IO (option (nat * nat)) :=
  if negb (bool_decide (is_Some (markdownify libs))) then raise (SystemExit 1)
  else
    match assets with
    | [] => mret None
    | _ :: _ =>
        cdp_available ← check_cdp_available;
        if negb cdp_available then raise (SystemExit 1)
        else if dry_run args then mret None
        else
          mkdir;;
          counts ← for_each (rescrape_item (length assets)) (0, 0)
                     (enumerate1 assets);
          mret (Some counts)
    end.

End Run.

(** The counts after one more outcome, and the counts of a journal. *)
Definition bump (acc : Counts) (o : Outcome) : Counts :=
  match o with
  | Skipped =>
      {| extracted := extracted acc; failed := failed acc;
         skipped_cdp := S (skipped_cdp acc) |}
  | Previewed _ => acc
  | Failed _ =>
      {| extracted := extracted acc; failed := S (failed acc);
         skipped_cdp := skipped_cdp acc |}
  | Saved _ _ =>
      {| extracted := S (extracted acc); failed := failed acc;
         skipped_cdp := skipped_cdp acc |}
  end.


Definition is_notion_key (key : NormalizedKey) : bool := String.eqb key.1 "notion".

(** The outcome the loop of [main] may leave for an item: skipped when
    its key is a Notion key and the browser was found unavailable;
    otherwise previewed in a dry run, and fetched (saved or failed) in a
    real run. *)
Definition expected (args : Args) (cdp_available : bool)
    (item : NormalizedKey * UrlInfo) (o : Outcome) : bool :=
  if is_notion_key item.1 && negb cdp_available
  then match o with Skipped => true | _ => false end
  else if dry_run args
  then match o with Previewed _ => true | _ => false end
  else match o with Failed _ | Saved _ _ => true | _ => false end.

Definition item_url (item : NormalizedKey * UrlInfo) : string := info_url item.2.

(** The browser cannot be reached during the whole run. *)
Definition browser_unavailable (env : Env) : Prop :=
  CDP_AVAILABLE env = false \/ forall t, cdp_version_ok env t = false.

(** A computation that leaves the journal as it is and raises nothing
    but exceptions of class [Exception]. *)
Definition quiet {A : Type} (m : IO A) : Prop :=
  forall w,
    journal (m w).2 = journal w
    /\ match (m w).1 with
       | Return _ => True
       | Raise e => is_Exception e = true
       end.

(** A computation that leaves the journal as it is and always returns. *)
Definition total {A : Type} (m : IO A) : Prop :=
  forall w, journal (m w).2 = journal w /\ exists a, (m w).1 = Return a.

(** The exception of a write that the capture store refused. *)
Definition write_failed (env : Env) (e : exn) : Prop :=
  exists t filename msg, fs_write env t filename = Some msg /\ e = Exception msg.

(** The capture store accepts every write. *)
Definition store_writable (env : Env) : Prop :=
  forall t filename, fs_write env t filename = None.

(** An existing metadata file that the re-scrape mode can update. *)
Definition meta_usable (m : existing_meta) : bool :=
  match m with
  | NoMeta | MetaUnreadable | MetaObject => true
  | MetaNotObject | MetaInaccessible _ => false
  end.

(** The capture store takes whatever the two modes do to it. *)
Definition store_ready (env : Env) : Prop :=
  (forall t, fs_mkdir env t = None)
  /\ store_writable env
  /\ (forall t filename, meta_usable (fs_meta env t filename) = true).

(** The exception of a [mkdir] that failed. *)
Definition mkdir_failed (env : Env) (e : exn) : Prop :=
  exists t msg, fs_mkdir env t = Some msg /\ e = Exception msg.

End Sync.

(** ** Sample data for the examples *)

Module Samples.

(** An outside world without a browser, whose export endpoint answers
    every request with status 500. *)
Definition no_browser_env : Env :=
  {| CDP_AVAILABLE := true;
     cdp_version_ok := fun _ => false;
     cdp_connect := fun _ => Some "Connection refused";
     cdp_fetch_html := fun _ _ => inl "Connection refused";
     http_get := fun _ _ => HttpResponse 500 "Internal Server Error" [];
     db_update := fun _ _ => None;
     fs_mkdir := fun _ => None;
     fs_write := fun _ _ => None;
     fs_meta := fun _ _ => NoMeta |}.


(** An outside world with a browser that serves a short page, and a
    capture store that accepts every write. *)
Definition browser_env : Env :=
  {| CDP_AVAILABLE := true;
     cdp_version_ok := fun _ => true;
     cdp_connect := fun _ => None;
     cdp_fetch_html := fun _ _ => inr ("<html></html>", []);
     http_get := fun _ _ => NetworkFailure "unreachable";
     db_update := fun _ _ => None;
     fs_mkdir := fun _ => None;
     fs_write := fun _ _ => None;
     fs_meta := fun _ _ => NoMeta |}.


(** BeautifulSoup and markdownify replaced by trivial functions. *)
Definition plain_libs : Libs :=
  {| bs4 := Some (fun html => [Text html]);
     soup_to_html := fun soup => join "" (flat_map all_strings soup);
     markdownify := Some (fun html => html);
     strip_non_content := fun html => html;
     html_to_text := fun html => html;
     is_chrome_line := fun _ => false |}.

Definition sample_filename (url domain : string) : string := domain.

Definition sample_asset : Sync.Asset :=
  {| Sync.asset_id := "7"; Sync.asset_name := "Prompt kit";
     Sync.published_url := "https://notion.so/P-0123456789abcdef0123456789abcdef" |}.

Definition real_run : Sync.Args :=
  {| Sync.dry_run := false; Sync.domain := None; Sync.rescrape := false |}.

Definition sample_info (url : string) : UrlInfo :=
  {| info_url := url; post_asset_id := "a1"; project_id := "p1";
     post_name := "post" |}.

Definition notion_item : NormalizedKey * UrlInfo :=
  (("notion", "0123456789abcdef0123456789abcdef"),
   sample_info "https://notion.so/P-0123456789abcdef0123456789abcdef").

Definition gdoc_item : NormalizedKey * UrlInfo :=
  (("gdoc", "1AbC"), sample_info "https://docs.google.com/document/d/1AbC/edit").


Definition sample_db_urls : gmap NormalizedKey UrlInfo :=
  <[gdoc_item.1 := gdoc_item.2]> (<[notion_item.1 := notion_item.2]> ∅).

End Samples.

(** ** Notions used to state further properties *)

(** An entry of the covered set is filed under the normalized key of the
    URL it records, and comes from a parsed file of the list. *)
Definition well_keyed (files : list (string * json_file))
    (k : NormalizedKey) (v : ScrapedInfo) : Prop :=
  k = normalize_url (scraped_url v)
  /\ exists name meta,
       (name, Parsed meta) ∈ files
       /\ name <> "manifest.json"
       /\ scraped_file v = stem name.

(** A fetch result carries either a content and no error, or no content
    and an error that is not empty. *)
Definition content_xor_error (r : Sync.Fetched) : Prop :=
  (exists c, r = (Some c, None))
  \/ (exists e, r = (None, Some e) /\ e <> "").

(** What a computation returns satisfies [P]; what it raises is of class
    [Exception]. *)
Definition returns {A : Type} (m : Py.M World A) (P : A -> Prop) : Prop :=
  forall w,
    match (m w).1 with
    | Py.Return a => P a
    | Py.Raise e => Py.is_Exception e = true
    end.

(** The events a computation adds to the trace all satisfy [ok]. *)
Definition emits {A : Type} (ok : Event -> bool) (m : Py.M World A) : Prop :=
  forall w, exists new,
    trace (m w).2 = trace w ++ new /\ forallb ok new = true.

Definition is_write_event (ev : Event) : bool :=
  match ev with
  | EvWriteText _ _ | EvWriteMeta _ _ _ _ => true
  | _ => false
  end.

Definition not_write (ev : Event) : bool := negb (is_write_event ev).

Definition writes (events : list Event) : list Event :=
  List.filter is_write_event events.

Definition is_saved (o : Outcome) : bool :=
  match o with
  | Saved _ _ => true
  | _ => false
  end.

(** The assets of the re-scrape mode that have a URL. *)
Definition with_url (assets : list Sync.Asset) : list Sync.Asset :=
  List.filter (fun a => negb (String.eqb (Sync.published_url a) "")) assets.

(** ** Loading the environment file: [load_env] *)

Module Environ.

(** [os.environ.setdefault(key, val)]: an existing variable is kept.
    Setting a variable whose name is empty, or whose name or value holds
    a null character, raises [ValueError]. *)
Definition has_null (s : string) : bool :=
  negb (all_chars (fun c => negb (code c =? 0)%N) s).

Definition setdefault (key val : string) (environ : gmap string string)
  : Py.result (gmap string string) :=
  match environ !! key with
  | Some _ => Py.Return environ
  | None =>
      if String.eqb key "" || has_null key || has_null val
      then Py.Raise (Py.Exception "ValueError")
      else Py.Return (<[key := val]> environ)
  end.

(** [line.split("=", 1)] of a line that contains [=]. *)
Definition split_assignment (line : string) : string * string :=
  let '(key, rest) := span (fun c => negb (code c =? 61)%N) line in
  (key, match rest with String _ val => val | "" => "" end).

(** The body of the loop of [load_env] (lines 73-78). *)
Definition load_line (environ : gmap string string) (line : string)
  : Py.result (gmap string string) :=
  let line := strip line in
  if String.eqb line "" || starts_with "#" line then Py.Return environ
  else if contains "=" line then
    let '(key, val) := split_assignment line in
    setdefault (strip key) (strip val) environ
  else Py.Return environ.

Fixpoint load_lines (environ : gmap string string) (lines : list string)
  : Py.result (gmap string string) :=
  match lines with
  | [] => Py.Return environ
  | line :: lines' =>
      environ' ← load_line environ line; load_lines environ' lines'
  end.

(** [load_env]: [env_file] is [None] when [.env.local] does not exist,
    and the lines of the file ([read_text().splitlines()]) otherwise. *)
Definition load_env (env_file : option (list string))
    (environ : gmap string string) : Py.result (gmap string string) :=
  match env_file with
  | None => Py.Raise (Py.SystemExit 1)
  | Some lines => load_lines environ lines
  end.

(** A line the loop passes over. *)
Definition is_inert (line : string) : bool :=
  String.eqb (strip line) "" || starts_with "#" (strip line)
  || negb (contains "=" (strip line)).

End Environ.

(** ** Document order of positions *)

(** [path_lt p q]: the node at [p] comes before the node at [q] in
    document order (a node comes before the nodes below it). *)
Fixpoint path_lt (p q : Dom.path) : Prop :=
  match p, q with
  | [], [] => False
  | [], _ :: _ => True
  | _ :: _, [] => False
  | i :: p', j :: q' => i < j \/ (i = j /\ path_lt p' q')
  end.

(** The positions of a list moved below the position [here]. *)
Definition below (here : Dom.path) (l : list (Dom.path * Dom.node))
  : list (Dom.path * Dom.node) :=
  (fun x => (here ++ x.1, x.2)) <$> l.

(** A block that lies in no other block. *)
Definition outermost (blocks : list (Dom.path * Dom.node)) (p : Dom.path)
  : Prop :=
  forall q b, (q, b) ∈ blocks -> q <> p -> Dom.is_prefix q p = false.

(** What a node is, apart from what lies below it. *)
Definition label (n : Dom.node) : string * list string * nat :=
  match n with
  | Dom.Text s => (s, [], 0)
  | Dom.Element tag classes kids => (tag, classes, S (length kids))
  end.

Definition doc_before (x y : Dom.path * Dom.node) : Prop := path_lt x.1 y.1.

(** [b] is found at [q], below the [j]-th node of a forest whose first
    node has index [i]. *)
Definition found_in_forest (target : Dom.node -> bool) (i : nat)
    (ns : list Dom.node) (q : Dom.path) (b : Dom.node) : Prop :=
  exists j q', q = (i + j) :: q' /\ Dom.subtree ns (j :: q') = Some b
               /\ target b = true.

(** The first line of a text. *)
Definition first_line (text : string) : string := hd "" (split nl text).

(** ** Discovering the referenced URLs *)

Module Discover.

(** [(?:p)?] followed by the rest [k] of the pattern: greedy, so the
    text is tried with [p] first and without it when that fails. *)
Definition optional {A : Type} (p : string) (k : string -> option A)
    (s : string) : option A :=
  match literal p s ≫= k with
  | Some m => Some m
  | None => k s
  end.

(** [(?:p|q)] followed by the rest [k] of the pattern: the alternatives
    are tried in order. *)
Definition either {A : Type} (p q : string) (k : string -> option A)
    (s : string) : option A :=
  match literal p s ≫= k with
  | Some m => Some m
  | None => literal q s ≫= k
  end.

(** The class at the end of both patterns: any character but
    whitespace, a closing parenthesis, a double quote, [>] and a closing
    bracket. *)
Definition is_url_char (c : ascii) : bool :=
  negb (is_space c || (c =? ")")%char || (c =? "034")%char
        || (c =? ">")%char || (c =? "]")%char).

(** One or more characters of the class at the end of a pattern: the
    longest run; what follows it is returned. *)
Definition url_tail (s : string) : option string :=
  match span is_url_char s with
  | ("", _) => None
  | (_, rest) => Some rest
  end.

(** [notion_re] at the head of [s]: what follows the match. *)
Definition notion_here (s : string) : option string :=
  r ← literal "http" s;
  optional "s"
    (fun r =>
       r ← literal "://" r;
       optional "www."
         (fun r =>
            r ← literal "notion." r;
            either "so" "site" (fun r => literal "/" r ≫= url_tail) r) r) r.

(** [gdocs_re] at the head of [s]: what follows the match. *)
Definition gdocs_here (s : string) : option string :=
  r ← literal "http" s;
  optional "s"
    (fun r =>
       r ← literal "://docs.google.com/" r;
       either "document" "spreadsheets"
         (fun r => literal "/d/" r ≫= url_tail) r) r.

(** The shape of a match of either pattern at the head of [s], [rest]
    being what follows it. *)
Definition match_shape (s rest : string) : Prop :=
  exists p run, In p discovered_prefixes /\ run <> ""
                /\ all_chars is_url_char run = true
                /\ s = p +:+ run +:+ rest.

(** [pattern.findall(s)] for a pattern without groups whose matches are
    not empty: the matched texts from left to right, the scan going on
    after each match ([skip] counts the characters of the current match
    still to pass). *)
Fixpoint findall_go (match_here : string -> option string) (skip : nat)
    (s : string) : list string :=
  match s with
  | "" => []
  | String c s' =>
      match skip with
      | S k => findall_go match_here k s'
      | O =>
          match match_here s with
          | Some rest =>
              let n := String.length s - String.length rest in
              substring 0 n s :: findall_go match_here (n - 1) s'
          | None => findall_go match_here 0 s'
          end
      end
  end.

Definition findall (match_here : string -> option string) (s : string)
  : list string :=
  findall_go match_here 0 s.

(** [u.rstrip(chars)]. *)
Fixpoint rstrip_chars (chars : ascii -> bool) (u : string) : string :=
  match u with
  | "" => ""
  | String c u' =>
      match rstrip_chars chars u' with
      | "" => if chars c then "" else String c ""
      | r => String c r
      end
  end.

(** The characters [rstrip] removes: closing parenthesis, full stop,
    comma and semicolon. *)
Definition is_trailing (c : ascii) : bool :=
  (c =? ")")%char || (c =? ".")%char || (c =? ",")%char || (c =? ";")%char.

(** A row of the posts query; the content column may be null. *)
Module Post.
Record t : Type := {
  content : option string;
  asset_id : string;
  project_id : string;
  name : string;
}.
End Post.

(** The content of a post, the empty string when it is missing. *)
Definition content_of (post : Post.t) : string :=
  match Post.content post with
  | Some s => s
  | None => ""
  end.

(** The URLs the inner loop of [get_db_resource_urls] goes through for
    one content, in its order: the Notion matches, then the Google
    ones, each stripped on the right. *)
Definition found_urls (content : string) : list string :=
  rstrip_chars is_trailing
    <$> (findall notion_here content ++ findall gdocs_here content).

Definition entry_of (post : Post.t) (u : string) : UrlInfo :=
  {| info_url := u;
     post_asset_id := Post.asset_id post;
     project_id := Post.project_id post;
     post_name := Post.name post |}.

(** The body of the inner loop: a key already present is left alone. *)
Definition add_url (post : Post.t) (urls : gmap NormalizedKey UrlInfo)
    (u : string) : gmap NormalizedKey UrlInfo :=
  let key := normalize_url u in
  match urls !! key with
  | None => <[key := entry_of post u]> urls
  | Some _ => urls
  end.

Definition add_post (urls : gmap NormalizedKey UrlInfo) (post : Post.t)
  : gmap NormalizedKey UrlInfo :=
  foldl (add_url post) urls (found_urls (content_of post)).

(** Lines 489-508 of [get_db_resource_urls], on the rows of the
    response. *)
Definition get_db_resource_urls (posts : list Post.t)
  : gmap NormalizedKey UrlInfo :=
  foldl add_post ∅ posts.

(** The URLs found in a list of posts. *)
Definition mentioned (posts : list Post.t) (u : string) : Prop :=
  exists post, post ∈ posts /\ u ∈ found_urls (content_of post).

End Discover.

(** ** The text side of the normalizer: the functions [Libs] leaves open *)

Module Text.

(** A character of a pattern against a character of the text under
    [re.IGNORECASE]. *)
Definition ieq (p c : ascii) : bool := (lower_char c =? lower_char p)%char.

(** A literal at the head of [s] under [re.IGNORECASE]: what follows it. *)
Fixpoint iliteral (p s : string) : option string :=
  match p with
  | "" => Some s
  | String a p' =>
      match s with
      | String b s' => if ieq a b then iliteral p' s' else None
      | "" => None
      end
  end.

(** [.*?] followed by the literal [close], under [re.DOTALL]: the
    nearest place where [close] matches; what follows it. *)
Fixpoint lazy_until (close s : string) : option string :=
  match iliteral close s with
  | Some r => Some r
  | None =>
      match s with
      | "" => None
      | String _ s' => lazy_until close s'
      end
  end.

Definition not_gt (c : ascii) : bool := negb (c =? ">")%char.

(** [rf"<{tag}[^>]*>.*?</{tag}>"] at the head of [s], with
    [re.DOTALL | re.IGNORECASE]: the length of the match. *)
Definition element_here (tag s : string) : option nat :=
  r ← iliteral ("<" +:+ tag) s;
  r ← literal ">" (drop_while not_gt r);
  r ← lazy_until ("</" +:+ tag +:+ ">") r;
  Some (String.length s - String.length r).

Definition remove_elements (html tag : string) : string :=
  sub (element_here tag) "" html.

(** Lines 379-382 of [html_to_markdown]. *)
Definition strip_non_content (html : string) : string :=
  foldl remove_elements html
    ["noscript"; "script"; "style"; "svg"; "nav"; "footer"; "header"].

(** [r"<[^>]+>"] at the head of [s]: the length of the match. *)
Definition tag_here (s : string) : option nat :=
  r ← literal "<" s;
  match span not_gt r with
  | ("", _) => None
  | (_, r) => r ← literal ">" r; Some (String.length s - String.length r)
  end.

(** [r"\s+"] at the head of [s]: the length of the match. *)
Definition spaces_here (s : string) : option nat :=
  match String.length (take_while is_space s) with
  | O => None
  | n => Some n
  end.

(** [s.replace(old, new)] for a non-empty [old]: occurrences are
    replaced from left to right without overlap; [skip] counts the
    characters of the current occurrence still to pass. *)
Fixpoint replace_go (old new : string) (skip : nat) (s : string) : string :=
  match s with
  | "" => ""
  | String c s' =>
      match skip with
      | S k => replace_go old new k s'
      | O =>
          if starts_with old s
          then new +:+ replace_go old new (String.length old - 1) s'
          else String c (replace_go old new 0 s')
      end
  end.

Definition replace (text : string) (entity : string * string) : string :=
  replace_go entity.1 entity.2 0 text.

Definition entities : list (string * string) :=
  [("&nbsp;", " "); ("&amp;", "&"); ("&lt;", "<"); ("&gt;", ">");
   ("&quot;", String "034" ""); ("&#39;", "'")].

(** [html_to_text]. *)
Definition html_to_text (html : string) : string :=
  let html := foldl remove_elements html ["noscript"; "script"; "style"; "svg"] in
  let text := sub tag_here " " html in
  let text := strip (sub spaces_here " " text) in
  foldl replace text entities.

(** The pieces of the patterns of [skip_patterns], each followed by the
    rest [k] of its pattern; a choice is tried in the order of the
    matcher, the next one when the rest fails. *)

(** [\s*], greedy. *)
Fixpoint spaces_then (k : string -> bool) (s : string) : bool :=
  match s with
  | String c s' => if is_space c then spaces_then k s' || k s else k s
  | "" => k s
  end.

(** A literal under [re.IGNORECASE]. *)
Definition lit (p : string) (k : string -> bool) (s : string) : bool :=
  match iliteral p s with
  | Some r => k r
  | None => false
  end.

(** An optional character, greedy. *)
Definition opt_char (p : ascii) (k : string -> bool) (s : string) : bool :=
  match s with
  | String c s' => (ieq p c && k s') || k s
  | "" => k s
  end.

(** [.]: any character but a newline. *)
Definition any_char (k : string -> bool) (s : string) : bool :=
  match s with
  | String c s' => negb (c =? nl)%char && k s'
  | "" => false
  end.

(** [\s]. *)
Definition space (k : string -> bool) (s : string) : bool :=
  match s with
  | String c s' => is_space c && k s'
  | "" => false
  end.

(** [$]: the end of the text, or the newline that ends it. *)
Definition at_end (s : string) : bool :=
  match s with
  | "" => true
  | String c "" => (c =? nl)%char
  | _ => false
  end.

(** The end of a pattern that [re.match] lets stop anywhere. *)
Definition anywhere (s : string) : bool := true.

(** [skip_patterns], each as the test [re.match(p, line, re.IGNORECASE)]. *)
Definition skip_patterns : list (string -> bool) :=
  [ spaces_then (lit "Skip to content" (spaces_then at_end));
    spaces_then (lit "[Skip to content]" anywhere);
    spaces_then (lit "You" (any_char (lit "re almost there" anywhere)));
    spaces_then (opt_char "[" (lit "Sign up or login" (opt_char "]" anywhere)));
    spaces_then (lit "Share" (spaces_then at_end));
    spaces_then (lit "Made with" (space anywhere));
    spaces_then (lit "Try Notion" (spaces_then at_end)) ].

(** [any(re.match(p, line, re.IGNORECASE) for p in skip_patterns)]. *)
Definition is_chrome_line (line : string) : bool :=
  existsb (fun p => p line) skip_patterns.

(** The normalizer with its own text functions, around the libraries
    it imports. *)
Definition libs (bs4 : option (string -> list node))
    (soup_to_html : list node -> string)
    (markdownify : option (string -> string)) : Libs :=
  Build_Libs bs4 soup_to_html markdownify
    strip_non_content html_to_text is_chrome_line.

(** A whitespace character of the output of [html_to_text] is a plain
    space. *)
Definition plain_space (c : ascii) : bool := negb (is_space c) || (c =? " ")%char.

(** [w] holds whitespace only. *)
Definition blank (w : string) : bool := all_chars is_space w.

(** [line] with whitespace around it. *)
Definition padded (line core : string) : Prop :=
  exists w w', blank w = true /\ blank w' = true /\ line = w +:+ core +:+ w'.

(** A rest of a pattern that still matches when whitespace is added at
    the end of the text. *)
Definition pad_closed (k : string -> bool) : Prop :=
  forall r w, blank w = true -> k r = true -> k (r +:+ w) = true.

End Text.

(** An element as it is written in a page: [<tag attrs>body</tag>]. *)
Definition element (tag attrs body : string) : string :=
  "<" +:+ tag +:+ attrs +:+ ">" +:+ body +:+ "</" +:+ tag +:+ ">".

(** The tags whose elements [html_to_markdown] removes, and the ones
    [html_to_text] removes. *)
Definition non_content_tags : list string :=
  ["noscript"; "script"; "style"; "svg"; "nav"; "footer"; "header"].

Definition non_text_tags : list string :=
  ["noscript"; "script"; "style"; "svg"].

(** ** calculate-flux-dimensions.py *)

Module Flux.

Local Open Scope Z_scope.

(** [round_to_multiple]: [n // multiple] is the floor of the quotient,
    and raises [ZeroDivisionError] when [multiple] is 0. *)
Definition round_to_multiple (n multiple : Z) : Py.result Z :=
  if multiple =? 0
  then Py.Raise (Py.Exception "ZeroDivisionError: integer division or modulo by zero")
  else Py.Return ((n / multiple) * multiple).

(** The floating-point side of the script, left open: [megapixels p] is
    [p / 1_000_000] for a product [p] of two dimensions, [gt] is [>]
    and [scale_down max_mp mp n] is [int(n * scale)] for
    [scale = (max_mp / mp) ** 0.5].  The conversions may raise. *)
Record Floats : Type := {
  number : Type;
  megapixels : Z -> Py.result number;
  gt : number -> number -> bool;
  scale_down : number -> number -> Z -> Py.result Z;
}.

(** [calculate_flux_2_pro_dimensions]. *)
Definition calculate_flux_2_pro_dimensions (fl : Floats) (width height : Z)
    (max_mp : number fl) : Py.result (Z * Z * number fl) :=
  actual_width ← round_to_multiple width 16;
  actual_height ← round_to_multiple height 16;
  let actual_width := Z.max actual_width 64 in
  let actual_height := Z.max actual_height 64 in
  mp ← megapixels fl (actual_width * actual_height);
  if gt fl mp max_mp then
    scaled_width ← scale_down fl max_mp mp actual_width;
    actual_width ← round_to_multiple scaled_width 16;
    scaled_height ← scale_down fl max_mp mp actual_height;
    actual_height ← round_to_multiple scaled_height 16;
    mp ← megapixels fl (actual_width * actual_height);
    mret (actual_width, actual_height, mp)
  else mret (actual_width, actual_height, mp).

(** Numbers of micro-megapixels in place of floats: exact where the
    script rounds, enough to run the function. *)
Definition exact : Floats :=
  {| number := Z;
     megapixels := fun p => Py.Return p;
     gt := Z.gtb;
     scale_down := fun max_mp mp n => Py.Return (Z.sqrt (n * n * max_mp / mp)) |}.

End Flux.

(** ** A Notion page whose URL holds no page id *)

(** A post that links a Notion page by a URL without the 32-character
    id, as a custom public address has it. *)
Definition my_page_post : Discover.Post.t :=
  {| Discover.Post.content := Some "Prompt kit: https://notion.so/my-page";
     Discover.Post.asset_id := "a1";
     Discover.Post.project_id := "p1";
     Discover.Post.name := "Post one" |}.

Definition my_page_url : string := "https://notion.so/my-page".

(** * Properties *)

(** ** Strings *)

Section StringFacts.

Lemma str_app_cons (a : ascii) (s t : string) :
  String a s +:+ t = String a (s +:+ t).
Proof. reflexivity. Qed.

Lemma str_app_nil_l (s : string) : "" +:+ s = s.
Proof. reflexivity. Qed.

Lemma str_app_nil_r (s : string) : s +:+ "" = s.
Proof. induction s as [|a s IH]; [reflexivity|]. now rewrite str_app_cons, IH. Qed.

Lemma str_app_assoc (s t u : string) : (s +:+ t) +:+ u = s +:+ (t +:+ u).
Proof.
  induction s as [|a s IH]; [reflexivity|]. now rewrite !str_app_cons, IH.
Qed.

Lemma starts_with_spec (p s : string) :
  starts_with p s = true <-> exists r, s = p +:+ r.
Proof.
  revert s. induction p as [|a p IH]; intros s; simpl.
  - split; [intros _; now exists s | reflexivity].
  - destruct s as [|b s].
    + split; [discriminate | intros [r Hr]; discriminate].
    + rewrite andb_true_iff, Ascii.eqb_eq, IH. split.
      * intros [-> [r ->]]. now exists r.
      * intros [r Hr]. rewrite str_app_cons in Hr. injection Hr as -> ->. eauto.
Qed.

Lemma contains_spec (p s : string) :
  contains p s = true <-> exists l r, s = l +:+ p +:+ r.
Proof.
  induction s as [|b s IH].
  - simpl. rewrite orb_false_r, starts_with_spec. split.
    + intros [r Hr]. now exists "", r.
    + intros [[|c l] [r Hr]]; [now exists r | discriminate].
  - cbn [contains]. rewrite orb_true_iff, starts_with_spec, IH. split.
    + intros [[r Hr]|[l [r Hr]]].
      * now exists "", r.
      * exists (String b l), r. now rewrite str_app_cons, Hr.
    + intros [[|c l] [r Hr]].
      * left. now exists r.
      * right. rewrite str_app_cons in Hr. injection Hr as -> ->. eauto.
Qed.

Lemma contains_app_l (p u s : string) :
  contains p u = true -> contains p (u +:+ s) = true.
Proof.
  rewrite !contains_spec. intros (l & r & ->). exists l, (r +:+ s).
  now rewrite !str_app_assoc.
Qed.

Lemma contains_longer (a b s : string) :
  contains (a +:+ b) s = true -> contains b s = true.
Proof.
  rewrite !contains_spec. intros (l & r & ->). exists (l +:+ a), r.
  now rewrite !str_app_assoc.
Qed.

End StringFacts.

(** ** The URL normalizer *)

Example normalize_notion :
  normalize_url "https://notion.so/My-Page-0123456789abcdef0123456789abcdef?pvs=4"
  = ("notion", "0123456789abcdef0123456789abcdef").
Proof. vm_compute. reflexivity. Qed.

Example normalize_gdoc :
  normalize_url "https://docs.google.com/document/d/1AbC_d-9/edit?usp=sharing"
  = ("gdoc", "1AbC_d-9").
Proof. vm_compute. reflexivity. Qed.

Example normalize_gsheet :
  normalize_url "https://docs.google.com/spreadsheets/d/1AbC/edit#gid=0"
  = ("gsheet", "1AbC").
Proof. vm_compute. reflexivity. Qed.

Example normalize_gdrive_folder :
  normalize_url "https://drive.google.com/drive/folders/1xYz?usp=sharing"
  = ("gdrive", "1xYz").
Proof. vm_compute. reflexivity. Qed.

Example normalize_gdrive_file :
  normalize_url "https://drive.google.com/file/d/1xYz/view" = ("gdoc", "1xYz").
Proof. vm_compute. reflexivity. Qed.

Example normalize_other :
  normalize_url "https://example.com/page?x=1"
  = ("other", "https://example.com/page?x=1").
Proof. vm_compute. reflexivity. Qed.

Example get_domain_notion :
  get_domain "https://www.notion.so/My-Page-0123456789abcdef0123456789abcdef?pvs=4"
  = Some "notion.so".
Proof. vm_compute. reflexivity. Qed.

Example get_domain_port :
  get_domain "http://user@Docs.Google.com:8080/document/d/x"
  = Some "docs.google.com".
Proof. vm_compute. reflexivity. Qed.

Example get_domain_no_host : get_domain "mailto:someone" = Some "".
Proof. vm_compute. reflexivity. Qed.

Lemma no_google_no_drive (url : string) :
  contains "google.com" url = false -> contains "drive.google.com" url = false.
Proof.
  intros H. destruct (contains "drive.google.com" url) eqn:E; [|reflexivity].
  apply (contains_longer "drive." "google.com") in E. congruence.
Qed.

(** C3 (as amended).  [normalize_url] is a total function whose result
    always carries one of the five source-type tags, and on every URL
    that contains neither ["notion"] nor ["google.com"] anywhere (in the
    host or elsewhere) it returns [("other", url)] with the URL itself
    as the identifier. *)
Theorem normalize_url_total_fallback (url : string) :
  (exists tag id, normalize_url url = (tag, id) /\ In tag source_types)
  /\ (contains "notion" url = false -> contains "google.com" url = false ->
      normalize_url url = ("other", url)).
Proof.
  split.
  - unfold normalize_url, source_types.
    destruct (search hex32_here url), (contains "notion" url),
      (search slash_d_here url), (contains "google.com" url),
      (contains "spreadsheets" url), (contains "drive.google.com" url),
      (search folders_or_d_here url);
      do 2 eexists; (split; [reflexivity | simpl; tauto]).
  - intros Hn Hg. unfold normalize_url.
    rewrite Hn, Hg, (no_google_no_drive url Hg).
    now destruct (search hex32_here url), (search slash_d_here url).
Qed.

Lemma normalize_url_total_fallback_witness :
  normalize_url "https://example.com/page?x=1"
  = ("other", "https://example.com/page?x=1").
Proof.
  apply (proj2 (normalize_url_total_fallback "https://example.com/page?x=1"));
    reflexivity.
Defined.

(** C3 as stated fails: the host of this URL is [example.com], which
    contains no platform marker, yet the key is not the fallback key,
    because the marker and the id pattern are found in the path. *)
Lemma fallback_by_host_counterexample :
  hostname "https://example.com/notion-0123456789abcdef0123456789abcdef"
  = Some "example.com"
  /\ contains "notion" "example.com" = false
  /\ contains "google.com" "example.com" = false
  /\ normalize_url "https://example.com/notion-0123456789abcdef0123456789abcdef"
     = ("notion", "0123456789abcdef0123456789abcdef")
  /\ normalize_url "https://example.com/notion-0123456789abcdef0123456789abcdef"
     <> ("other", "https://example.com/notion-0123456789abcdef0123456789abcdef").
Proof. repeat split; try (vm_compute; reflexivity). vm_compute. discriminate. Qed.

(** C4 (as amended).  [normalize_url] follows the extraction order of the
    specification with every marker looked up in the whole URL: the
    32-hex pattern counts only when ["notion"] occurs in the URL, the
    [/d/] pattern only when ["google.com"] occurs in it (sheet when
    ["spreadsheets"] occurs in it, doc otherwise), then the Drive
    pattern when ["drive.google.com"] occurs in it, and otherwise the
    fallback [("other", url)]. *)
Theorem normalize_url_extraction_order (url : string) (k : NormalizedKey) :
  NormalizeSpec.extraction url k <-> normalize_url url = k.
Proof.
  unfold normalize_url. split.
  - intros H. destruct H as [id [Hm Hs] | id Ha [Hm Hs] | id Ha Hb [Hm Hs]
                             | Ha Hb Hc].
    + now rewrite Hs, Hm.
    + rewrite Hs, Hm.
      destruct (search hex32_here url) as [i|] eqn:E1,
               (contains "notion" url) eqn:E2; try reflexivity.
      exfalso. apply (Ha i). now split.
    + rewrite Hs, Hm.
      destruct (search hex32_here url) as [i|] eqn:E1,
               (contains "notion" url) eqn:E2;
        try (exfalso; apply (Ha i); now split);
        destruct (search slash_d_here url) as [j|] eqn:E3,
                 (contains "google.com" url) eqn:E4;
        try reflexivity; exfalso; apply (Hb j); now split.
    + destruct (search hex32_here url) as [i|] eqn:E1,
               (contains "notion" url) eqn:E2;
        try (exfalso; apply (Ha i); now split);
        destruct (search slash_d_here url) as [j|] eqn:E3,
                 (contains "google.com" url) eqn:E4;
        try (exfalso; apply (Hb j); now split);
        destruct (contains "drive.google.com" url) eqn:E5,
                 (search folders_or_d_here url) as [l|] eqn:E6;
        try reflexivity; exfalso; apply (Hc l); now split.
  - intros <-.
    destruct (search hex32_here url) as [i|] eqn:E1,
             (contains "notion" url) eqn:E2;
      try (apply NormalizeSpec.extract_a; now split);
      (destruct (search slash_d_here url) as [j|] eqn:E3,
               (contains "google.com" url) eqn:E4;
       [ apply (NormalizeSpec.extract_b url j);
         [ intros i' [? ?]; congruence | now split ] | ..]);
      (destruct (contains "drive.google.com" url) eqn:E5,
               (search folders_or_d_here url) as [l|] eqn:E6;
       [ apply NormalizeSpec.extract_c;
         [ intros i' [? ?]; congruence | intros i' [? ?]; congruence
         | now split ] | ..]);
      apply NormalizeSpec.extract_other; intros i' [? ?]; congruence.
Qed.

(** C4 as stated fails: the host of this URL is [example.com], which
    does not contain the platform-B marker, yet the [/d/] pattern is
    applied, because the marker is found in the query string. *)
Lemma pattern_b_without_host_marker_counterexample :
  hostname "https://example.com/d/abc?next=google.com" = Some "example.com"
  /\ contains "google.com" "example.com" = false
  /\ normalize_url "https://example.com/d/abc?next=google.com" = ("gdoc", "abc").
Proof. repeat split; vm_compute; reflexivity. Qed.

(** ** Appending a query string, a fragment or punctuation *)

Section Suffix.

Lemma separator_facts (c : ascii) :
  separator c = true ->
  is_word c = false /\ is_hex c = false /\ is_id_char c = false
  /\ (c =? "/")%char = false.
Proof.
  destruct c as [[] [] [] [] [] [] [] []]; vm_compute; intros H;
    try discriminate H; repeat split; reflexivity.
Qed.

Lemma literal_char_not_separator (a c : ascii) :
  literal_char a = true -> separator c = true -> (a =? c)%char = false.
Proof.
  intros Ha Hc. destruct (Ascii.eqb_spec a c) as [->|]; [|reflexivity].
  apply separator_facts in Hc as (Hw & _ & _ & Hs).
  unfold literal_char in Ha. rewrite Hw, Hs in Ha. discriminate.
Qed.

Variable s : string.
Hypothesis Hsep : sep_start s = true.

Lemma hex_run_suffix (n : nat) (u : string) :
  hex_run n (u +:+ s)
  = match hex_run n u with
    | Some (m, r) => Some (m, r +:+ s)
    | None => None
    end.
Proof.
  revert u. induction n as [|n IH]; intros u; [reflexivity|].
  destruct u as [|c u].
  - rewrite str_app_nil_l. simpl. destruct s as [|c s']; [reflexivity|].
    simpl in Hsep. apply separator_facts in Hsep as (_ & -> & _).
    reflexivity.
  - rewrite str_app_cons. simpl. destruct (is_hex c); [|reflexivity].
    rewrite IH. now destruct (hex_run n u) as [[m r]|].
Qed.

Lemma boundary_suffix (r : string) :
  boundary_after_word r = true -> boundary_after_word (r +:+ s) = true.
Proof.
  destruct r as [|c r]; [|now rewrite str_app_cons].
  intros _. rewrite str_app_nil_l. destruct s as [|c s']; [reflexivity|].
  simpl in *. now apply separator_facts in Hsep as (-> & _).
Qed.

Lemma boundary_suffix_false (r : string) :
  boundary_after_word r = false -> boundary_after_word (r +:+ s) = false.
Proof. destruct r as [|c r]; [discriminate|now rewrite str_app_cons]. Qed.

Lemma hex32_here_suffix (u : string) :
  hex32_here (u +:+ s) = hex32_here u.
Proof.
  unfold hex32_here. rewrite hex_run_suffix.
  destruct (hex_run 32 u) as [[m r]|]; [|reflexivity].
  destruct (boundary_after_word r) eqn:E.
  - now rewrite boundary_suffix.
  - now rewrite boundary_suffix_false.
Qed.

Lemma literal_suffix (p u : string) :
  Url.all_chars literal_char p = true ->
  literal p (u +:+ s)
  = match literal p u with
    | Some r => Some (r +:+ s)
    | None => None
    end.
Proof.
  revert u. induction p as [|a p IH]; intros u Hp; [reflexivity|].
  simpl in Hp. apply andb_true_iff in Hp as [Ha Hp].
  destruct u as [|c u].
  - rewrite str_app_nil_l. simpl. destruct s as [|c s']; [reflexivity|].
    simpl in Hsep. now rewrite (literal_char_not_separator a c).
  - rewrite str_app_cons. simpl. destruct (a =? c)%char; [now apply IH|reflexivity].
Qed.

Lemma span_id_suffix (u : string) :
  span is_id_char (u +:+ s)
  = (fst (span is_id_char u), snd (span is_id_char u) +:+ s).
Proof.
  induction u as [|c u IH].
  - rewrite str_app_nil_l. simpl. destruct s as [|c s']; [reflexivity|].
    simpl in *. now apply separator_facts in Hsep as (_ & _ & -> & _).
  - rewrite str_app_cons. simpl. destruct (is_id_char c); [|reflexivity].
    rewrite IH. now destruct (span is_id_char u).
Qed.

Lemma id_here_suffix (u : string) : id_here (u +:+ s) = id_here u.
Proof. unfold id_here, take_while. now rewrite span_id_suffix. Qed.

Lemma slash_d_here_suffix (u : string) :
  slash_d_here (u +:+ s) = slash_d_here u.
Proof.
  unfold slash_d_here. rewrite literal_suffix by reflexivity.
  destruct (literal "/d/" u); [apply id_here_suffix|reflexivity].
Qed.

Lemma folders_or_d_here_suffix (u : string) :
  folders_or_d_here (u +:+ s) = folders_or_d_here u.
Proof.
  unfold folders_or_d_here. rewrite literal_suffix by reflexivity.
  destruct (literal "/" u) as [r|]; [|reflexivity].
  rewrite !literal_suffix by reflexivity.
  destruct (literal "folders" r) as [r1|], (literal "d" r) as [r1'|];
    rewrite ?literal_suffix by reflexivity;
    repeat match goal with
           | |- context [literal "/" ?x] => destruct (literal "/" x)
           end;
    rewrite ?id_here_suffix; reflexivity.
Qed.

(** A search over [u +:+ s] finds what the search over [u] finds, and
    goes on in [s] only when [u] has no match. *)
Lemma search_suffix {A : Type} (here : string -> option A) (u : string) :
  (forall v, here (v +:+ s) = here v) ->
  search here (u +:+ s)
  = match search here u with
    | Some m => Some m
    | None => search here s
    end.
Proof.
  intros Hloc. induction u as [|c u IH].
  - rewrite str_app_nil_l. simpl. rewrite <- (Hloc ""), str_app_nil_l.
    destruct s as [|c s']; simpl; now destruct (here _).
  - rewrite str_app_cons. cbn [search]. rewrite <- str_app_cons, Hloc.
    destruct (here (String c u)); [reflexivity|apply IH].
Qed.

Lemma search_suffix_stable {A : Type} (here : string -> option A) (u : string) :
  (forall v, here (v +:+ s) = here v) ->
  search here u <> None \/ search here s = None ->
  search here (u +:+ s) = search here u.
Proof.
  intros Hloc H. rewrite search_suffix by assumption.
  destruct (search here u); [reflexivity|]. destruct H; congruence.
Qed.

End Suffix.

Lemma normalize_url_notion_inv (u id : string) :
  normalize_url u = ("notion", id) ->
  search hex32_here u = Some id /\ contains "notion" u = true.
Proof.
  unfold normalize_url.
  destruct (search hex32_here u) as [i|], (contains "notion" u);
    try (intros [= ->]; now split);
    destruct (search slash_d_here u), (contains "google.com" u),
      (contains "spreadsheets" u), (contains "drive.google.com" u),
      (search folders_or_d_here u); discriminate.
Qed.

(** C1 (as amended).  Let [s] be a suffix that is empty or starts with a
    character that is neither a word character nor [-] nor [/] (a query
    string, an anchor fragment, trailing punctuation).
    - If [normalize_url] extracts a Notion id from [u], it extracts the
      same key from [u +:+ s], whatever [s] contains.
    - If [normalize_url] extracts any platform id from [u] (the key is
      not the fallback), the same markers occur in [u +:+ s] as in [u],
      and [s] holds no id pattern that [u] lacks, then [u +:+ s] and [u]
      have the same key. *)
Theorem normalize_url_suffix_stable (u s : string) :
  sep_start s = true ->
  (forall id, normalize_url u = ("notion", id) ->
              normalize_url (u +:+ s) = ("notion", id))
  /\ (fst (normalize_url u) <> "other" ->
      marker_profile (u +:+ s) = marker_profile u ->
      (search hex32_here u <> None \/ search hex32_here s = None) ->
      (search slash_d_here u <> None \/ search slash_d_here s = None) ->
      (search folders_or_d_here u <> None
       \/ search folders_or_d_here s = None) ->
      normalize_url (u +:+ s) = normalize_url u).
Proof.
  intros Hsep. split.
  - intros id H. apply normalize_url_notion_inv in H as [Hs Hc].
    unfold normalize_url.
    rewrite (search_suffix_stable s Hsep hex32_here u
               (hex32_here_suffix s Hsep)) by (left; congruence).
    now rewrite Hs, (contains_app_l _ _ _ Hc).
  - intros Hother Hm H1 H2 H3. unfold marker_profile, markers in Hm.
    simpl in Hm. injection Hm as Hn Hg Hsp Hd.
    unfold normalize_url in *. rewrite Hn, Hg, Hsp, Hd.
    rewrite (search_suffix_stable s Hsep hex32_here u
               (hex32_here_suffix s Hsep) H1).
    rewrite (search_suffix_stable s Hsep slash_d_here u
               (slash_d_here_suffix s Hsep) H2).
    rewrite (search_suffix_stable s Hsep folders_or_d_here u
               (folders_or_d_here_suffix s Hsep) H3).
    destruct (search hex32_here u), (contains "notion" u),
      (search slash_d_here u), (contains "google.com" u),
      (contains "drive.google.com" u), (search folders_or_d_here u);
      try reflexivity; now contradiction Hother.
Qed.

Lemma normalize_url_suffix_stable_witness :
  normalize_url ("https://notion.so/My-Page-0123456789abcdef0123456789abcdef"
                 +:+ "?pvs=4")
  = ("notion", "0123456789abcdef0123456789abcdef")
  /\ normalize_url ("https://docs.google.com/document/d/1AbC/edit"
                    +:+ "?usp=sharing")
     = normalize_url "https://docs.google.com/document/d/1AbC/edit".
Proof.
  split.
  - apply (proj1 (normalize_url_suffix_stable
             "https://notion.so/My-Page-0123456789abcdef0123456789abcdef"
             "?pvs=4" eq_refl)).
    vm_compute. reflexivity.
  - apply (proj2 (normalize_url_suffix_stable
             "https://docs.google.com/document/d/1AbC/edit"
             "?usp=sharing" eq_refl)).
    + vm_compute. discriminate.
    + vm_compute. reflexivity.
    + right. vm_compute. reflexivity.
    + left. vm_compute. discriminate.
    + left. vm_compute. discriminate.
Defined.

(** C1 as stated fails: these two URLs reference the same Google
    document and differ only by the query string, yet the marker
    ["spreadsheets"] in the query string changes the key. *)
Lemma query_string_changes_key_counterexample :
  normalize_url "https://docs.google.com/document/d/1AbC/edit"
  = ("gdoc", "1AbC")
  /\ normalize_url "https://docs.google.com/document/d/1AbC/edit?usp=spreadsheets"
     = ("gsheet", "1AbC")
  /\ normalize_url "https://docs.google.com/document/d/1AbC/edit"
     <> normalize_url "https://docs.google.com/document/d/1AbC/edit?usp=spreadsheets".
Proof. repeat split; try (vm_compute; reflexivity). vm_compute. discriminate. Qed.

(** ** The uncovered set *)

Lemma uncovered_lookup db_urls scraped_keys domain (k : NormalizedKey) (v : UrlInfo) :
  uncovered db_urls scraped_keys domain !! k = Some v
  <-> db_urls !! k = Some v /\ scraped_keys !! k = None
      /\ k.1 <> "gdrive" /\ domain_allows domain k.
Proof.
  unfold uncovered, domain_allows.
  destruct (domain_filter domain) as [d|];
    rewrite ?map_lookup_filter_Some; simpl; tauto.
Qed.

Lemma uncovered_dom_iff db_urls scraped_keys domain (k : NormalizedKey) :
  k ∈ dom (uncovered db_urls scraped_keys domain)
  <-> k ∈ dom db_urls ∖ dom scraped_keys
      /\ k.1 <> "gdrive" /\ domain_allows domain k.
Proof.
  rewrite elem_of_difference, !elem_of_dom, <- eq_None_not_Some.
  unfold is_Some. setoid_rewrite uncovered_lookup. split.
  - intros [v (Hv & Hs & Hg & Hd)]. eauto 6.
  - intros ([[v Hv] Hs] & Hg & Hd). eauto 6.
Qed.

(** C2 (as amended).  For all dictionaries [db_urls] and [scraped_keys]
    and every [--domain] option, the keys of the uncovered dictionary
    are exactly the keys of [db_urls] that are not keys of
    [scraped_keys], without the ["gdrive"] keys and, when a non-empty
    [--domain] is given, without the keys of any other source type;
    without the option they are exactly (referenced - covered) without
    the ["gdrive"] keys.  Each uncovered key keeps its [db_urls] value,
    and no key of [scraped_keys] is uncovered, whether or not it is
    referenced. *)
Theorem uncovered_exact db_urls scraped_keys domain :
  dom (uncovered db_urls scraped_keys domain)
  = filter (fun k => k.1 <> "gdrive" /\ domain_allows domain k)
           (dom db_urls ∖ dom scraped_keys)
  /\ dom (uncovered db_urls scraped_keys None)
     = filter (fun k => k.1 <> "gdrive") (dom db_urls ∖ dom scraped_keys)
  /\ uncovered db_urls scraped_keys domain ⊆ db_urls
  /\ dom (uncovered db_urls scraped_keys domain) ## dom scraped_keys.
Proof.
  split; [|split; [|split]].
  - apply set_eq. intros k. rewrite elem_of_filter, uncovered_dom_iff. tauto.
  - apply set_eq. intros k. rewrite elem_of_filter, uncovered_dom_iff.
    unfold domain_allows. simpl. tauto.
  - apply map_subseteq_spec. intros k v H.
    now apply uncovered_lookup in H as [H _].
  - apply elem_of_disjoint. intros k H1 H2.
    apply uncovered_dom_iff in H1 as [H1 _].
    apply elem_of_difference in H1 as [_ H1]. now apply H1.
Qed.

(** C2 as stated fails when the [--domain] option is given: the Google
    document of [sample_db_urls] is referenced, not covered and not a
    ["gdrive"] key, yet it is not in the uncovered set of a run with
    [--domain notion]. *)
Lemma uncovered_domain_filter_counterexample :
  ("gdoc", "1AbC") ∈ dom Samples.sample_db_urls
                     ∖ dom (∅ : gmap NormalizedKey ScrapedInfo)
  /\ ("gdoc", "1AbC").1 <> "gdrive"
  /\ ("gdoc", "1AbC") ∉ dom (uncovered Samples.sample_db_urls ∅ (Some "notion")).
Proof.
  split; [|split].
  - rewrite elem_of_difference, elem_of_dom. split.
    + unfold Samples.sample_db_urls. simpl. rewrite lookup_insert_eq. eauto.
    + rewrite dom_empty. apply not_elem_of_empty.
  - discriminate.
  - rewrite uncovered_dom_iff. unfold domain_allows. simpl.
    intros (_ & _ & H). discriminate H.
Qed.

(** ** Decoding the body of a response *)

Module Utf8Facts.

Import Utf8.
Local Open Scope Z_scope.

Ltac decide_tests :=
  repeat match goal with
    | |- context [?a <? ?b] =>
        destruct (Z.ltb_spec a b);
        try (exfalso; Z.div_mod_to_equations; lia)
    | |- context [?a <=? ?b] =>
        destruct (Z.leb_spec a b);
        try (exfalso; Z.div_mod_to_equations; lia)
    | |- context [?a =? ?b] =>
        destruct (Z.eqb_spec a b);
        try (exfalso; Z.div_mod_to_equations; lia)
    | _ => progress cbn [negb andb orb]
    end.

(** Decoding the encoding of a code point gives the code point back. *)
Lemma decode_encode_cp (cp : Z) (rest : list Z) :
  scalar cp -> decode (encode_cp cp ++ rest) = cp :: decode rest.
Proof.
  intros Hcp. unfold scalar in Hcp. unfold encode_cp.
  destruct (Z.ltb_spec cp 128); [|destruct (Z.ltb_spec cp 2048);
    [|destruct (Z.ltb_spec cp 65536)]];
    cbn [app decode]; unfold is_cont; decide_tests;
    f_equal; Z.div_mod_to_equations; lia.
Qed.

Lemma decode_encode (cps : list Z) :
  Forall scalar cps -> decode (encode cps) = cps.
Proof.
  induction 1 as [|cp cps Hcp _ IH]; [reflexivity|].
  unfold encode in *. cbn [flat_map]. now rewrite decode_encode_cp, IH.
Qed.

End Utf8Facts.

Module Utf8Total.

Import Utf8.
Local Open Scope Z_scope.

Lemma scalar_replacement : scalar replacement.
Proof. unfold scalar, replacement. lia. Qed.

Ltac split_tests :=
  repeat match goal with
    | |- context [?a <? ?b] => destruct (Z.ltb_spec a b)
    | |- context [?a <=? ?b] => destruct (Z.leb_spec a b)
    | |- context [?a =? ?b] => destruct (Z.eqb_spec a b)
    | _ => progress cbn [negb andb orb]
    end.

Ltac close_scalar :=
  repeat first
    [ assumption
    | apply Forall_nil
    | apply Forall_cons_2; [first [apply scalar_replacement | unfold scalar; lia]|] ].

(** Whatever the bytes are, the decoder produces text: every code point
    it returns is a scalar value. *)
Lemma decode_scalar_bounded (n : nat) (bs : list Z) :
  (length bs <= n)%nat -> Forall byte bs -> Forall scalar (decode bs).
Proof.
  revert bs. induction n as [|n IH]; intros bs Hlen Hb.
  - destruct bs; [constructor|simpl in Hlen; lia].
  - destruct bs as [|b0 r0]; [constructor|].
    apply Forall_cons in Hb as [Hbyte0 Hr0]. simpl in Hlen.
    assert (IH0 : Forall scalar (decode r0)) by (apply IH; [lia|assumption]).
    cbn [decode]. unfold byte in Hbyte0.
    destruct (Z.ltb_spec b0 128); [close_scalar|].
    destruct (Z.ltb_spec b0 194); [close_scalar|].
    destruct r0 as [|b1 r1]; [split_tests; close_scalar|].
    apply Forall_cons in Hr0 as [Hbyte1 Hr1]. simpl in Hlen.
    assert (IH1 : Forall scalar (decode r1)) by (apply IH; [lia|assumption]).
    unfold byte in Hbyte1. unfold is_cont.
    destruct (Z.ltb_spec b0 224); [split_tests; close_scalar|].
    destruct r1 as [|b2 r2]; [split_tests; close_scalar|].
    apply Forall_cons in Hr1 as [Hbyte2 Hr2]. simpl in Hlen.
    assert (IH2 : Forall scalar (decode r2)) by (apply IH; [lia|assumption]).
    unfold byte in Hbyte2.
    destruct (Z.ltb_spec b0 240); [split_tests; close_scalar|].
    destruct r2 as [|b3 r3]; [split_tests; close_scalar|].
    apply Forall_cons in Hr2 as [Hbyte3 Hr3]. simpl in Hlen.
    assert (IH3 : Forall scalar (decode r3)) by (apply IH; [lia|assumption]).
    unfold byte in Hbyte3.
    split_tests; close_scalar.
Qed.

Lemma decode_scalar (bs : list Z) :
  Forall byte bs -> Forall scalar (decode bs).
Proof. apply (decode_scalar_bounded (length bs)). lia. Qed.

End Utf8Total.

Module Utf8Exact.

Import Utf8.
Local Open Scope Z_scope.

Lemma encode_cons (cp : Z) (cps : list Z) :
  encode (cp :: cps) = encode_cp cp ++ encode cps.
Proof. reflexivity. Qed.

(** A valid part is decoded as it is, whatever follows it. *)
Lemma decode_encode_app (cps rest : list Z) :
  Forall scalar cps -> decode (encode cps ++ rest) = cps ++ decode rest.
Proof.
  induction 1 as [|cp cps Hcp _ IH]; [reflexivity|].
  rewrite encode_cons, <- app_assoc, Utf8Facts.decode_encode_cp by assumption.
  now rewrite IH.
Qed.

(** A byte that cannot start a sequence is replaced alone. *)
Lemma decode_invalid_start (b : Z) (rest : list Z) :
  128 <= b < 194 \/ 245 <= b ->
  decode (b :: rest) = replacement :: decode rest.
Proof.
  intros Hb. cbn [decode].
  destruct (Z.ltb_spec b 128); [lia|].
  destruct (Z.ltb_spec b 194); [reflexivity|].
  destruct (Z.ltb_spec b 224); [lia|].
  destruct (Z.ltb_spec b 240); [lia|].
  destruct (Z.ltb_spec b 245); [lia|reflexivity].
Qed.

Ltac tests :=
  repeat match goal with
    | |- context [?a <? ?b] => destruct (Z.ltb_spec a b)
    | |- context [?a <=? ?b] => destruct (Z.leb_spec a b)
    | |- context [?a =? ?b] => destruct (Z.eqb_spec a b)
    | _ => progress cbn [negb andb orb]
    end.

Ltac replaced :=
  let H := fresh in intros H; exfalso; apply H; left; reflexivity.

Ltac exact_cp IH :=
  let H := fresh in
  let Hin := fresh in
  intros H; rewrite encode_cons, IH;
  [ unfold encode_cp; tests; try (exfalso; Z.div_mod_to_equations; lia);
    cbn [app]; repeat f_equal; Z.div_mod_to_equations; lia
  | intros Hin; apply H; right; exact Hin ].

(** A body in whose decoding no U+FFFD occurs is the encoding of that
    decoding: whatever is not valid UTF-8 shows as U+FFFD. *)
Lemma decode_exact_bounded (n : nat) (bs : list Z) :
  (length bs <= n)%nat -> Forall byte bs ->
  ~ In replacement (decode bs) -> encode (decode bs) = bs.
Proof.
  revert bs. induction n as [|n IH]; intros bs Hlen Hb.
  - destruct bs; [reflexivity|simpl in Hlen; lia].
  - destruct bs as [|b0 r0]; [reflexivity|].
    apply Forall_cons in Hb as [Hbyte0 Hr0]. simpl in Hlen.
    assert (IH0 : ~ In replacement (decode r0) -> encode (decode r0) = r0)
      by (apply IH; [lia|assumption]).
    cbn [decode]. unfold byte in Hbyte0.
    destruct (Z.ltb_spec b0 128); [exact_cp IH0|].
    destruct (Z.ltb_spec b0 194); [replaced|].
    destruct r0 as [|b1 r1]; [tests; replaced|].
    apply Forall_cons in Hr0 as [Hbyte1 Hr1]. simpl in Hlen.
    assert (IH1 : ~ In replacement (decode r1) -> encode (decode r1) = r1)
      by (apply IH; [lia|assumption]).
    unfold byte in Hbyte1. unfold is_cont.
    destruct (Z.ltb_spec b0 224); [tests; first [replaced|exact_cp IH1]|].
    destruct r1 as [|b2 r2]; [tests; replaced|].
    apply Forall_cons in Hr1 as [Hbyte2 Hr2]. simpl in Hlen.
    assert (IH2 : ~ In replacement (decode r2) -> encode (decode r2) = r2)
      by (apply IH; [lia|assumption]).
    unfold byte in Hbyte2.
    destruct (Z.ltb_spec b0 240); [tests; first [replaced|exact_cp IH2]|].
    destruct r2 as [|b3 r3]; [tests; replaced|].
    apply Forall_cons in Hr2 as [Hbyte3 Hr3]. simpl in Hlen.
    assert (IH3 : ~ In replacement (decode r3) -> encode (decode r3) = r3)
      by (apply IH; [lia|assumption]).
    unfold byte in Hbyte3.
    tests; first [replaced|exact_cp IH3].
Qed.

Lemma decode_exact (bs : list Z) :
  Forall byte bs -> ~ In replacement (decode bs) -> encode (decode bs) = bs.
Proof. apply (decode_exact_bounded (length bs)). lia. Qed.

End Utf8Exact.

(** ** The direct export retrieval *)

Import Py.

(** C6.  When [fetch_gdoc] has extracted the document id and issues the
    request: a response with a 2xx status returns the decoded body and
    no error; status 403 returns the error ["Access denied (requires
    login)"]; any other status returns ["HTTP <status>: <reason>"]; a
    failure below HTTP returns ["Error: <message>"].  The decoder never
    fails: for every body it returns text, made of scalar values only.
    It is lossless where the body is valid: the encoding of a text is
    decoded to that text, also when other bytes follow it.  It replaces
    what is not valid: a byte that cannot start a sequence becomes
    U+FFFD wherever it stands, and every body that is not the encoding
    of the text returned for it has U+FFFD in that text. *)
Theorem fetch_gdoc_outcomes (env : Env) (url doc_id : string) (w : World) :
  search slash_d_here url = Some doc_id ->
  match http_get env (clock w) (Sync.export_url url doc_id) with
  | HttpResponse status reason body =>
      if ((200 <=? status) && (status <? 300))%Z
      then (Sync.fetch_gdoc env url w).1
           = Return (Some (Utf8.decode body), None)
      else if (status =? 403)%Z
      then (Sync.fetch_gdoc env url w).1
           = Return (None, Some "Access denied (requires login)")
      else (Sync.fetch_gdoc env url w).1
           = Return (None, Some ("HTTP " +:+ pretty status +:+ ": " +:+ reason))
  | NetworkFailure msg =>
      (Sync.fetch_gdoc env url w).1 = Return (None, Some ("Error: " +:+ msg))
  end
  /\ (forall cps, Forall Utf8.scalar cps -> Utf8.decode (Utf8.encode cps) = cps)
  /\ (forall body, Forall Utf8.byte body ->
                   Forall Utf8.scalar (Utf8.decode body))
  /\ (forall cps rest, Forall Utf8.scalar cps ->
         Utf8.decode (Utf8.encode cps ++ rest) = cps ++ Utf8.decode rest)
  /\ (forall b rest, (128 <= b < 194 \/ 245 <= b)%Z ->
         Utf8.decode (b :: rest) = Utf8.replacement :: Utf8.decode rest)
  /\ (forall body, Forall Utf8.byte body ->
         Utf8.encode (Utf8.decode body) <> body ->
         In Utf8.replacement (Utf8.decode body)).
Proof.
  intros Hid. split; [|split; [|split; [|split; [|split]]]].
  - unfold Sync.fetch_gdoc. rewrite Hid.
    unfold try_except, Sync.urlopen_read, Sync.exchange, mbind, M_bind, mret,
      M_ret, raise. simpl.
    destruct (http_get env (clock w) (Sync.export_url url doc_id))
      as [status reason body|msg]; simpl.
    + destruct ((200 <=? status)%Z && (status <? 300)%Z); simpl;
        [reflexivity|].
      now destruct (status =? 403)%Z.
    + reflexivity.
  - apply Utf8Facts.decode_encode.
  - apply Utf8Total.decode_scalar.
  - apply Utf8Exact.decode_encode_app.
  - apply Utf8Exact.decode_invalid_start.
  - intros body Hb Hne.
    destruct (in_dec Z.eq_dec Utf8.replacement (Utf8.decode body)) as [Hin|Hno];
      [exact Hin|].
    now apply Utf8Exact.decode_exact in Hno.
Qed.

Lemma fetch_gdoc_outcomes_witness :
  (Sync.fetch_gdoc Samples.no_browser_env
     "https://docs.google.com/document/d/1AbC/edit" initial_world).1
  = Return (None, Some "HTTP 500: Internal Server Error").
Proof.
  exact (proj1 (fetch_gdoc_outcomes Samples.no_browser_env
                  "https://docs.google.com/document/d/1AbC/edit" "1AbC"
                  initial_world eq_refl)).
Defined.

(** ** The final clean-up of the normalizer *)

Section Cleanup.

Lemma length_newlines (n : nat) : String.length (newlines n) = n.
Proof. induction n as [|n IH]; simpl; congruence. Qed.

Lemma is_nl_nl : is_nl nl = true.
Proof. reflexivity. Qed.

Lemma starts_with_nl_cons (c : ascii) (s : string) :
  starts_with_nl (String c s) = is_nl c.
Proof. reflexivity. Qed.

(** Every string is a run of newlines followed by a string that does not
    start with a newline. *)
Lemma run_split (s : string) :
  exists n rest, s = newlines n +:+ rest /\ starts_with_nl rest = false.
Proof.
  induction s as [|c s (n & rest & -> & Hrest)].
  - now exists 0, "".
  - destruct (is_nl c) eqn:E.
    + exists (S n), rest. split; [|assumption].
      unfold is_nl in E. apply Ascii.eqb_eq in E as ->. reflexivity.
    + exists 0, (String c (newlines n +:+ rest)). now split.
Qed.

Lemma take_while_run (n : nat) (rest : string) :
  starts_with_nl rest = false ->
  take_while is_nl (newlines n +:+ rest) = newlines n.
Proof.
  intros Hrest. unfold take_while. induction n as [|n IH].
  - rewrite str_app_nil_l. destruct rest as [|c r]; [reflexivity|].
    rewrite starts_with_nl_cons in Hrest. simpl. now rewrite Hrest.
  - cbn [newlines]. rewrite str_app_cons. cbn [span]. rewrite is_nl_nl.
    destruct (span is_nl (newlines n +:+ rest)) as [a b]. simpl in *.
    now rewrite IH.
Qed.

Lemma sub_go_skip (m : string -> option nat) (repl x rest : string) :
  sub_go m repl (String.length x) (x +:+ rest) = sub_go m repl 0 rest.
Proof.
  induction x as [|c x IH]; [reflexivity|]. now rewrite str_app_cons.
Qed.

Lemma collapse_not_nl (c : ascii) (s : string) :
  is_nl c = false ->
  collapse_newlines (String c s) = String c (collapse_newlines s).
Proof.
  intros Hc. unfold collapse_newlines, sub. cbn [sub_go].
  unfold newlines3_here, take_while. cbn [span]. now rewrite Hc.
Qed.

Lemma newlines3_here_run (n : nat) (rest : string) :
  starts_with_nl rest = false ->
  newlines3_here (newlines n +:+ rest)
  = if (3 <=? n)%nat then Some n else None.
Proof.
  intros Hrest. unfold newlines3_here.
  now rewrite take_while_run, length_newlines.
Qed.

Lemma collapse_run (n : nat) (rest : string) :
  starts_with_nl rest = false ->
  collapse_newlines (newlines n +:+ rest)
  = newlines (Nat.min n 2) +:+ collapse_newlines rest.
Proof.
  intros Hrest. unfold collapse_newlines, sub.
  destruct n as [|n]; [reflexivity|].
  change (newlines (S n) +:+ rest) with (String nl (newlines n +:+ rest)).
  cbn [sub_go].
  change (String nl (newlines n +:+ rest)) with (newlines (S n) +:+ rest).
  rewrite newlines3_here_run by assumption.
  destruct (Nat.leb_spec 3 (S n)) as [Hn|Hn].
  - replace (S n - 1) with (String.length (newlines n))
      by (rewrite length_newlines; lia).
    rewrite sub_go_skip.
    replace (Nat.min (S n) 2) with 2 by lia. reflexivity.
  - destruct n as [|[|n]]; [reflexivity| |lia].
    change (newlines 1 +:+ rest) with (String nl (newlines 0 +:+ rest)).
    cbn [sub_go].
    change (String nl (newlines 0 +:+ rest)) with (newlines 1 +:+ rest).
    rewrite newlines3_here_run by assumption. reflexivity.
Qed.

Lemma squeeze_no_nl_start (k : nat) (rest : string) :
  starts_with_nl rest = false -> squeeze k rest = squeeze 0 rest.
Proof.
  destruct rest as [|c r]; [reflexivity|].
  rewrite starts_with_nl_cons. intros Hc. cbn [squeeze]. now rewrite Hc.
Qed.

Lemma squeeze_run (k n : nat) (rest : string) :
  starts_with_nl rest = false ->
  squeeze k (newlines n +:+ rest)
  = newlines (Nat.min (k + n) 2 - Nat.min k 2) +:+ squeeze 0 rest.
Proof.
  intros Hrest. revert k. induction n as [|n IH]; intros k.
  - rewrite str_app_nil_l, Nat.add_0_r, Nat.sub_diag.
    now apply squeeze_no_nl_start.
  - change (newlines (S n) +:+ rest) with (String nl (newlines n +:+ rest)).
    cbn [squeeze]. rewrite is_nl_nl, IH.
    destruct (Nat.ltb_spec k 2) as [Hk|Hk].
    + rewrite <- str_app_cons. f_equal.
      change (String nl (newlines ?m)) with (newlines (S m)). f_equal. lia.
    + f_equal. f_equal. lia.
Qed.

Lemma str_length_app (s t : string) :
  String.length (s +:+ t) = String.length s + String.length t.
Proof. induction s as [|c s IH]; [reflexivity|]. rewrite str_app_cons. simpl. lia. Qed.

(** [collapse_newlines] keeps the first two newlines of every run. *)
Lemma collapse_squeeze (s : string) : collapse_newlines s = squeeze 0 s.
Proof.
  remember (String.length s) as len eqn:Hlen.
  revert s Hlen. induction len as [len IH] using lt_wf_ind. intros s ->.
  destruct s as [|c s]; [reflexivity|].
  destruct (is_nl c) eqn:Hc.
  - destruct (run_split (String c s)) as (n & rest & Hs & Hrest).
    destruct n as [|n].
    { rewrite str_app_nil_l in Hs. subst rest.
      rewrite starts_with_nl_cons in Hrest. congruence. }
    rewrite Hs, collapse_run, squeeze_run by assumption.
    simpl Nat.min. rewrite Nat.sub_0_r. f_equal.
    apply (IH (String.length rest)); [|reflexivity].
    rewrite Hs, str_length_app, length_newlines. lia.
  - rewrite collapse_not_nl by assumption. cbn [squeeze]. rewrite Hc.
    f_equal. apply (IH (String.length s)); [simpl; lia|reflexivity].
Qed.

End Cleanup.

Section CleanupFacts.

Lemma starts_with_nl_run (n : nat) (c : ascii) (s : string) :
  starts_with (newlines (S n)) (String c s)
  = is_nl c && starts_with (newlines n) s.
Proof.
  cbn [newlines starts_with]. unfold is_nl. now rewrite Ascii.eqb_sym.
Qed.

Lemma contains_cons (p : string) (c : ascii) (s : string) :
  contains p (String c s) = starts_with p (String c s) || contains p s.
Proof. reflexivity. Qed.

Lemma starts_with_empty (n : nat) : starts_with (newlines (S n)) "" = false.
Proof. reflexivity. Qed.

(** No run of three newlines is left. *)
Lemma squeeze_no_run3 (s : string) (k : nat) :
  contains (newlines 3) (squeeze k s) = false
  /\ (1 <= k -> starts_with (newlines 2) (squeeze k s) = false)
  /\ (2 <= k -> starts_with (newlines 1) (squeeze k s) = false).
Proof.
  revert k. induction s as [|c s IH]; intros k; [now repeat split|].
  cbn [squeeze]. destruct (is_nl c) eqn:Hc.
  - destruct (Nat.ltb_spec k 2) as [Hk|Hk].
    + destruct (IH (S k)) as (H3 & H2 & H1).
      rewrite contains_cons, !starts_with_nl_run, Hc, H3.
      rewrite H2 by lia. repeat split; [|lia].
      intros Hk1. apply H1. lia.
    + destruct (IH (S k)) as (H3 & H2 & H1).
      repeat split; [assumption|intros; apply H2; lia|intros; apply H1; lia].
  - destruct (IH 0) as (H3 & _ & _).
    rewrite contains_cons, !starts_with_nl_run, Hc, H3. now repeat split.
Qed.

(** A text without a run of three newlines is left as it is. *)
Lemma squeeze_id (s : string) (k : nat) :
  contains (newlines 3) s = false ->
  (1 <= k -> starts_with (newlines 2) s = false) ->
  (2 <= k -> starts_with (newlines 1) s = false) ->
  squeeze k s = s.
Proof.
  revert k. induction s as [|c s IH]; intros k H3 H2 H1; [reflexivity|].
  rewrite contains_cons in H3. apply orb_false_iff in H3 as [H3a H3].
  rewrite starts_with_nl_run in *. cbn [squeeze].
  destruct (is_nl c) eqn:Hc; cbn [andb] in *.
  - destruct (Nat.ltb_spec k 2) as [Hk|Hk].
    + f_equal. apply IH; [assumption|intros _; assumption|].
      intros Hk2. assert (1 <= k) as Hk1 by lia.
      exact (H2 Hk1).
    + specialize (H1 Hk). cbn in H1. discriminate.
  - f_equal. apply IH; [assumption|lia|lia].
Qed.

Lemma ends_with_nl_cons (c : ascii) (a : string) :
  ends_with_nl (String c a)
  = match a with "" => is_nl c | _ => ends_with_nl a end.
Proof.
  unfold ends_with_nl. cbn [last_char]. destruct a as [|d a]; [reflexivity|].
  cbn [last_char]. now destruct (last_char a).
Qed.

(** A text that does not end with a newline is cleaned independently of
    what follows it. *)
Lemma squeeze_app (a t : string) (k : nat) :
  a <> "" -> ends_with_nl a = false ->
  squeeze k (a +:+ t) = squeeze k a +:+ squeeze 0 t.
Proof.
  revert k. induction a as [|c a IH]; intros k Hne Hend; [congruence|].
  rewrite ends_with_nl_cons in Hend. rewrite str_app_cons. cbn [squeeze].
  destruct a as [|d a].
  - rewrite Hend, str_app_nil_l. reflexivity.
  - destruct (is_nl c); [destruct (k <? 2)%nat|];
      rewrite ?str_app_cons; rewrite IH by (congruence || assumption);
      reflexivity.
Qed.

Lemma collapse_app (a t : string) :
  ends_with_nl a = false ->
  collapse_newlines (a +:+ t) = collapse_newlines a +:+ collapse_newlines t.
Proof.
  intros Hend. rewrite !collapse_squeeze. destruct a as [|c a].
  - reflexivity.
  - now apply squeeze_app.
Qed.

(** Stripping. *)
Lemma span_app (p : ascii -> bool) (s : string) :
  s = fst (span p s) +:+ snd (span p s).
Proof.
  induction s as [|c s IH]; [reflexivity|]. cbn [span].
  destruct (p c); [|reflexivity].
  destruct (span p s) as [a b]. simpl in *. now rewrite str_app_cons, <- IH.
Qed.

Lemma drop_while_first (p : ascii -> bool) (s : string) (c : ascii) :
  first_char (drop_while p s) = Some c -> p c = false.
Proof.
  unfold drop_while. induction s as [|d s IH]; [discriminate|].
  cbn [span]. destruct (p d) eqn:E.
  - destruct (span p s) as [a b]. exact IH.
  - simpl. now intros [= <-].
Qed.

Lemma rstrip_app (s : string) : exists post, s = rstrip s +:+ post.
Proof.
  induction s as [|c s [post IH]]; [now exists ""|].
  cbn [rstrip]. destruct (rstrip s) as [|d r] eqn:E.
  - destruct (is_space c).
    + now exists (String c s).
    + exists post. rewrite str_app_cons, str_app_nil_l. now rewrite str_app_nil_l in IH; subst.
  - exists post. rewrite str_app_cons. now rewrite <- IH.
Qed.

Lemma rstrip_last (s : string) (c : ascii) :
  last_char (rstrip s) = Some c -> is_space c = false.
Proof.
  revert c. induction s as [|d s IH]; intros c; [discriminate|].
  cbn [rstrip]. destruct (rstrip s) as [|e r] eqn:E.
  - destruct (is_space d) eqn:Hd; [discriminate|]. simpl. now intros [= <-].
  - cbn [last_char]. cbn [last_char] in IH.
    destruct (last_char r) as [x|]; intros [= <-]; now apply IH.
Qed.

Lemma rstrip_first (s : string) (c : ascii) :
  first_char (rstrip s) = Some c -> first_char s = Some c.
Proof.
  destruct s as [|d s]; [discriminate|]. cbn [rstrip].
  destruct (rstrip s); [destruct (is_space d)|]; simpl; congruence.
Qed.

Lemma strip_substring (s : string) : exists pre post, s = pre +:+ strip s +:+ post.
Proof.
  unfold strip, lstrip, drop_while.
  destruct (rstrip_app (snd (span is_space s))) as [post Hpost].
  exists (fst (span is_space s)), post. rewrite <- Hpost. apply span_app.
Qed.

Lemma strip_no_space_ends (s : string) (c : ascii) :
  first_char (strip s) = Some c \/ last_char (strip s) = Some c ->
  is_space c = false.
Proof.
  unfold strip, lstrip. intros [H|H].
  - apply rstrip_first in H. now apply drop_while_first in H.
  - now apply rstrip_last in H.
Qed.

Lemma not_contains_substring (p pre s post : string) :
  contains p (pre +:+ s +:+ post) = false -> contains p s = false.
Proof.
  intros H. destruct (contains p s) eqn:E; [|reflexivity].
  apply contains_spec in E as (l & r & ->).
  assert (contains p (pre +:+ (l +:+ p +:+ r) +:+ post) = true) as H'.
  { apply contains_spec. exists (pre +:+ l), (r +:+ post).
    now rewrite !str_app_assoc. }
  congruence.
Qed.

End CleanupFacts.

(** What the final clean-up does to runs of newlines: a run of three
    or more newline characters becomes two newline characters, a text
    without such a run is left as it is, no such run is left in the
    result, and the result neither starts nor ends with white space. *)
Lemma final_cleanup_newline_runs :
  (forall a b n, 3 <= n -> ends_with_nl a = false -> starts_with_nl b = false ->
     collapse_newlines (a +:+ newlines n +:+ b)
     = collapse_newlines a +:+ newlines 2 +:+ collapse_newlines b)
  /\ (forall s, contains (newlines 3) s = false -> collapse_newlines s = s)
  /\ (forall s, contains (newlines 3) (final_cleanup s) = false)
  /\ (forall s c, first_char (final_cleanup s) = Some c
                  \/ last_char (final_cleanup s) = Some c ->
                  is_space c = false).
Proof.
  repeat split.
  - intros a b n Hn Ha Hb. rewrite collapse_app, collapse_run by assumption.
    now replace (Nat.min n 2) with 2 by lia.
  - intros s Hs. rewrite collapse_squeeze. apply squeeze_id; [assumption|lia|lia].
  - intros s. unfold final_cleanup.
    destruct (strip_substring (collapse_newlines s)) as (pre & post & H).
    apply (not_contains_substring _ pre _ post). rewrite <- H.
    rewrite collapse_squeeze. apply squeeze_no_run3.
  - intros s c. apply strip_no_space_ends.
Qed.

(** C9.  The final clean-up leaves one blank line where the claim, and
    the comment of line 419 ("Collapse 3+ blank lines to 2"), say two.
    The pattern counts newline characters, and three newline characters
    are two blank lines only.  A converted page with four blank lines
    between two lines of text, and one with three, both come out of
    [html_to_markdown] with a single blank line between the two lines. *)
Theorem blank_lines_collapse_to_one :
  split nl ("a" +:+ newlines 5 +:+ "b") = ["a"; ""; ""; ""; ""; "b"]
  /\ final_cleanup ("a" +:+ newlines 5 +:+ "b") = "a" +:+ newlines 2 +:+ "b"
  /\ split nl (final_cleanup ("a" +:+ newlines 5 +:+ "b")) = ["a"; ""; "b"]
  /\ split nl (final_cleanup ("a" +:+ newlines 4 +:+ "b")) = ["a"; ""; "b"]
  /\ html_to_markdown Samples.plain_libs ("a" +:+ newlines 5 +:+ "b") []
     = "a" +:+ newlines 2 +:+ "b".
Proof. repeat split; vm_compute; reflexivity. Qed.

(** ** The covered set *)

Section Covered.

Lemma scan_file_returns keys jf : exists keys', scan_file keys jf = Return keys'.
Proof.
  unfold scan_file. destruct (String.eqb jf.1 "manifest.json"); [eauto|].
  destruct jf.2 as [msg|msg|meta]; simpl; eauto.
  destruct meta; simpl; eauto.
  destruct (from_option id (JString "") (assoc "url" items)); simpl; eauto.
Qed.

Lemma scan_file_damaged keys name file :
  is_damaged file = true -> scan_file keys (name, file) = Return keys.
Proof.
  intros H. unfold scan_file. simpl.
  destruct (String.eqb name "manifest.json"); [reflexivity|].
  destruct file; simpl; try reflexivity. discriminate.
Qed.

Lemma scan_files_returns files keys :
  exists keys', scan_files keys files = Return keys'.
Proof.
  revert keys. induction files as [|jf files IH]; intros keys; simpl; [eauto|].
  destruct (scan_file_returns keys jf) as [keys' ->]. simpl. apply IH.
Qed.

Lemma scan_files_app files1 files2 keys :
  scan_files keys (files1 ++ files2)
  = keys' ← scan_files keys files1; scan_files keys' files2.
Proof.
  revert keys. induction files1 as [|jf files1 IH]; intros keys; [reflexivity|].
  simpl. destruct (scan_file_returns keys jf) as [keys' ->]. simpl. apply IH.
Qed.

End Covered.

(** C10.  For every state of the store directory [get_scraped_keys]
    returns a dictionary and raises nothing; a file that cannot be read
    or whose contents are not JSON changes nothing: the result is the
    one of the directory without that file, so the scan goes on with the
    files after it. *)
Theorem get_scraped_keys_total :
  (forall directory, exists keys, get_scraped_keys directory = Return keys)
  /\ (forall before after name file,
        is_damaged file = true ->
        get_scraped_keys (before ++ (name, file) :: after)
        = get_scraped_keys (before ++ after)).
Proof.
  split.
  - intros directory. apply scan_files_returns.
  - intros before after name file Hbad. unfold get_scraped_keys.
    rewrite !List.filter_app. cbn [List.filter]. simpl.
    destruct (ends_with ".json" name); [|reflexivity].
    rewrite !scan_files_app.
    destruct (scan_files_returns
                (List.filter (fun jf => ends_with ".json" jf.1) before) ∅)
      as [keys ->].
    simpl. now rewrite scan_file_damaged.
Qed.

Lemma get_scraped_keys_total_witness :
  get_scraped_keys
    ([("a.json", Parsed (JObject [("url", JString "https://example.com/a")]))]
     ++ ("b.json", NotJson "Expecting value") ::
        [("c.json", Parsed (JObject [("url", JString "https://example.com/c")]))])
  = get_scraped_keys
      ([("a.json", Parsed (JObject [("url", JString "https://example.com/a")]))]
       ++ [("c.json", Parsed (JObject [("url", JString "https://example.com/c")]))]).
Proof.
  apply (proj2 get_scraped_keys_total). reflexivity.
Defined.

(** ** The fetch strategies never raise *)

Import Sync.

Section Quiet.

Lemma total_quiet {A} (m : IO A) : total m -> quiet m.
Proof. intros H w. destruct (H w) as [Hj [a Ha]]. now rewrite Ha. Qed.

Lemma quiet_ret {A} (a : A) : quiet (mret a : IO A).
Proof. now intros w. Qed.

Lemma total_ret {A} (a : A) : total (mret a : IO A).
Proof. intros w. split; [reflexivity|now exists a]. Qed.

Lemma quiet_raise {A} (msg : string) : quiet (raise (Exception msg) : IO A).
Proof. now intros w. Qed.

Lemma quiet_bind {A B} (m : IO A) (k : A -> IO B) :
  quiet m -> (forall a, quiet (k a)) -> quiet (m ≫= k).
Proof.
  intros Hm Hk w. unfold mbind, M_bind. specialize (Hm w).
  destruct (m w) as [[a|e] w1]; simpl in *.
  - destruct Hm as [Hj _]. destruct (Hk a w1) as [Hj' He]. split; [congruence|assumption].
  - assumption.
Qed.

Lemma total_bind {A B} (m : IO A) (k : A -> IO B) :
  total m -> (forall a, total (k a)) -> total (m ≫= k).
Proof.
  intros Hm Hk w. unfold mbind, M_bind. destruct (Hm w) as [Hj [a Ha]].
  destruct (m w) as [r w1]; simpl in *. subst r.
  destruct (Hk a w1) as [Hj' Hr]. split; [congruence|assumption].
Qed.

Lemma total_try {A} (body : IO A) (handler : exn -> option (IO A)) :
  quiet body ->
  (forall e, is_Exception e = true -> exists h, handler e = Some h /\ total h) ->
  total (try_except body handler).
Proof.
  intros Hb Hh w. unfold try_except. specialize (Hb w).
  destruct (body w) as [[a|e] w1]; simpl in *.
  - destruct Hb as [Hj _]. split; [assumption|now exists a].
  - destruct Hb as [Hj He]. destruct (Hh e He) as (h & -> & Hht).
    destruct (Hht w1) as [Hj' Hr]. split; [congruence|assumption].
Qed.

Lemma total_except_Exception {A} (h : exn -> IO A) (e : exn) :
  (forall e, total (h e)) -> is_Exception e = true ->
  exists h', except_Exception h e = Some h' /\ total h'.
Proof. intros Hh He. unfold except_Exception. rewrite He. eauto. Qed.

Lemma total_exchange (ev : Event) : total (exchange ev).
Proof. intros w. split; [reflexivity|now eexists]. Qed.

Lemma total_set_cdp_client (c : option bool) : total (set_cdp_client c).
Proof. intros w. split; [reflexivity|now eexists]. Qed.

Lemma total_get : total (get : IO World).
Proof. intros w. split; [reflexivity|now eexists]. Qed.

End Quiet.

Section Fetch.

Variable libs : Libs.
Variable env : Env.

Lemma quiet_connect : quiet (connect env).
Proof.
  unfold connect. apply quiet_bind; [apply total_quiet, total_get|].
  intros w. destruct (cdp_client w) as [[|]|]; try apply quiet_ret;
    (apply quiet_bind; [apply total_quiet, total_exchange|]; intros t;
     destruct (cdp_connect env t);
     [apply quiet_raise|apply total_quiet, total_set_cdp_client]).
Qed.

Lemma total_get_cdp_client : total (get_cdp_client env).
Proof.
  unfold get_cdp_client. destruct (CDP_AVAILABLE env); simpl; [|apply total_ret].
  apply total_bind; [apply total_get|]. intros w.
  destruct (cdp_client w); [apply total_ret|].
  apply total_try.
  - apply quiet_bind; [apply total_quiet, total_set_cdp_client|]. intros _.
    apply quiet_bind; [apply quiet_connect|]. intros _. apply quiet_ret.
  - intros e. apply total_except_Exception. intros _. apply total_ret.
Qed.

Lemma quiet_fetch_html (url : string) : quiet (fetch_html env url).
Proof.
  unfold fetch_html. apply quiet_bind; [apply quiet_connect|]. intros _.
  apply quiet_bind; [apply total_quiet, total_exchange|]. intros t.
  destruct (cdp_fetch_html env t url); [apply quiet_raise|apply quiet_ret].
Qed.

(** Every error of the browser-driven capture is caught in
    [fetch_notion] and returned as the error of the pair. *)
Lemma total_fetch_notion (url : string) : total (fetch_notion libs env url).
Proof.
  unfold fetch_notion. apply total_bind; [apply total_get_cdp_client|].
  intros [[]|]; [|apply total_ret].
  apply total_try.
  - apply quiet_bind; [apply quiet_fetch_html|]. intros [html texts].
    destruct (String.length html <? 500)%nat; [apply quiet_ret|].
    destruct (String.length _ <? 200)%nat; apply quiet_ret.
  - intros e. apply total_except_Exception. intros e'. apply total_ret.
Qed.

Lemma quiet_urlopen_read (url : string) : quiet (urlopen_read env url).
Proof.
  unfold urlopen_read. apply quiet_bind; [apply total_quiet, total_exchange|].
  intros t. destruct (http_get env t url) as [status reason body|msg].
  - destruct ((200 <=? status)%Z && (status <? 300)%Z); [apply quiet_ret|].
    now intros w.
  - apply quiet_raise.
Qed.

(** Every error of the direct export retrieval is caught in
    [fetch_gdoc]. *)
Lemma total_fetch_gdoc (url : string) : total (fetch_gdoc env url).
Proof.
  unfold fetch_gdoc. destruct (search slash_d_here url); [|apply total_ret].
  apply total_try.
  - apply quiet_bind; [apply quiet_urlopen_read|]. intros body. apply quiet_ret.
  - intros [code reason|msg|code] He; try discriminate He.
    + eexists. split; [reflexivity|].
      destruct (code =? 403)%Z; apply total_ret.
    + apply total_except_Exception; [|reflexivity]. intros e. apply total_ret.
Qed.

Lemma total_fetch_resource (url domain : string) :
  total (fetch_resource libs env url domain).
Proof.
  unfold fetch_resource. case_bool_decide; [apply total_fetch_notion|].
  destruct (contains "docs.google.com" url);
    [apply total_fetch_gdoc|apply total_ret].
Qed.

End Fetch.

(** ** What the loops write and when they fetch *)

Section Emits.

Variable ok : Event -> bool.

Lemma emits_ret {A} (a : A) : emits ok (mret a : IO A).
Proof. intros w. exists []. now rewrite app_nil_r. Qed.

Lemma emits_raise {A} (e : exn) : emits ok (raise e : IO A).
Proof. intros w. exists []. now rewrite app_nil_r. Qed.

Lemma emits_get : emits ok (get : IO World).
Proof. intros w. exists []. now rewrite app_nil_r. Qed.

Lemma emits_set_cdp_client (c : option bool) : emits ok (set_cdp_client c).
Proof. intros w. exists []. simpl. now rewrite app_nil_r. Qed.

Lemma emits_record_outcome (url : string) (o : Outcome) :
  emits ok (record_outcome url o).
Proof. intros w. exists []. simpl. now rewrite app_nil_r. Qed.

Lemma emits_exchange (ev : Event) : ok ev = true -> emits ok (exchange ev).
Proof. intros H w. exists [ev]. simpl. now rewrite H. Qed.

Lemma emits_bind {A B} (m : IO A) (k : A -> IO B) :
  emits ok m -> (forall a, emits ok (k a)) -> emits ok (m ≫= k).
Proof.
  intros Hm Hk w. unfold mbind, M_bind. destruct (Hm w) as (n1 & H1 & O1).
  destruct (m w) as [[a|e] w1]; simpl in *.
  - destruct (Hk a w1) as (n2 & H2 & O2). exists (n1 ++ n2).
    rewrite H2, H1, <- app_assoc, forallb_app, O1, O2. now split.
  - now exists n1.
Qed.

Lemma emits_try {A} (body : IO A) (handler : exn -> option (IO A)) :
  emits ok body -> (forall e h, handler e = Some h -> emits ok h) ->
  emits ok (try_except body handler).
Proof.
  intros Hb Hh w. unfold try_except. destruct (Hb w) as (n1 & H1 & O1).
  destruct (body w) as [[a|e] w1]; simpl in *; [now exists n1|].
  destruct (handler e) as [h|] eqn:E; [|now exists n1].
  destruct (Hh e h E w1) as (n2 & H2 & O2). exists (n1 ++ n2).
  rewrite H2, H1, <- app_assoc, forallb_app, O1, O2. now split.
Qed.

End Emits.

Section NoWrites.

Variable libs : Libs.
Variable env : Env.

Lemma connect_no_write : emits not_write (connect env).
Proof.
  unfold connect. apply emits_bind; [apply emits_get|]. intros w.
  destruct (cdp_client w) as [[|]|]; try apply emits_ret;
    (apply emits_bind; [now apply emits_exchange|]; intros t;
     destruct (cdp_connect env t);
     [apply emits_raise|apply emits_set_cdp_client]).
Qed.

Lemma fetch_notion_no_write (url : string) :
  emits not_write (fetch_notion libs env url).
Proof.
  unfold fetch_notion, get_cdp_client.
  apply emits_bind.
  - destruct (CDP_AVAILABLE env); simpl; [|apply emits_ret].
    apply emits_bind; [apply emits_get|]. intros w.
    destruct (cdp_client w); [apply emits_ret|].
    apply emits_try.
    + apply emits_bind; [apply emits_set_cdp_client|]. intros _.
      apply emits_bind; [apply connect_no_write|]. intros _. apply emits_ret.
    + intros e h. unfold except_Exception. destruct (is_Exception e);
        [|discriminate]. intros [= <-]. apply emits_ret.
  - intros [[]|]; [|apply emits_ret].
    apply emits_try.
    + unfold fetch_html.
      apply emits_bind.
      * apply emits_bind; [apply connect_no_write|]. intros _.
        apply emits_bind; [now apply emits_exchange|]. intros t.
        destruct (cdp_fetch_html env t url); [apply emits_raise|apply emits_ret].
      * intros [html texts].
        destruct (String.length html <? 500)%nat; [apply emits_ret|].
        destruct (String.length _ <? 200)%nat; apply emits_ret.
    + intros e h. unfold except_Exception. destruct (is_Exception e);
        [|discriminate]. intros [= <-]. apply emits_ret.
Qed.

Lemma fetch_gdoc_no_write (url : string) : emits not_write (fetch_gdoc env url).
Proof.
  unfold fetch_gdoc. destruct (search slash_d_here url); [|apply emits_ret].
  apply emits_try.
  - unfold urlopen_read. apply emits_bind; [|intros; apply emits_ret].
    apply emits_bind; [now apply emits_exchange|]. intros t.
    destruct (http_get env t _) as [status reason body|msg].
    + destruct ((200 <=? status)%Z && (status <? 300)%Z);
        [apply emits_ret|apply emits_raise].
    + apply emits_raise.
  - intros [code reason|msg|code] h; simpl.
    + intros [= <-]. destruct (code =? 403)%Z; apply emits_ret.
    + intros [= <-]. apply emits_ret.
    + discriminate.
Qed.

Lemma fetch_resource_no_write (url domain : string) :
  emits not_write (fetch_resource libs env url domain).
Proof.
  unfold fetch_resource. case_bool_decide; [apply fetch_notion_no_write|].
  destruct (contains "docs.google.com" url);
    [apply fetch_gdoc_no_write|apply emits_ret].
Qed.

Lemma writes_app (a b : list Event) : writes (a ++ b) = writes a ++ writes b.
Proof. apply List.filter_app. Qed.

Lemma no_write_writes (new : list Event) :
  forallb not_write new = true -> writes new = [].
Proof.
  induction new as [|ev new IH]; [reflexivity|]. simpl.
  unfold not_write at 1. destruct (is_write_event ev); simpl; [discriminate|].
  exact IH.
Qed.

End NoWrites.

(** ** The loop of the main sync *)

Section Loop.

Variable libs : Libs.
Variable env : Env.
Variable url_to_filename : string -> string -> string.
Variable args : Args.
Variable cdp_available : bool.

Lemma total_sleep_after (i n ms : nat) : total (sleep_after i n ms).
Proof.
  unfold sleep_after. destruct (i <? n)%nat; [|apply total_ret].
  apply total_bind; [apply total_exchange|]. intros _. apply total_ret.
Qed.

Lemma sleep_after_run (i n ms : nat) (w : World) :
  exists w' new,
    sleep_after i n ms w = (Return tt, w')
    /\ journal w' = journal w
    /\ trace w' = trace w ++ new
    /\ writes new = [].
Proof.
  unfold sleep_after. destruct (i <? n)%nat.
  - eexists _, [EvSleep ms]. repeat split.
  - exists w, []. rewrite app_nil_r. repeat split.
Qed.

(** A write is attempted, and raises what the store answers. *)
Lemma write_file_run (ev : Event) (filename : string) (w : World) :
  write_file env ev filename w
  = (match fs_write env (clock w) filename with
     | Some msg => Raise (Exception msg)
     | None => Return tt
     end,
     {| clock := S (clock w); cdp_client := cdp_client w;
        trace := trace w ++ [ev]; journal := journal w |}).
Proof.
  unfold write_file, mbind, M_bind, exchange, raise, mret, M_ret. cbn [fst snd].
  now destruct (fs_write env (clock w) filename).
Qed.

(** One turn of the loop: the item is left with an outcome, or a write
    of its capture raises. *)
Lemma sync_item_run (n i : nat) (acc : Counts)
    (item : NormalizedKey * UrlInfo) (w : World) :
  is_Some (get_domain (item_url item)) ->
  exists r w' new,
    sync_item libs env url_to_filename args cdp_available n acc (i, item) w
    = (r, w')
    /\ trace w' = trace w ++ new
    /\ match r with
       | Return acc' =>
           exists o,
             acc' = bump acc o
             /\ journal w' = journal w ++ [(item_url item, o)]
             /\ expected args cdp_available item o = true
             /\ length (writes new) = (if is_saved o then 2 else 0)
       | Raise e =>
           journal w' = journal w /\ write_failed env e
           /\ dry_run args = false
           /\ 1 <= length (writes new) <= 2
       end
    /\ (dry_run args = true ->
        new = [] /\ clock w' = clock w /\ cdp_client w' = cdp_client w).
Proof.
  intros [d Hd]. destruct item as [key info]. unfold item_url in *. simpl in Hd.
  unfold sync_item, get_domain_io, expected, is_notion_key. rewrite Hd.
  unfold mbind at 1, M_bind at 1, mret at 1, M_ret at 1. cbn [fst snd].
  destruct (String.eqb key.1 "notion" && negb cdp_available) eqn:Hskip.
  - eexists (Return _), _, []. rewrite app_nil_r.
    split; [reflexivity|]. split; [reflexivity|]. split; [|now intros _].
    exists Skipped. now repeat split.
  - destruct (dry_run args) eqn:Hdry.
    + eexists (Return _), _, []. rewrite app_nil_r.
      split; [reflexivity|]. split; [reflexivity|]. split; [|now intros _].
      exists (Previewed (url_to_filename (info_url info) d)). now repeat split.
    + unfold mbind at 1, M_bind at 1.
      destruct (total_fetch_resource libs env (info_url info) d w)
        as [Hj [[content error] Hr]].
      destruct (fetch_resource_no_write libs env (info_url info) d w)
        as (new1 & Ht1 & Hok1).
      apply no_write_writes in Hok1.
      destruct (fetch_resource libs env (info_url info) d w) as [r w1].
      simpl in Hj, Hr, Ht1. subst r.
      destruct (truthy error) eqn:Herr.
      * unfold mbind, M_bind, mret, M_ret, record_outcome, modify. simpl.
        match goal with
        | |- context [sleep_after ?a ?b ?c ?w0] =>
            destruct (sleep_after_run a b c w0)
              as (w2 & new2 & -> & Hj2 & Ht2 & Hw2)
        end.
        simpl in Hj2, Ht2. eexists (Return _), w2, (new1 ++ new2).
        split; [reflexivity|]. split; [now rewrite Ht2, Ht1, <- app_assoc|].
        split; [|discriminate].
        exists (Failed (default "" error)). repeat split.
        -- now rewrite Hj2, Hj.
        -- now rewrite writes_app, Hok1, Hw2.
      * unfold mbind at 1 2 3, M_bind at 1 2 3. rewrite write_file_run.
        destruct (fs_write env (clock w1) _) as [msg1|] eqn:Hw1.
        { eexists (Raise _), _, (new1 ++ [_]).
          split; [reflexivity|]. cbn [trace journal].
          split; [now rewrite Ht1, <- app_assoc|]. split; [|discriminate].
          split; [assumption|]. split.
          { eexists _, _, msg1. split; [exact Hw1|reflexivity]. }
          split; [reflexivity|]. rewrite writes_app, Hok1. simpl. lia. }
        unfold mbind at 1, M_bind at 1. rewrite write_file_run. cbn [clock].
        destruct (fs_write env (S (clock w1)) _) as [msg2|] eqn:Hw2.
        { eexists (Raise _), _, (new1 ++ [_; _]).
          split; [reflexivity|]. cbn [trace journal].
          split; [now rewrite Ht1, <- !app_assoc|]. split; [|discriminate].
          split; [assumption|]. split.
          { eexists _, _, msg2. split; [exact Hw2|reflexivity]. }
          split; [reflexivity|]. rewrite writes_app, Hok1. simpl. lia. }
        unfold mbind, M_bind, mret, M_ret, record_outcome, modify.
        cbn [fst snd clock cdp_client trace journal].
        match goal with
        | |- context [sleep_after ?a ?b ?c ?w0] =>
            destruct (sleep_after_run a b c w0)
              as (w2 & new2 & -> & Hj2 & Ht2 & Hws)
        end.
        simpl in Hj2, Ht2. eexists (Return _), w2, (new1 ++ [_; _] ++ new2).
        split; [reflexivity|].
        split; [rewrite Ht2, Ht1, <- !app_assoc; reflexivity|].
        split; [|discriminate].
        exists (Saved (url_to_filename (info_url info) d)
                      (length (default [] content))).
        repeat split.
        -- now rewrite Hj2, Hj.
        -- rewrite !writes_app, Hok1, Hws. reflexivity.
Qed.

End Loop.

Lemma discovered_get_domain (url : string) :
  discovered url = true -> is_Some (get_domain url).
Proof.
  intros H. unfold discovered, discovered_prefixes in H. cbn [existsb] in H.
  repeat (apply orb_true_iff in H as [H|H]); try discriminate H;
    apply starts_with_spec in H as [r ->]; vm_compute; eauto.
Qed.

Section LoopAll.

Variable libs : Libs.
Variable env : Env.
Variable url_to_filename : string -> string -> string.
Variable args : Args.
Variable cdp_available : bool.

(** The loop visits the items in order until the end of the list or
    until a write raises. *)
Lemma for_each_sync (n : nat) (items : list (NormalizedKey * UrlInfo))
    (g : nat -> nat) (acc : Counts) (w : World) :
  Forall (fun it => is_Some (get_domain (item_url it))) items ->
  exists r w' visited rest os new,
    for_each (sync_item libs env url_to_filename args cdp_available n) acc
      (imap (fun i x => (g i, x)) items) w
    = (r, w')
    /\ items = visited ++ rest
    /\ journal w' = journal w ++ zip (item_url <$> visited) os
    /\ Forall2 (fun it o => expected args cdp_available it o = true) visited os
    /\ trace w' = trace w ++ new
    /\ match r with
       | Return acc' =>
           rest = [] /\ acc' = fold_left bump os acc
           /\ length (writes new) = 2 * length (List.filter is_saved os)
       | Raise e =>
           rest <> [] /\ write_failed env e /\ dry_run args = false
           /\ 2 * length (List.filter is_saved os) < length (writes new)
              <= 2 * length (List.filter is_saved os) + 2
       end
    /\ (dry_run args = true ->
        new = [] /\ clock w' = clock w /\ cdp_client w' = cdp_client w).
Proof.
  intros Hall. revert g acc w.
  induction Hall as [|item items Hd _ IH]; intros g acc w.
  - exists (Return acc), w, [], [], [], []. simpl. rewrite !app_nil_r.
    repeat split. constructor.
  - cbn [imap for_each]. unfold mbind at 1, M_bind at 1.
    destruct (sync_item_run libs env url_to_filename args cdp_available n
                (g 0) acc item w Hd) as (r1 & w1 & new1 & -> & Ht & Hr & Hdry).
    destruct r1 as [acc1|e].
    + destruct Hr as (o & -> & Hj & Ho & Hw).
      destruct (IH (g ∘ S) (bump acc o) w1)
        as (r & w2 & visited & rest & os & new2 & Hrun & -> & Hj2 & Hos & Ht2
            & Hr2 & Hdry2).
      exists r, w2, (item :: visited), rest, (o :: os), (new1 ++ new2).
      split; [exact Hrun|]. split; [reflexivity|]. split.
      { rewrite Hj2, Hj. cbn [fmap list_fmap zip zip_with].
        now rewrite <- app_assoc. }
      split; [now constructor|]. split; [now rewrite Ht2, Ht, <- app_assoc|].
      split.
      * destruct r as [acc2|e].
        -- destruct Hr2 as (-> & -> & Hw2). repeat split.
           rewrite writes_app, length_app, Hw, Hw2. cbn [List.filter].
           destruct (is_saved o); simpl; lia.
        -- destruct Hr2 as (Hrest & He & Hreal & Hw2).
           split; [assumption|]. split; [assumption|]. split; [assumption|].
           rewrite writes_app, length_app, Hw. cbn [List.filter].
           destruct (is_saved o); simpl; lia.
      * intros H. destruct (Hdry H) as (-> & <- & <-).
        destruct (Hdry2 H) as (-> & <- & <-). now repeat split.
    + destruct Hr as (Hj & He & Hreal & Hw).
      exists (Raise e), w1, [], (item :: items), [], new1.
      split; [reflexivity|]. split; [reflexivity|].
      split; [simpl; now rewrite app_nil_r|]. split; [constructor|].
      split; [assumption|]. split; [|exact Hdry].
      split; [discriminate|]. split; [assumption|]. split; [assumption|].
      simpl. lia.
Qed.




End LoopAll.




(** ** When the browser cannot be reached *)

Section Unavailable.

Variable libs : Libs.
Variable env : Env.
Variable url_to_filename : string -> string -> string.
Variable args : Args.
Hypothesis Hno : browser_unavailable env.

Lemma check_cdp_unavailable (w : World) :
  exists w' new,
    check_cdp_available env w = (Return false, w')
    /\ journal w' = journal w
    /\ trace w' = trace w ++ new
    /\ Forall (fun ev => is_fetch_event ev = false) new.
Proof.
  unfold check_cdp_available. destruct (CDP_AVAILABLE env) eqn:E; simpl.
  - destruct Hno as [H|H]; [congruence|].
    unfold mbind, M_bind, exchange, mret, M_ret. simpl. rewrite H.
    eexists _, [EvProbe]. repeat split. repeat constructor.
  - exists w, []. rewrite app_nil_r. repeat split. constructor.
Qed.

(** The re-scrape mode ends before any fetch, and before it touches the
    capture store. *)
Lemma rescrape_fail_fast (assets : list Asset) (w : World) :
  exists r w' new,
    rescrape_notion libs env url_to_filename args assets w = (r, w')
    /\ journal w' = journal w
    /\ trace w' = trace w ++ new
    /\ Forall (fun ev => is_fetch_event ev = false) new
    /\ (assets <> [] -> r = Raise (SystemExit 1)).
Proof.
  unfold rescrape_notion.
  destruct (negb (bool_decide (is_Some (markdownify libs)))).
  - exists (Raise (SystemExit 1)), w, []. rewrite app_nil_r.
    repeat split. constructor.
  - destruct assets as [|a assets].
    + exists (Return None), w, []. rewrite app_nil_r.
      repeat split; [constructor|congruence].
    + destruct (check_cdp_unavailable w) as (w' & new & Hrun & Hj & Ht & Hnew).
      unfold mbind, M_bind. rewrite Hrun. simpl.
      exists (Raise (SystemExit 1)), w', new. repeat split; assumption.
Qed.

Lemma sorted_items_discovered (db_urls : gmap NormalizedKey UrlInfo)
    (scraped_keys : gmap NormalizedKey ScrapedInfo) :
  map_Forall (fun _ info => discovered (info_url info) = true) db_urls ->
  Forall (fun it => is_Some (get_domain (item_url it)))
    (sorted_items (uncovered db_urls scraped_keys (domain args))).
Proof.
  intros Hdb. unfold sorted_items. rewrite merge_sort_Permutation.
  apply Forall_forall. intros [k v] Hin.
  apply elem_of_map_to_list, uncovered_lookup in Hin as [Hin _].
  apply discovered_get_domain. exact (Hdb k v Hin).
Qed.

End Unavailable.

(** C7.  The main sync does not skip every item that needs the browser.
    A post links the Notion page [https://notion.so/my-page]: the URL
    matches [notion_re], holds no 32-character id and is filed under
    the key [("other", url)].  With the browser unreachable, the test
    of line 762 (on the key type) lets the item through, the browser is
    never probed, [fetch_resource] sends the URL to the browser-driven
    capture because its domain is [notion.so] (line 465), a connection
    is attempted and fails, and the item is counted in [failed], with
    [skipped_cdp] left at 0. *)
Theorem notion_page_without_id_counted_failed :
  Discover.get_db_resource_urls [my_page_post]
  = {[ ("other", my_page_url) := Discover.entry_of my_page_post my_page_url ]}
  /\ browser_unavailable Samples.no_browser_env
  /\ get_domain my_page_url = Some "notion.so"
  /\ (main_sync Samples.plain_libs Samples.no_browser_env
        Samples.sample_filename Samples.real_run
        (Discover.get_db_resource_urls [my_page_post]) ∅ initial_world).1
     = Return (Some {| extracted := 0; failed := 1; skipped_cdp := 0 |})
  /\ journal
       (main_sync Samples.plain_libs Samples.no_browser_env
          Samples.sample_filename Samples.real_run
          (Discover.get_db_resource_urls [my_page_post]) ∅ initial_world).2
     = [(my_page_url, Failed "CDP browser not available")]
  /\ trace
       (main_sync Samples.plain_libs Samples.no_browser_env
          Samples.sample_filename Samples.real_run
          (Discover.get_db_resource_urls [my_page_post]) ∅ initial_world).2
     = [EvMkdir; EvConnect].
Proof.
  assert (Discover.get_db_resource_urls [my_page_post]
          = {[ ("other", my_page_url)
               := Discover.entry_of my_page_post my_page_url ]}) as Hdb.
  { unfold Discover.get_db_resource_urls, Discover.add_post. cbn [foldl].
    change (Discover.found_urls (Discover.content_of my_page_post))
      with [my_page_url].
    cbn [foldl]. unfold Discover.add_url.
    change (normalize_url my_page_url) with ("other", my_page_url).
    rewrite lookup_empty. apply insert_empty. }
  split; [exact Hdb|]. split; [right; intros t; reflexivity|].
  split; [reflexivity|]. rewrite Hdb. vm_compute. repeat split.
Qed.

Example main_sync_sample :
  let r := main_sync Samples.plain_libs Samples.no_browser_env
             Samples.sample_filename Samples.real_run Samples.sample_db_urls ∅
             initial_world in
  r.1 = Return (Some {| extracted := 0; failed := 1; skipped_cdp := 1 |})
  /\ journal r.2
     = [("https://docs.google.com/document/d/1AbC/edit",
         Failed "HTTP 500: Internal Server Error");
        ("https://notion.so/P-0123456789abcdef0123456789abcdef", Skipped)]
  /\ trace r.2
     = [EvProbe; EvMkdir;
        EvHttpGet "https://docs.google.com/document/d/1AbC/export?format=txt";
        EvSleep 500].
Proof. vm_compute. repeat split. Qed.

Example rescrape_sample :
  let r := rescrape_notion Samples.plain_libs Samples.no_browser_env
             Samples.sample_filename Samples.real_run [Samples.sample_asset]
             initial_world in
  r.1 = Raise (SystemExit 1) /\ trace r.2 = [EvProbe] /\ journal r.2 = [].
Proof. vm_compute. repeat split. Qed.

(** * Further properties of the program *)

(** ** What the keys of [normalize_url] are made of *)

Section KeyShape.

Lemma search_sound {A : Type} (here : string -> option A) (s : string) (m : A) :
  search here s = Some m -> exists l post, s = l +:+ post /\ here post = Some m.
Proof.
  induction s as [|c s IH]; cbn [search].
  - destruct (here "") eqn:E; [|discriminate]. intros [= <-]. now exists "", "".
  - destruct (here (String c s)) eqn:E.
    + intros [= <-]. now exists "", (String c s).
    + intros H. destruct (IH H) as (l & post & -> & Hp).
      now exists (String c l), post.
Qed.

Lemma search_complete {A : Type} (here : string -> option A) (l post : string)
    (m : A) :
  here post = Some m -> search here (l +:+ post) <> None.
Proof.
  intros H. induction l as [|c l IH].
  - rewrite str_app_nil_l. destruct post; cbn [search]; rewrite H; intros [=].
  - rewrite str_app_cons. cbn [search].
    destruct (here (String c (l +:+ post))); [intros [=]|exact IH].
Qed.

Lemma literal_spec (p s r : string) : literal p s = Some r <-> s = p +:+ r.
Proof.
  revert s. induction p as [|a p IH]; intros s; cbn [literal].
  - rewrite str_app_nil_l. split; congruence.
  - destruct s as [|b s]; [split; discriminate|].
    rewrite str_app_cons. destruct (Ascii.eqb_spec a b) as [->|Hne].
    + rewrite IH. split; congruence.
    + split; [discriminate|]. intros [= -> _]. congruence.
Qed.

Lemma span_all (p : ascii -> bool) (s : string) :
  all_chars p (fst (span p s)) = true.
Proof.
  induction s as [|c s IH]; [reflexivity|]. cbn [span].
  destruct (p c) eqn:E; [|reflexivity].
  destruct (span p s) as [a b]. simpl in *. now rewrite E.
Qed.

Lemma id_here_spec (s id : string) :
  id_here s = Some id ->
  id <> "" /\ all_chars is_id_char id = true /\ exists r, s = id +:+ r.
Proof.
  unfold id_here, take_while. intros H.
  pose proof (span_all is_id_char s) as Hall.
  pose proof (span_app is_id_char s) as Happ.
  destruct (fst (span is_id_char s)) as [|c t] eqn:E; [discriminate|].
  injection H as <-. repeat split; [discriminate|assumption|eauto].
Qed.

Lemma hex_run_spec (n : nat) (s m r : string) :
  hex_run n s = Some (m, r) ->
  s = m +:+ r /\ String.length m = n /\ all_chars is_hex m = true.
Proof.
  revert s m r. induction n as [|n IH]; intros s m r; cbn [hex_run].
  - intros [= <- <-]. now repeat split.
  - destruct s as [|c s]; [discriminate|].
    destruct (is_hex c) eqn:Hc; [|discriminate].
    destruct (hex_run n s) as [[m' r']|] eqn:E; [|discriminate].
    intros [= <- <-]. destruct (IH _ _ _ E) as (-> & Hl & Ha).
    repeat split; simpl; [congruence|now rewrite Hc].
Qed.

Lemma contains_intro (p l r : string) : contains p (l +:+ p +:+ r) = true.
Proof. apply contains_spec. now exists l, r. Qed.

End KeyShape.

(** X1.  A Notion key carries an identifier of exactly 32 characters of
    [[a-f0-9]] that occurs in the URL, and the URL contains ["notion"]. *)
Theorem notion_key_shape (url id : string) :
  normalize_url url = ("notion", id) ->
  String.length id = 32
  /\ all_chars is_hex id = true
  /\ contains id url = true
  /\ contains "notion" url = true.
Proof.
  intros H. apply normalize_url_notion_inv in H as [Hs Hn].
  apply search_sound in Hs as (l & post & -> & Hh).
  unfold hex32_here in Hh. destruct (hex_run 32 post) as [[m r]|] eqn:E;
    [|discriminate].
  destruct (boundary_after_word r); [|discriminate]. injection Hh as ->.
  apply hex_run_spec in E as (-> & Hl & Ha).
  repeat split; try assumption. apply contains_intro.
Qed.

Lemma notion_key_shape_witness :
  String.length "0123456789abcdef0123456789abcdef" = 32
  /\ all_chars is_hex "0123456789abcdef0123456789abcdef" = true
  /\ contains "0123456789abcdef0123456789abcdef"
       "https://notion.so/My-Page-0123456789abcdef0123456789abcdef?pvs=4" = true
  /\ contains "notion"
       "https://notion.so/My-Page-0123456789abcdef0123456789abcdef?pvs=4" = true.
Proof.
  apply (notion_key_shape
           "https://notion.so/My-Page-0123456789abcdef0123456789abcdef?pvs=4").
  vm_compute. reflexivity.
Defined.

Lemma normalize_url_google_inv (url tag id : string) :
  normalize_url url = (tag, id) -> tag = "gdoc" \/ tag = "gsheet" ->
  search slash_d_here url = Some id /\ contains "google.com" url = true
  /\ tag = (if contains "spreadsheets" url then "gsheet" else "gdoc").
Proof.
  unfold normalize_url. intros H Ht.
  destruct (search hex32_here url) as [i|], (contains "notion" url);
    try (injection H as <- <-; destruct Ht; discriminate);
    (destruct (search slash_d_here url) as [j|], (contains "google.com" url);
     try (injection H as <- <-; now repeat split);
     destruct (contains "drive.google.com" url),
       (search folders_or_d_here url);
     injection H as <- <-; destruct Ht; discriminate).
Qed.

(** X2.  A Google document or sheet key carries a non-empty identifier of
    characters of [[a-zA-Z0-9_-]] that follows ["/d/"] in the URL; the URL
    contains ["google.com"], and the key is a sheet key exactly when the
    URL contains ["spreadsheets"]. *)
Theorem google_key_shape (url tag id : string) :
  normalize_url url = (tag, id) -> tag = "gdoc" \/ tag = "gsheet" ->
  id <> ""
  /\ all_chars is_id_char id = true
  /\ contains ("/d/" +:+ id) url = true
  /\ contains "google.com" url = true
  /\ (tag = "gsheet" <-> contains "spreadsheets" url = true).
Proof.
  intros H Ht. destruct (normalize_url_google_inv _ _ _ H Ht) as (Hs & Hg & Htag).
  apply search_sound in Hs as (l & post & -> & Hh).
  unfold slash_d_here in Hh. destruct (literal "/d/" post) as [r|] eqn:E;
    [|discriminate].
  apply literal_spec in E as ->.
  apply id_here_spec in Hh as (Hne & Hall & r' & ->).
  repeat split; try assumption.
  - rewrite <- (str_app_assoc "/d/" id r'). apply contains_intro.
  - intros ->. destruct (contains "spreadsheets" _); [reflexivity|discriminate].
  - intros Hc. now rewrite Hc in Htag.
Qed.

Lemma google_key_shape_witness :
  "1AbC" <> ""
  /\ all_chars is_id_char "1AbC" = true
  /\ contains ("/d/" +:+ "1AbC")
       "https://docs.google.com/spreadsheets/d/1AbC/edit#gid=0" = true
  /\ contains "google.com"
       "https://docs.google.com/spreadsheets/d/1AbC/edit#gid=0" = true
  /\ ("gsheet" = "gsheet"
      <-> contains "spreadsheets"
            "https://docs.google.com/spreadsheets/d/1AbC/edit#gid=0" = true).
Proof.
  apply (google_key_shape
           "https://docs.google.com/spreadsheets/d/1AbC/edit#gid=0").
  - vm_compute. reflexivity.
  - now right.
Defined.

Lemma normalize_url_gdrive_inv (url id : string) :
  normalize_url url = ("gdrive", id) ->
  search folders_or_d_here url = Some id
  /\ contains "drive.google.com" url = true
  /\ search slash_d_here url = None.
Proof.
  unfold normalize_url. intros H.
  destruct (search hex32_here url) as [i|], (contains "notion" url);
    try discriminate H;
    (destruct (search slash_d_here url) as [j|] eqn:Ed,
              (contains "google.com" url) eqn:Eg;
     try (destruct (contains "spreadsheets" url); discriminate H);
     destruct (contains "drive.google.com" url) eqn:Edr,
       (search folders_or_d_here url) eqn:Ef; try discriminate H;
     injection H as <-; repeat split;
     try reflexivity;
     apply (contains_longer "drive." "google.com") in Edr; congruence).
Qed.

(** X3.  A Drive key is only ever taken from a ["/folders/"] path segment:
    the URL contains ["/folders/<id>"] and ["drive.google.com"] and has no
    ["/d/<id>"] segment.  A Drive URL with a ["/d/<id>"] segment (a file)
    gets a document or sheet key instead, so the second alternative of
    the Drive pattern never decides a key. *)
Theorem gdrive_key_from_folders (url id : string) :
  normalize_url url = ("gdrive", id) ->
  contains ("/folders/" +:+ id) url = true
  /\ contains "drive.google.com" url = true
  /\ search slash_d_here url = None.
Proof.
  intros H. apply normalize_url_gdrive_inv in H as (Hs & Hd & Hn).
  repeat split; try assumption.
  apply search_sound in Hs as (l & post & -> & Hh).
  unfold folders_or_d_here in Hh.
  destruct (literal "/" post) as [r|] eqn:E1; [|discriminate].
  apply literal_spec in E1 as ->.
  destruct (literal "folders" r) as [r1|] eqn:E2.
  - apply literal_spec in E2 as ->.
    destruct (literal "/" r1) as [r2|] eqn:E3.
    + apply literal_spec in E3 as ->.
      destruct (id_here r2) as [id'|] eqn:E4.
      * injection Hh as ->. apply id_here_spec in E4 as (_ & _ & r' & ->).
        change ("/" +:+ "folders" +:+ "/" +:+ id +:+ r')
          with ("/folders/" +:+ id +:+ r').
        rewrite <- (str_app_assoc "/folders/" id r'). apply contains_intro.
      * simpl in Hh. discriminate.
    + simpl in Hh. discriminate.
  - exfalso. destruct (literal "d" r) as [r1|] eqn:E3; [|discriminate].
    apply literal_spec in E3 as ->.
    destruct (literal "/" r1) as [r2|] eqn:E4; [|discriminate].
    apply literal_spec in E4 as ->.
    apply (search_complete slash_d_here l ("/" +:+ "d" +:+ "/" +:+ r2) id);
      [|assumption].
    unfold slash_d_here. change ("/" +:+ "d" +:+ "/" +:+ r2) with ("/d/" +:+ r2).
    now rewrite (proj2 (literal_spec "/d/" ("/d/" +:+ r2) r2) eq_refl).
Qed.

Lemma gdrive_key_from_folders_witness :
  contains ("/folders/" +:+ "1xYz")
    "https://drive.google.com/drive/folders/1xYz?usp=sharing" = true
  /\ contains "drive.google.com"
       "https://drive.google.com/drive/folders/1xYz?usp=sharing" = true
  /\ search slash_d_here
       "https://drive.google.com/drive/folders/1xYz?usp=sharing" = None.
Proof.
  apply (gdrive_key_from_folders
           "https://drive.google.com/drive/folders/1xYz?usp=sharing").
  vm_compute. reflexivity.
Defined.

(** ** What [get_scraped_keys] puts in the covered set *)

Section CoveredKeys.

Lemma scan_file_well_keyed directory keys jf keys' :
  jf ∈ directory ->
  map_Forall (well_keyed directory) keys ->
  scan_file keys jf = Return keys' ->
  map_Forall (well_keyed directory) keys'.
Proof.
  intros Hin Hk. unfold scan_file. destruct jf as [name file]. simpl.
  destruct (String.eqb_spec name "manifest.json") as [->|Hne];
    [now intros [= <-]|].
  destruct file as [msg|msg|meta]; simpl; try now intros [= <-].
  destruct meta; simpl; try now intros [= <-].
  destruct (from_option id (JString "") (assoc "url" items)) eqn:E; simpl;
    try now intros [= <-].
  intros [= <-]. apply map_Forall_insert_2; [|assumption].
  split; [reflexivity|]. exists name, (JObject items). now repeat split.
Qed.

Lemma scan_files_well_keyed directory files keys keys' :
  (forall jf, jf ∈ files -> jf ∈ directory) ->
  map_Forall (well_keyed directory) keys ->
  scan_files keys files = Return keys' ->
  map_Forall (well_keyed directory) keys'.
Proof.
  revert keys. induction files as [|jf files IH]; intros keys Hsub Hk; simpl.
  - now intros [= <-].
  - destruct (scan_file_returns keys jf) as [keys1 E]. rewrite E. simpl.
    apply IH.
    + intros jf' H. apply Hsub. now right.
    + eapply scan_file_well_keyed; [|exact Hk|exact E]. apply Hsub. now left.
Qed.

End CoveredKeys.

(** X4.  [get_scraped_keys] files every record under the normalized key
    of the URL it records: each entry of the result has the key
    [normalize_url(url)] of its own [url], and comes from a parsed file
    of the directory whose name ends with [.json] and is not
    [manifest.json], with that file's stem as [file]. *)
Theorem covered_entries_well_keyed (directory : list (string * json_file)) :
  exists keys,
    get_scraped_keys directory = Return keys
    /\ map_Forall
         (well_keyed (List.filter (fun jf => ends_with ".json" jf.1) directory))
         keys.
Proof.
  unfold get_scraped_keys.
  destruct (scan_files_returns
              (List.filter (fun jf => ends_with ".json" jf.1) directory) ∅)
    as [keys E].
  exists keys. split; [assumption|].
  eapply scan_files_well_keyed; [| |exact E]; [auto|apply map_Forall_empty].
Qed.

Lemma scan_file_ignored keys name file :
  name = "manifest.json" -> scan_file keys (name, file) = Return keys.
Proof. intros ->. reflexivity. Qed.

(** X5.  [get_scraped_keys] ignores the reserved file [manifest.json] and
    every file whose name does not end with [.json]: the covered set is
    the same with or without such a file in the directory. *)
Theorem covered_ignores_other_files
    (before after : list (string * json_file)) (name : string)
    (file : json_file) :
  name = "manifest.json" \/ ends_with ".json" name = false ->
  get_scraped_keys (before ++ (name, file) :: after)
  = get_scraped_keys (before ++ after).
Proof.
  intros H. unfold get_scraped_keys.
  rewrite !List.filter_app. cbn [List.filter]. simpl.
  destruct (ends_with ".json" name) eqn:E; [|reflexivity].
  destruct H as [->|H]; [|discriminate].
  rewrite !scan_files_app.
  destruct (scan_files_returns
              (List.filter (fun jf => ends_with ".json" jf.1) before) ∅)
    as [keys ->].
  reflexivity.
Qed.

Lemma covered_ignores_other_files_witness :
  get_scraped_keys
    ([("a.json", Parsed (JObject [("url", JString "https://example.com/a")]))]
     ++ ("manifest.json",
         Parsed (JObject [("url", JString "https://example.com/m")])) :: [])
  = get_scraped_keys
      ([("a.json", Parsed (JObject [("url", JString "https://example.com/a")]))]
       ++ []).
Proof. apply covered_ignores_other_files. now left. Defined.

(** ** What the fetch strategies return *)

Section Returns.

Lemma returns_ret {A} (a : A) (P : A -> Prop) : P a -> returns (mret a) P.
Proof. intros H w. exact H. Qed.

Lemma returns_raise {A} (msg : string) (P : A -> Prop) :
  returns (raise (Exception msg)) P.
Proof. now intros w. Qed.

Lemma returns_bind {A B} (m : IO A) (k : A -> IO B) (P : B -> Prop) :
  returns m (fun _ => True) -> (forall a, returns (k a) P) ->
  returns (m ≫= k) P.
Proof.
  intros Hm Hk w. unfold mbind, M_bind. specialize (Hm w).
  destruct (m w) as [[a|e] w1]; simpl in *; [apply Hk|assumption].
Qed.

Lemma returns_total {A} (m : IO A) : total m -> returns m (fun _ => True).
Proof. intros H w. destruct (H w) as [_ [a ->]]. exact I. Qed.

Lemma returns_quiet {A} (m : IO A) : quiet m -> returns m (fun _ => True).
Proof. intros H w. destruct (H w) as [_ Hr]. now destruct (m w).1. Qed.

Lemma returns_try {A} (body : IO A) (handler : exn -> option (IO A))
    (P : A -> Prop) :
  returns body P ->
  (forall e h, handler e = Some h -> returns h P) ->
  (forall e, is_Exception e = true -> is_Some (handler e)) ->
  returns (try_except body handler) P.
Proof.
  intros Hb Hh Hc w. unfold try_except. specialize (Hb w).
  destruct (body w) as [[a|e] w1]; simpl in *; [assumption|].
  destruct (Hc e Hb) as [h Eh]. rewrite Eh. exact (Hh e h Eh w1).
Qed.

Variable libs : Libs.
Variable env : Env.

Lemma prefixed_not_empty (p s : string) : p <> "" -> p +:+ s <> "".
Proof. destruct p; [congruence|]. now rewrite str_app_cons. Qed.

Lemma fetch_notion_shape (url : string) :
  returns (fetch_notion libs env url)
    (fun r => content_xor_error r
              /\ forall c, r.1 = Some c -> 200 <= length c).
Proof.
  unfold fetch_notion.
  apply returns_bind; [apply returns_total, total_get_cdp_client|].
  intros [[]|].
  - apply returns_try.
    + apply returns_bind; [apply returns_quiet, quiet_fetch_html|].
      intros [html texts].
      destruct (String.length html <? 500)%nat.
      { apply returns_ret. split; [right; eexists; now split|discriminate]. }
      destruct (Nat.ltb_spec (String.length (html_to_markdown libs html texts)) 200).
      { apply returns_ret. split; [right; eexists; now split|discriminate]. }
      apply returns_ret. split; [left; eauto|].
      intros c [= <-]. unfold Utf8.codepoints.
      rewrite length_map.
      replace (length (list_ascii_of_string (html_to_markdown libs html texts)))
        with (String.length (html_to_markdown libs html texts)); [assumption|].
      generalize (html_to_markdown libs html texts). intros s.
      induction s as [|c s IH]; simpl; congruence.
    + intros e h. unfold except_Exception.
      destruct (is_Exception e); [|discriminate]. intros [= <-].
      apply returns_ret. split; [|discriminate].
      right. eexists. split; [reflexivity|]. now apply prefixed_not_empty.
    + intros e He. unfold except_Exception. rewrite He. eauto.
  - apply returns_ret. split; [right; eexists; now split|discriminate].
Qed.

Lemma fetch_gdoc_shape (url : string) :
  returns (fetch_gdoc env url) content_xor_error.
Proof.
  unfold fetch_gdoc. destruct (search slash_d_here url).
  - apply returns_try.
    + apply returns_bind; [apply returns_quiet, quiet_urlopen_read|].
      intros body. apply returns_ret. left. eauto.
    + intros [code reason|msg|code] h; simpl.
      * intros [= <-]. destruct (code =? 403)%Z; apply returns_ret; right;
          eexists; (split; [reflexivity|]);
          [discriminate|now apply prefixed_not_empty].
      * intros [= <-]. apply returns_ret. right. eexists.
        split; [reflexivity|]. now apply prefixed_not_empty.
      * discriminate.
    + intros [code reason|msg|code] He; simpl; eauto. discriminate.
  - apply returns_ret. right. eexists. now split.
Qed.

End Returns.

(** X6.  Every fetch strategy returns a pair that holds either a content
    and no error, or no content and an error message that is not empty,
    so the test [if error:] of the loops tells the two apart; it raises
    nothing.  A content returned by the browser-driven capture has at
    least 200 characters. *)
Theorem fetch_resource_content_xor_error (libs : Libs) (env : Env)
    (url domain : string) (w : World) :
  exists r,
    (fetch_resource libs env url domain w).1 = Return r
    /\ content_xor_error r
    /\ truthy r.2 = negb (bool_decide (is_Some r.1))
    /\ (domain ∈ CDP_DOMAINS ->
        forall c, r.1 = Some c -> 200 <= length c).
Proof.
  destruct (total_fetch_resource libs env url domain w) as [_ [r Hr]].
  exists r. split; [assumption|].
  assert (content_xor_error r
          /\ (domain ∈ CDP_DOMAINS -> forall c, r.1 = Some c -> 200 <= length c))
    as [Hx Hlen].
  { unfold fetch_resource in Hr. case_bool_decide as Hd.
    - pose proof (fetch_notion_shape libs env url w) as H.
      rewrite Hr in H. destruct H as [Hx Hl]. now split.
    - split; [|contradiction].
      destruct (contains "docs.google.com" url).
      + pose proof (fetch_gdoc_shape env url w) as H. now rewrite Hr in H.
      + injection Hr as <-. right. eexists. split; [reflexivity|].
        now apply prefixed_not_empty. }
  repeat split; try assumption.
  destruct Hx as [[c ->]|[e [-> He]]]; simpl; [reflexivity|].
  now destruct e.
Qed.

Lemma fetch_resource_content_xor_error_witness :
  exists r,
    (fetch_resource Samples.plain_libs Samples.no_browser_env
       "https://notion.so/P-0123456789abcdef0123456789abcdef" "notion.so"
       initial_world).1 = Return r
    /\ content_xor_error r
    /\ forall c, r.1 = Some c -> 200 <= length c.
Proof.
  destruct (fetch_resource_content_xor_error Samples.plain_libs
              Samples.no_browser_env
              "https://notion.so/P-0123456789abcdef0123456789abcdef" "notion.so"
              initial_world) as (r & Hr & Hx & _ & Hlen).
  exists r. repeat split; [assumption|assumption|].
  apply Hlen. unfold CDP_DOMAINS. apply list_elem_of_here.
Defined.

(** ** The cached browser client *)

Section Client.

Variable libs : Libs.
Variable env : Env.

Ltac run_fetch_notion :=
  unfold fetch_notion, get_cdp_client, fetch_html, connect, try_except,
    except_Exception, exchange, set_cdp_client, modify, get, mbind, M_bind,
    mret, M_ret, raise.

Lemma fetch_notion_first_failure (url msg : string) (w : World) :
  CDP_AVAILABLE env = true -> cdp_client w = None ->
  cdp_connect env (clock w) = Some msg ->
  fetch_notion libs env url w
  = (Return (None, Some "CDP browser not available"),
     {| clock := S (clock w); cdp_client := Some false;
        trace := trace w ++ [EvConnect]; journal := journal w |}).
Proof.
  intros Ha Hc Hm. run_fetch_notion.
  repeat (rewrite ?Ha, ?Hc, ?Hm; simpl). reflexivity.
Qed.

Lemma fetch_notion_later_failure (url msg : string) (w : World) :
  CDP_AVAILABLE env = true -> cdp_client w = Some false ->
  cdp_connect env (clock w) = Some msg ->
  fetch_notion libs env url w
  = (Return (None, Some ("CDP error: " +:+ msg)),
     {| clock := S (clock w); cdp_client := Some false;
        trace := trace w ++ [EvConnect]; journal := journal w |}).
Proof.
  intros Ha Hc Hm. run_fetch_notion.
  repeat (rewrite ?Ha, ?Hc, ?Hm; simpl). reflexivity.
Qed.

Lemma fetch_notion_connected (url : string) (w : World) :
  CDP_AVAILABLE env = true -> cdp_client w = Some true ->
  trace (fetch_notion libs env url w).2 = trace w ++ [EvBrowse url]
  /\ cdp_client (fetch_notion libs env url w).2 = Some true
  /\ clock (fetch_notion libs env url w).2 = S (clock w).
Proof.
  intros Ha Hc. run_fetch_notion.
  repeat (rewrite ?Ha, ?Hc; simpl).
  destruct (cdp_fetch_html env (clock w) url) as [msg|[html texts]]; simpl.
  - now repeat split.
  - destruct (String.length html <? 500)%nat; simpl; [now repeat split|].
    destruct (String.length _ <? 200)%nat; simpl; now repeat split.
Qed.

End Client.

(** X7.  A failed connection leaves the client cached.  When the first
    connection attempt of a run fails, [fetch_notion] returns the error
    ["CDP browser not available"] and the global client stays set, not
    connected; a later [fetch_notion] then gets the cached client, tries
    to connect again while fetching, and a new failure is returned as
    ["CDP error: <message>"].  Each of the two calls makes exactly one
    connection attempt and loads no page. *)
Theorem failed_connection_keeps_client (libs : Libs) (env : Env)
    (url msg : string) (w : World) :
  CDP_AVAILABLE env = true ->
  cdp_connect env (clock w) = Some msg ->
  (cdp_client w = None ->
   (fetch_notion libs env url w).1
   = Return (None, Some "CDP browser not available"))
  /\ (cdp_client w = Some false ->
      (fetch_notion libs env url w).1
      = Return (None, Some ("CDP error: " +:+ msg)))
  /\ (cdp_client w <> Some true ->
      cdp_client (fetch_notion libs env url w).2 = Some false
      /\ trace (fetch_notion libs env url w).2 = trace w ++ [EvConnect]).
Proof.
  intros Ha Hm. repeat split.
  - intros Hc. now rewrite (fetch_notion_first_failure libs env url msg w).
  - intros Hc. now rewrite (fetch_notion_later_failure libs env url msg w).
  - destruct (cdp_client w) as [[|]|] eqn:Hc; [congruence| |].
    + now rewrite (fetch_notion_later_failure libs env url msg w).
    + now rewrite (fetch_notion_first_failure libs env url msg w).
  - destruct (cdp_client w) as [[|]|] eqn:Hc; [congruence| |].
    + now rewrite (fetch_notion_later_failure libs env url msg w).
    + now rewrite (fetch_notion_first_failure libs env url msg w).
Qed.

Lemma failed_connection_keeps_client_witness :
  (fetch_notion Samples.plain_libs Samples.no_browser_env
     "https://notion.so/P-0123456789abcdef0123456789abcdef" initial_world).1
  = Return (None, Some "CDP browser not available")
  /\ cdp_client
       (fetch_notion Samples.plain_libs Samples.no_browser_env
          "https://notion.so/P-0123456789abcdef0123456789abcdef"
          initial_world).2 = Some false.
Proof.
  destruct (failed_connection_keeps_client Samples.plain_libs
              Samples.no_browser_env
              "https://notion.so/P-0123456789abcdef0123456789abcdef"
              "Connection refused" initial_world eq_refl eq_refl)
    as (H1 & _ & H3).
  split; [now apply H1|]. apply H3. discriminate.
Defined.

(** X8.  A connected client is reused: when the global client is
    connected, [fetch_notion] makes no connection attempt; its only
    exchange with the outside world is the page load, and the client
    stays connected whatever the page load gives. *)
Theorem connected_client_reused (libs : Libs) (env : Env) (url : string)
    (w : World) :
  CDP_AVAILABLE env = true -> cdp_client w = Some true ->
  trace (fetch_notion libs env url w).2 = trace w ++ [EvBrowse url]
  /\ cdp_client (fetch_notion libs env url w).2 = Some true.
Proof.
  intros Ha Hc.
  destruct (fetch_notion_connected libs env url w Ha Hc) as (H1 & H2 & _).
  now split.
Qed.

Lemma connected_client_reused_witness :
  trace (fetch_notion Samples.plain_libs Samples.no_browser_env
           "https://notion.so/x"
           {| clock := 3; cdp_client := Some true; trace := []; journal := [] |}).2
  = [] ++ [EvBrowse "https://notion.so/x"].
Proof.
  apply (connected_client_reused Samples.plain_libs Samples.no_browser_env
           "https://notion.so/x"
           {| clock := 3; cdp_client := Some true; trace := [];
              journal := [] |}); reflexivity.
Defined.

(** ** What the loops write and when they fetch: the two modes *)



Section DryRun.

Variable libs : Libs.
Variable env : Env.

Lemma mkdir_run (w : World) :
  mkdir env w
  = (match fs_mkdir env (clock w) with
     | Some msg => Raise (Exception msg)
     | None => Return tt
     end,
     {| clock := S (clock w); cdp_client := cdp_client w;
        trace := trace w ++ [EvMkdir]; journal := journal w |}).
Proof.
  unfold mkdir, mbind, M_bind, exchange, raise, mret, M_ret. cbn [fst snd].
  now destruct (fs_mkdir env (clock w)).
Qed.

Lemma update_meta_run (filename : string) (w : World) :
  meta_usable (fs_meta env (clock w) filename) = true ->
  update_meta env filename w
  = (Return tt,
     {| clock := S (clock w); cdp_client := cdp_client w;
        trace := trace w ++ [EvReadMeta filename]; journal := journal w |}).
Proof.
  unfold update_meta, mbind, M_bind, exchange, raise, mret, M_ret.
  cbn [fst snd]. now destruct (fs_meta env (clock w) filename).
Qed.

End DryRun.

(** X10.  A dry run of the main sync fetches nothing and writes no file.
    Over any dictionary of discovered URLs its only exchanges with the
    outside world are, when there is something to fetch, at most the
    one probe of [check_cdp_available] and the creation of the capture
    directory, which line 748 does in a dry run too; it returns unless
    that [mkdir] raises, and the browser client is left as it was. *)
Theorem dry_run_fetches_nothing (libs : Libs) (env : Env)
    (url_to_filename : string -> string -> string) (args : Args)
    (db_urls : gmap NormalizedKey UrlInfo)
    (scraped_keys : gmap NormalizedKey ScrapedInfo) (w : World) :
  dry_run args = true ->
  map_Forall (fun _ info => discovered (info_url info) = true) db_urls ->
  exists r w' new,
    main_sync libs env url_to_filename args db_urls scraped_keys w = (r, w')
    /\ trace w' = trace w ++ new
    /\ (new = [] \/ new = [EvMkdir] \/ new = [EvProbe; EvMkdir])
    /\ cdp_client w' = cdp_client w
    /\ match r with
       | Return _ => True
       | Raise e => mkdir_failed env e
       end.
Proof.
  intros Hdry Hdb.
  pose proof (sorted_items_discovered args db_urls scraped_keys Hdb) as Hall.
  unfold main_sync.
  destruct (sorted_items (uncovered db_urls scraped_keys (domain args)))
    as [|it items] eqn:Eitems.
  - exists (Return None), w, []. rewrite app_nil_r. repeat split. now left.
  - unfold mbind at 1, M_bind at 1.
    assert (exists b w1 new1,
              (if existsb (fun it0 => String.eqb it0.1.1 "notion") (it :: items)
               then check_cdp_available env else mret false) w = (Return b, w1)
              /\ trace w1 = trace w ++ new1
              /\ (new1 = [] \/ new1 = [EvProbe])
              /\ cdp_client w1 = cdp_client w)
      as (b & w1 & new1 & -> & Ht1 & Hnew1 & Hc1).
    { destruct (existsb _ _).
      - unfold check_cdp_available. destruct (CDP_AVAILABLE env); simpl.
        + eexists _, _, [EvProbe]. split; [reflexivity|].
          split; [reflexivity|]. split; [now right|reflexivity].
        + exists false, w, []. rewrite app_nil_r. repeat split. now left.
      - exists false, w, []. rewrite app_nil_r. repeat split. now left. }
    unfold mbind at 1, M_bind at 1. rewrite mkdir_run.
    destruct (fs_mkdir env (clock w1)) as [msg|] eqn:Hmk.
    + eexists (Raise _), _, (new1 ++ [EvMkdir]). split; [reflexivity|].
      cbn [trace cdp_client]. split; [now rewrite Ht1, <- app_assoc|].
      split; [destruct Hnew1 as [-> | ->]; auto|]. split; [assumption|].
      now exists (clock w1), msg.
    + unfold sync_loop, enumerate1.
      destruct (for_each_sync libs env url_to_filename args b
                  (length (it :: items)) (it :: items) S
                  {| extracted := 0; failed := 0; skipped_cdp := 0 |}
                  {| clock := S (clock w1); cdp_client := cdp_client w1;
                     trace := trace w1 ++ [EvMkdir]; journal := journal w1 |}
                  Hall)
        as (r & w2 & visited & rest & os & new & Hrun & _ & _ & _ & Ht & Hr
            & Hd).
      destruct (Hd Hdry) as (-> & _ & Hc2). rewrite app_nil_r in Ht.
      cbn [trace cdp_client] in Ht, Hc2.
      unfold mbind, M_bind. rewrite Hrun.
      destruct r as [counts|e].
      * eexists (Return _), w2, (new1 ++ [EvMkdir]). split; [reflexivity|].
        split; [now rewrite Ht, Ht1, <- app_assoc|].
        split; [destruct Hnew1 as [-> | ->]; auto|]. split; [congruence|].
        exact I.
      * destruct Hr as (_ & _ & Hreal & _). congruence.
Qed.

Lemma dry_run_fetches_nothing_witness :
  exists r w' new,
    main_sync Samples.plain_libs Samples.no_browser_env Samples.sample_filename
      {| dry_run := true; domain := None; rescrape := false |}
      Samples.sample_db_urls ∅ initial_world
    = (r, w')
    /\ trace w' = trace initial_world ++ new
    /\ (new = [] \/ new = [EvMkdir] \/ new = [EvProbe; EvMkdir])
    /\ cdp_client w' = cdp_client initial_world
    /\ match r with
       | Return _ => True
       | Raise e => mkdir_failed Samples.no_browser_env e
       end.
Proof.
  apply dry_run_fetches_nothing; [reflexivity|].
  unfold Samples.sample_db_urls.
  apply map_Forall_insert_2; [reflexivity|].
  apply map_Forall_insert_2; [reflexivity|]. apply map_Forall_empty.
Defined.

(** ** The loop of the re-scrape mode *)

Section Rescrape.

Variable libs : Libs.
Variable env : Env.
Variable url_to_filename : string -> string -> string.
Hypothesis Hstore : store_ready env.

Lemma rescrape_item_spec (n i : nat) (acc : nat * nat) (asset : Asset)
    (w : World) :
  (published_url asset <> "" -> is_Some (get_domain (published_url asset))) ->
  exists acc' w',
    rescrape_item libs env url_to_filename n acc (i, asset) w = (Return acc', w')
    /\ (published_url asset = "" -> acc' = acc /\ w' = w)
    /\ (published_url asset <> "" ->
        acc'.1 + acc'.2 = S (acc.1 + acc.2)
        /\ exists o, journal w' = journal w ++ [(published_url asset, o)]
                     /\ match o with Failed _ | Saved _ _ => True | _ => False end).
Proof.
  destruct Hstore as (_ & Hwrite & Hmeta).
  intros Hd. unfold rescrape_item. destruct acc as [success failed].
  destruct (published_url asset) as [|c u] eqn:Eu.
  - exists (success, failed), w. repeat split; congruence.
  - destruct Hd as [d Hd]; [discriminate|].
    unfold get_domain_io. rewrite Hd.
    unfold mbind at 1, M_bind at 1, mret at 1, M_ret at 1. cbn [fst snd].
    unfold mbind at 1, M_bind at 1.
    destruct (total_fetch_notion libs env (String c u) w)
      as [Hj [[content error] Hr]].
    destruct (fetch_notion libs env (String c u) w) as [r w1].
    simpl in Hj, Hr. subst r.
    destruct (truthy error) eqn:Herr.
    + eexists (success, S failed), _. split; [reflexivity|].
      split; [discriminate|]. intros _. split; [simpl; lia|].
      eexists (Failed _). simpl. rewrite Hj. now split.
    + unfold mbind at 1, M_bind at 1. rewrite write_file_run, Hwrite.
      unfold mbind at 1, M_bind at 1. rewrite update_meta_run by apply Hmeta.
      unfold mbind at 1, M_bind at 1. rewrite write_file_run, Hwrite.
      unfold mbind, M_bind, mret, M_ret, try_except, except_Exception,
        record_outcome, modify, exchange, raise. simpl.
      destruct (db_update env _ (asset_id asset)) as [msg|];
        simpl;
        match goal with
        | |- context [sleep_after ?a ?b ?c ?w0] =>
            destruct (sleep_after_run a b c w0) as (w2 & new2 & -> & Hj2 & _)
        end; simpl in Hj2.
      * eexists (success, S failed), w2. split; [reflexivity|].
        split; [discriminate|]. intros _. split; [simpl; lia|].
        eexists (Failed _). rewrite Hj2, Hj. now split.
      * eexists (S success, failed), w2. split; [reflexivity|].
        split; [discriminate|]. intros _. split; [simpl; lia|].
        eexists (Saved _ _). rewrite Hj2, Hj. now split.
Qed.

Lemma with_url_cons (a : Asset) (assets : list Asset) :
  with_url (a :: assets)
  = if String.eqb (published_url a) "" then with_url assets
    else a :: with_url assets.
Proof. unfold with_url. simpl. now destruct (String.eqb _ _). Qed.

Lemma for_each_rescrape (n : nat) (assets : list Asset) (g : nat -> nat)
    (acc : nat * nat) (w : World) :
  Forall (fun a => is_Some (get_domain (published_url a))) (with_url assets) ->
  exists acc' w' os,
    for_each (rescrape_item libs env url_to_filename n) acc
      (imap (fun i x => (g i, x)) assets) w
    = (Return acc', w')
    /\ acc'.1 + acc'.2 = acc.1 + acc.2 + length (with_url assets)
    /\ journal w' = journal w ++ zip (published_url <$> with_url assets) os
    /\ length os = length (with_url assets).
Proof.
  revert g acc w. induction assets as [|a assets IH]; intros g acc w Hall.
  - exists acc, w, []. simpl. rewrite app_nil_r. repeat split. lia.
  - rewrite with_url_cons in Hall |- *.
    cbn [imap for_each]. unfold mbind at 1, M_bind at 1.
    destruct (String.eqb_spec (published_url a) "") as [Hu|Hu].
    + destruct (rescrape_item_spec n (g 0) acc a w) as (acc1 & w1 & -> & H0 & _);
        [congruence|].
      destruct (H0 Hu) as [-> ->]. now apply IH.
    + apply Forall_cons in Hall as [Hd Hall].
      destruct (rescrape_item_spec n (g 0) acc a w) as (acc1 & w1 & -> & _ & H1);
        [auto|].
      destruct (H1 Hu) as (Hsum & o & Hj & _).
      destruct (IH (g ∘ S) acc1 w1 Hall) as (acc2 & w2 & os & Hrun & Hs2 & Hj2 & Hl).
      exists acc2, w2, (o :: os). split; [exact Hrun|]. repeat split.
      * simpl. lia.
      * rewrite Hj2, Hj. cbn [fmap list_fmap zip zip_with].
        now rewrite <- app_assoc.
      * simpl. now rewrite Hl.
Qed.

End Rescrape.

(** X11.  With markdownify installed, the browser reachable and a capture
    store that takes what is done to it ([mkdir] and the writes do not
    raise, and an existing metadata file is unreadable or holds an
    object), a real run of the re-scrape mode over assets whose URLs
    have a host that [urlparse] accepts runs to its end: an asset
    without [published_url] is passed over without any trace, every
    other asset is left either updated or failed, one after the other
    in the order of the list, and updated + failed is the number of
    assets that have a URL. *)
Theorem rescrape_handles_every_asset (libs : Libs) (env : Env)
    (url_to_filename : string -> string -> string) (args : Args)
    (assets : list Asset) (w : World) :
  is_Some (markdownify libs) ->
  CDP_AVAILABLE env = true -> cdp_version_ok env (clock w) = true ->
  store_ready env ->
  dry_run args = false -> assets <> [] ->
  Forall (fun a => is_Some (get_domain (published_url a))) (with_url assets) ->
  exists success failed w' os,
    rescrape_notion libs env url_to_filename args assets w
    = (Return (Some (success, failed)), w')
    /\ success + failed = length (with_url assets)
    /\ journal w' = journal w ++ zip (published_url <$> with_url assets) os
    /\ length os = length (with_url assets).
Proof.
  intros Hmd Ha Hv Hstore Hdry Hne Hall. unfold rescrape_notion.
  rewrite bool_decide_true by assumption. cbn [negb].
  destruct assets as [|a assets]; [congruence|].
  assert (check_cdp_available env w
          = (Return true,
             {| clock := S (clock w); cdp_client := cdp_client w;
                trace := trace w ++ [EvProbe]; journal := journal w |}))
    as Hcheck.
  { unfold check_cdp_available. rewrite Ha. cbn [negb].
    unfold mbind, M_bind, exchange, mret, M_ret. cbn [fst snd]. now rewrite Hv. }
  unfold mbind at 1, M_bind at 1. rewrite Hcheck. cbn [negb]. rewrite Hdry.
  unfold mbind at 1, M_bind at 1. rewrite mkdir_run.
  rewrite (proj1 Hstore). unfold enumerate1.
  destruct (for_each_rescrape libs env url_to_filename Hstore
              (length (a :: assets)) (a :: assets) S (0, 0)
              {| clock := S (S (clock w)); cdp_client := cdp_client w;
                 trace := (trace w ++ [EvProbe]) ++ [EvMkdir];
                 journal := journal w |} Hall)
    as ([s f] & w' & os & Hrun & Hsum & Hj & Hl).
  unfold mbind, M_bind. cbn [clock cdp_client trace journal]. rewrite Hrun.
  exists s, f, w', os. simpl in Hsum. repeat split; assumption.
Qed.

Lemma rescrape_handles_every_asset_witness :
  exists success failed w' os,
    rescrape_notion Samples.plain_libs Samples.browser_env
      Samples.sample_filename Samples.real_run [Samples.sample_asset]
      initial_world
    = (Return (Some (success, failed)), w')
    /\ success + failed = length (with_url [Samples.sample_asset])
    /\ journal w'
       = journal initial_world
         ++ zip (published_url <$> with_url [Samples.sample_asset]) os
    /\ length os = length (with_url [Samples.sample_asset]).
Proof.
  apply rescrape_handles_every_asset; try reflexivity.
  - simpl. eauto.
  - repeat split.
  - discriminate.
  - repeat constructor. vm_compute. eauto.
Defined.

(** ** Loading the environment file *)

Section EnvFile.

Import Environ.

Lemma setdefault_keeps key val environ environ' :
  setdefault key val environ = Return environ' -> environ ⊆ environ'.
Proof.
  unfold setdefault. destruct (environ !! key) eqn:E.
  - now intros [= <-].
  - destruct (_ || _ || _); [discriminate|]. intros [= <-].
    now apply insert_subseteq.
Qed.

Lemma load_line_keeps environ line environ' :
  load_line environ line = Return environ' -> environ ⊆ environ'.
Proof.
  unfold load_line. destruct (_ || _); [now intros [= <-]|].
  destruct (contains "=" (strip line)); [|now intros [= <-]].
  destruct (split_assignment (strip line)) as [key val].
  apply setdefault_keeps.
Qed.

Lemma load_lines_keeps lines environ environ' :
  load_lines environ lines = Return environ' -> environ ⊆ environ'.
Proof.
  revert environ. induction lines as [|line lines IH]; intros environ; simpl.
  - now intros [= <-].
  - destruct (load_line environ line) as [e1|e] eqn:E; simpl; [|discriminate].
    intros H. transitivity e1; [now apply load_line_keeps in E|now apply IH].
Qed.

Lemma load_line_inert environ line :
  is_inert line = true -> load_line environ line = Return environ.
Proof.
  unfold is_inert, load_line.
  destruct (String.eqb (strip line) "" || starts_with "#" (strip line));
    [reflexivity|].
  simpl. now intros ->%negb_true_iff.
Qed.

Lemma load_lines_app lines1 lines2 environ :
  load_lines environ (lines1 ++ lines2)
  = environ' ← load_lines environ lines1; load_lines environ' lines2.
Proof.
  revert environ. induction lines1 as [|line lines1 IH]; intros environ;
    [reflexivity|].
  simpl. destruct (load_line environ line); simpl; [apply IH|reflexivity].
Qed.

End EnvFile.

(** X12.  [load_env] never overrides the environment: when it returns,
    every variable that was set before the call still has the value it
    had, whatever the file assigns to it. *)
Theorem load_env_keeps_existing (env_file : option (list string))
    (environ environ' : gmap string string) :
  Environ.load_env env_file environ = Return environ' -> environ ⊆ environ'.
Proof.
  destruct env_file as [lines|]; [|discriminate]. apply load_lines_keeps.
Qed.

Lemma load_env_keeps_existing_witness :
  ({[ "HOME" := "/root" ]} : gmap string string)
  ⊆ <["KEY" := "1"]> ({[ "HOME" := "/root" ]} : gmap string string).
Proof.
  apply (load_env_keeps_existing (Some ["HOME=/tmp"; "KEY = 1"])).
  vm_compute. reflexivity.
Defined.

(** X13.  [load_env] passes over blank lines, comment lines and lines
    without [=]: the environment it returns (or the exception it raises)
    is the same with or without such a line in the file. *)
Theorem load_env_skips_inert_lines (before after : list string)
    (line : string) (environ : gmap string string) :
  Environ.is_inert line = true ->
  Environ.load_env (Some (before ++ line :: after)) environ
  = Environ.load_env (Some (before ++ after)) environ.
Proof.
  intros H. unfold Environ.load_env. rewrite !load_lines_app.
  destruct (Environ.load_lines environ before); simpl; [|reflexivity].
  now rewrite load_line_inert.
Qed.

Lemma load_env_skips_inert_lines_witness :
  Environ.load_env (Some (["A=1"] ++ "  # SECRET=2" :: ["B=3"])) ∅
  = Environ.load_env (Some (["A=1"] ++ ["B=3"])) ∅.
Proof. apply load_env_skips_inert_lines. reflexivity. Defined.

(** ** Rewriting the Notion blocks of a document *)

Section Paths.

Lemma is_prefix_refl (p : path) : is_prefix p p = true.
Proof. induction p as [|i p IH]; [reflexivity|]. simpl. now rewrite Nat.eqb_refl. Qed.

Lemma path_lt_not_prefix (p q : path) : path_lt p q -> is_prefix q p = false.
Proof.
  revert q. induction p as [|i p IH]; intros [|j q]; simpl; try tauto.
  intros [Hlt|[-> Hlt]].
  - destruct (Nat.eqb_spec j i); [lia|reflexivity].
  - rewrite Nat.eqb_refl. simpl. now apply IH.
Qed.

Lemma path_lt_irrefl (p : path) : ~ path_lt p p.
Proof. induction p as [|i p IH]; simpl; [tauto|]. intros [H|[_ H]]; [lia|tauto]. Qed.

Lemma subtree_cons (ns : list node) (i : nat) (p : path) :
  subtree ns (i :: p)
  = match ns !! i with
    | None => None
    | Some n =>
        match p with
        | [] => Some n
        | _ :: _ =>
            match n with
            | Element _ _ kids => subtree kids p
            | Text _ => None
            end
        end
    end.
Proof. reflexivity. Qed.

(** Replacing the node at a position puts the new node there. *)
Lemma subtree_replace_same (p : path) (new : node) (ns : list node) :
  is_Some (subtree ns p) -> subtree (replace_at p new ns) p = Some new.
Proof.
  revert ns. induction p as [|i p IH]; intros ns [v Hv]; [discriminate|].
  rewrite subtree_cons in Hv. cbn [replace_at].
  destruct (ns !! i) as [n|] eqn:Ei; [|discriminate].
  assert (i < length ns) as Hlt by (eapply lookup_lt_Some; eassumption).
  destruct p as [|j p].
  - rewrite subtree_cons, list_lookup_insert_eq by assumption. reflexivity.
  - destruct n as [s|tag cls kids]; [discriminate|].
    rewrite subtree_cons, list_lookup_insert_eq by assumption.
    apply IH. eauto.
Qed.

(** Replacing the node at a position leaves the nodes that are neither
    above nor below it as they are. *)
Lemma subtree_replace_other (q p : path) (new : node) (ns : list node) :
  is_prefix q p = false -> is_prefix p q = false ->
  subtree (replace_at q new ns) p = subtree ns p.
Proof.
  revert p ns. induction q as [|j q IH]; intros p ns Hqp Hpq; [discriminate|].
  destruct p as [|i p]; [discriminate|].
  cbn [is_prefix] in Hqp, Hpq. cbn [replace_at].
  destruct (Nat.eqb_spec j i) as [->|Hne].
  - rewrite Nat.eqb_refl in Hpq. simpl in Hqp, Hpq.
    destruct q as [|j' q]; [discriminate|].
    destruct p as [|i' p]; [discriminate|].
    destruct (ns !! i) as [[s|tag cls kids]|] eqn:Ei; try reflexivity.
    assert (i < length ns) as Hlt by (eapply lookup_lt_Some; eassumption).
    rewrite !subtree_cons, list_lookup_insert_eq, Ei by assumption.
    now apply IH.
  - assert (forall x, subtree (<[j := x]> ns) (i :: p) = subtree ns (i :: p)) as Hins.
    { intros x. rewrite !subtree_cons. now rewrite list_lookup_insert_ne. }
    destruct q as [|j' q].
    + destruct (ns !! j); [apply Hins|reflexivity].
    + destruct (ns !! j) as [[s|tag cls kids]|]; try reflexivity. apply Hins.
Qed.

End Paths.

Section Find.

Variable target : node -> bool.

Lemma node_induction (P : node -> Prop) :
  (forall s, P (Text s)) ->
  (forall tag classes kids, Forall P kids -> P (Element tag classes kids)) ->
  forall n, P n.
Proof.
  intros HT HE. fix IH 1. intros [s|tag classes kids]; [apply HT|].
  apply HE. induction kids as [|k kids IHk]; constructor; [apply IH|exact IHk].
Qed.

Lemma find_in_element (here : path) (tag : string) (classes : list string)
    (kids : list node) :
  find_in target here (Element tag classes kids)
  = (if target (Element tag classes kids)
     then [(here, Element tag classes kids)] else [])
    ++ find_forest target here 0 kids.
Proof.
  cbn [find_in]. f_equal. generalize 0.
  induction kids as [|k kids IH]; intros i; [reflexivity|].
  cbn [find_forest]. now rewrite <- IH.
Qed.

Lemma find_in_text (here : path) (s : string) :
  find_in target here (Text s)
  = if target (Text s) then [(here, Text s)] else [].
Proof. cbn [find_in]. now rewrite app_nil_r. Qed.

Lemma below_app (here : path) (l1 l2 : list (path * node)) :
  below here (l1 ++ l2) = below here l1 ++ below here l2.
Proof. apply fmap_app. Qed.

Lemma below_below (here there : path) (l : list (path * node)) :
  below here (below there l) = below (here ++ there) l.
Proof.
  unfold below. rewrite <- list_fmap_compose. apply list_fmap_ext.
  intros _ [q b] _. simpl. now rewrite app_assoc.
Qed.

Lemma below_nil (l : list (path * node)) : below [] l = l.
Proof.
  unfold below. induction l as [|[q b] l IH]; [reflexivity|].
  rewrite fmap_cons. simpl. f_equal. exact IH.
Qed.

(** The positions found below [here] are the positions found from the
    top, moved below [here]. *)
Lemma find_in_below (n : node) :
  forall here, find_in target here n = below here (find_in target [] n).
Proof.
  induction n as [s|tag classes kids IH] using node_induction; intros here.
  - rewrite !find_in_text.
    destruct (target _); unfold below; simpl; now rewrite ?app_nil_r.
  - rewrite !find_in_element, below_app.
    f_equal; [destruct (target _); unfold below; simpl; now rewrite ?app_nil_r|].
    generalize 0. induction IH as [|k kids Hk _ IHk]; intros i; [reflexivity|].
    cbn [find_forest]. rewrite below_app, IHk. f_equal.
    rewrite (Hk (here ++ [i])), (Hk ([] ++ [i])), below_below. reflexivity.
Qed.

Lemma find_forest_cons (i : nat) (n : node) (ns : list node) :
  find_forest target [] i (n :: ns)
  = below [i] (find_in target [] n) ++ find_forest target [] (S i) ns.
Proof. cbn [find_forest]. now rewrite (find_in_below n ([] ++ [i])). Qed.

End Find.

Section FindSpec.

Variable target : node -> bool.

Lemma sorted_below (i : nat) (l : list (path * node)) :
  StronglySorted doc_before l -> StronglySorted doc_before (below [i] l).
Proof.
  induction 1 as [|x l _ IH Hx]; [constructor|].
  unfold below in *. rewrite fmap_cons. constructor; [exact IH|].
  apply Forall_fmap. eapply Forall_impl; [exact Hx|].
  intros y Hy. unfold doc_before in *. simpl. right. now split.
Qed.

Lemma find_forest_spec (ns : list node) :
  Forall (fun n =>
            StronglySorted doc_before (find_in target [] n)
            /\ forall q b, (q, b) ∈ find_in target [] n ->
                           subtree [n] (0 :: q) = Some b /\ target b = true) ns ->
  forall i,
    StronglySorted doc_before (find_forest target [] i ns)
    /\ forall q b, (q, b) ∈ find_forest target [] i ns ->
                   found_in_forest target i ns q b.
Proof.
  induction 1 as [|n ns [Hs Hv] _ IH]; intros i.
  - split; [constructor|]. intros q b H. inversion H.
  - rewrite find_forest_cons. destruct (IH (S i)) as [IHs IHv].
    assert (forall q b, (q, b) ∈ below [i] (find_in target [] n) ->
                        found_in_forest target i (n :: ns) q b) as Hhead.
    { intros q b Hin. unfold below in Hin.
      apply list_elem_of_fmap in Hin as ([q0 b0] & [= -> ->] & Hin).
      destruct (Hv _ _ Hin) as [Hsub Ht].
      exists 0, q0. rewrite Nat.add_0_r. repeat split; assumption. }
    assert (forall q b, (q, b) ∈ find_forest target [] (S i) ns ->
                        found_in_forest target i (n :: ns) q b) as Htail.
    { intros q b Hin. destruct (IHv _ _ Hin) as (j & q' & -> & Hsub & Ht).
      exists (S j), q'. repeat split; [f_equal; lia|assumption|assumption]. }
    split.
    + apply StronglySorted_app_2; [|now apply sorted_below|assumption].
      intros [q1 b1] [q2 b2] H1 H2.
      destruct (Hhead _ _ H1) as (j1 & q1' & -> & _).
      unfold below in H1.
      apply list_elem_of_fmap in H1 as ([q0 b0] & [= Hj _] & _).
      destruct (IHv _ _ H2) as (j2 & q2' & -> & _).
      unfold doc_before. simpl. left. lia.
    + intros q b Hin. apply elem_of_app in Hin as [Hin|Hin]; auto.
Qed.

Lemma find_in_spec (n : node) :
  StronglySorted doc_before (find_in target [] n)
  /\ forall q b, (q, b) ∈ find_in target [] n ->
                 subtree [n] (0 :: q) = Some b /\ target b = true.
Proof.
  induction n as [s|tag classes kids IH] using node_induction.
  - rewrite find_in_text. destruct (target (Text s)) eqn:E.
    + split; [repeat constructor|].
      intros q b Hin. apply list_elem_of_singleton in Hin as [= -> ->]. now split.
    + split; [constructor|]. intros q b Hin. inversion Hin.
  - rewrite find_in_element.
    destruct (find_forest_spec kids IH 0) as [Hs Hv]. split.
    + apply StronglySorted_app_2; [|destruct (target _); repeat constructor|exact Hs].
      intros [q1 b1] [q2 b2] H1 H2.
      destruct (Hv _ _ H2) as (j & q' & -> & _).
      destruct (target _); [|inversion H1].
      apply list_elem_of_singleton in H1 as [= -> ->]. exact I.
    + intros q b Hin. apply elem_of_app in Hin as [Hin|Hin].
      * destruct (target _) eqn:E; [|inversion Hin].
        apply list_elem_of_singleton in Hin as [= -> ->]. now split.
      * destruct (Hv _ _ Hin) as (j & q' & -> & Hsub & Ht). now split.
Qed.

Lemma find_all_spec (soup : list node) :
  StronglySorted doc_before (find_all target soup)
  /\ forall q b, (q, b) ∈ find_all target soup ->
                 subtree soup q = Some b /\ target b = true.
Proof.
  unfold find_all. destruct (find_forest_spec soup) with (i := 0) as [Hs Hv].
  { apply Forall_forall. intros n _. apply find_in_spec. }
  split; [exact Hs|]. intros q b Hin.
  destruct (Hv _ _ Hin) as (j & q' & -> & Hsub & Ht). now split.
Qed.

End FindSpec.

Section Loop.

Variable make : nat -> node -> node.

Lemma existsb_prefix_false (det : list path) (p : path) :
  existsb (fun q => is_prefix q p) det = false <->
  forall q, q ∈ det -> is_prefix q p = false.
Proof.
  induction det as [|d det IH]; simpl.
  - split; [intros _ q H; inversion H|reflexivity].
  - rewrite orb_false_iff, IH. split.
    + intros [Hd Hdet] q Hq. apply elem_of_cons in Hq as [->|Hq]; auto.
    + intros H. split; [apply H; now left|]. intros q Hq. apply H. now right.
Qed.

(** Once a block is replaced, the rest of the loop leaves the new node
    in place. *)
Lemma replace_loop_keeps (rest : list (path * node)) (i : nat)
    (det : list path) (s : list node) (p : path) (v : node) :
  subtree s p = Some v -> p ∈ det ->
  (forall q b, (q, b) ∈ rest -> is_prefix q p = false) ->
  subtree (replace_loop make i rest det s) p = Some v.
Proof.
  revert i det s. induction rest as [|[q b] rest IH]; intros i det s Hv Hp Hrest;
    [exact Hv|].
  cbn [replace_loop].
  destruct (existsb (fun q0 => is_prefix q0 q) det) eqn:E.
  - apply IH; [assumption|assumption|]. intros q' b' H. apply (Hrest q' b'). now right.
  - apply IH.
    + rewrite subtree_replace_other; [assumption| |].
      * apply (Hrest q b). now left.
      * now apply (proj1 (existsb_prefix_false det q) E).
    + now right.
    + intros q' b' H. apply (Hrest q' b'). now right.
Qed.

(** The loop over the first blocks of the list. *)
Lemma replace_loop_app (pre post : list (path * node)) (i : nat)
    (det : list path) (s : list node) :
  exists s' det',
    replace_loop make i (pre ++ post) det s
    = replace_loop make (i + length pre) post det' s'
    /\ (forall p,
          (forall q b, (q, b) ∈ pre ->
                       is_prefix q p = false /\ is_prefix p q = false) ->
          subtree s' p = subtree s p)
    /\ (forall q, q ∈ det' -> q ∈ det \/ exists b, (q, b) ∈ pre).
Proof.
  revert i det s. induction pre as [|[q b] pre IH]; intros i det s.
  - exists s, det. rewrite Nat.add_0_r. repeat split. now left.
  - cbn [app replace_loop length].
    replace (i + S (length pre)) with (S i + length pre) by lia.
    destruct (existsb (fun q0 => is_prefix q0 q) det).
    + destruct (IH (S i) det s) as (s' & det' & Hrun & Hsub & Hdet).
      exists s', det'. split; [exact Hrun|]. split.
      * intros p Hp. apply Hsub. intros q' b' H. apply (Hp q' b'). now right.
      * intros q' H. destruct (Hdet q' H) as [?|[b' ?]]; [now left|].
        right. exists b'. now right.
    + destruct (IH (S i) (q :: det) (replace_at q (make i b) s))
        as (s' & det' & Hrun & Hsub & Hdet).
      exists s', det'. split; [exact Hrun|]. split.
      * intros p Hp. rewrite Hsub.
        -- destruct (Hp q b) as [H1 H2]; [now left|].
           now apply subtree_replace_other.
        -- intros q' b' H. apply (Hp q' b'). now right.
      * intros q' H. destruct (Hdet q' H) as [Hq|[b' ?]].
        -- apply elem_of_cons in Hq as [->|Hq]; [|now left].
           right. exists b. now left.
        -- right. exists b'. now right.
Qed.

Variable target : node -> bool.

Lemma rewrite_blocks_at (soup : list node) (i : nat) (p : path)
    (block : node) :
  find_all target soup !! i = Some (p, block) ->
  outermost (find_all target soup) p ->
  subtree (rewrite_blocks target make soup) p = Some (make i block).
Proof.
  intros Hi Hout. unfold rewrite_blocks.
  destruct (find_all_spec target soup) as [Hsorted Hvalid].
  pose proof (take_drop_middle _ _ _ Hi) as Hsplit.
  assert (length (take i (find_all target soup)) = i) as Hlen.
  { apply length_take_le. apply lookup_lt_Some in Hi. lia. }
  set (pre := take i (find_all target soup)) in *.
  set (post := drop (S i) (find_all target soup)) in *.
  rewrite <- Hsplit in Hsorted.
  assert (forall q b, (q, b) ∈ pre -> path_lt q p) as Hpre.
  { intros q b H.
    apply (StronglySorted_app_1_elem_of _ _ _ (q, b) (p, block) Hsorted H).
    now left. }
  assert (forall q b, (q, b) ∈ post -> path_lt p q) as Hpost.
  { intros q b H. apply StronglySorted_app_1_r in Hsorted.
    apply StronglySorted_cons in Hsorted as [Hall _].
    rewrite Forall_forall in Hall. exact (Hall (q, b) H). }
  assert (forall q b, (q, b) ∈ pre -> is_prefix q p = false) as Hpre_out.
  { intros q b H. apply (Hout q b).
    - rewrite <- Hsplit. apply elem_of_app. now left.
    - intros ->. exact (path_lt_irrefl p (Hpre p b H)). }
  assert (forall q b, (q, b) ∈ post -> is_prefix q p = false) as Hpost_out.
  { intros q b H. apply (Hout q b).
    - rewrite <- Hsplit. apply elem_of_app. right. now right.
    - intros ->. exact (path_lt_irrefl p (Hpost p b H)). }
  revert Hsplit. generalize (find_all target soup). intros blocks <-.
  destruct (replace_loop_app pre ((p, block) :: post) 0 [] soup)
    as (s' & det' & -> & Hsub & Hdet).
  assert (subtree s' p = Some block) as Hblock.
  { rewrite Hsub.
    - apply (Hvalid p block). apply list_elem_of_lookup. eauto.
    - intros q b H. split; [eapply Hpre_out; eassumption|].
      apply path_lt_not_prefix. eapply Hpre; eassumption. }
  cbn [replace_loop].
  rewrite (proj2 (existsb_prefix_false det' p)).
  - rewrite Hlen. apply replace_loop_keeps.
    + apply subtree_replace_same. eauto.
    + now left.
    + exact Hpost_out.
  - intros q Hq. destruct (Hdet q Hq) as [H|[b H]]; [inversion H|].
    eapply Hpre_out; eassumption.
Qed.

End Loop.

Section Outside.

Variable make : nat -> node -> node.

Lemma replace_at_length (q : path) (new : node) (ns : list node) :
  length (replace_at q new ns) = length ns.
Proof.
  destruct q as [|j [|j' q]]; cbn [replace_at]; [reflexivity| |].
  - destruct (ns !! j); [apply length_insert|reflexivity].
  - destruct (ns !! j) as [[s|tag cls kids]|]; try reflexivity.
    apply length_insert.
Qed.

Lemma label_replace (q p : path) (new : node) (ns : list node) :
  is_prefix q p = false ->
  label <$> subtree (replace_at q new ns) p = label <$> subtree ns p.
Proof.
  revert p ns. induction q as [|j q IH]; intros p ns Hqp; [discriminate|].
  destruct p as [|i p]; [reflexivity|].
  cbn [is_prefix] in Hqp. cbn [replace_at].
  destruct (Nat.eqb_spec j i) as [->|Hne].
  - simpl in Hqp. destruct q as [|j' q]; [discriminate|].
    destruct (ns !! i) as [[s|tag cls kids]|] eqn:Ei; try reflexivity.
    assert (i < length ns) as Hlt by (eapply lookup_lt_Some; eassumption).
    rewrite !subtree_cons, list_lookup_insert_eq, Ei by assumption.
    destruct p as [|i' p].
    + pose proof (replace_at_length (j' :: q) new kids) as Hlen.
      remember (replace_at (j' :: q) new kids) as kids' eqn:Ek.
      simpl. now rewrite Hlen.
    + now apply IH.
  - assert (forall x, subtree (<[j := x]> ns) (i :: p) = subtree ns (i :: p)) as Hins.
    { intros x. rewrite !subtree_cons. now rewrite list_lookup_insert_ne. }
    destruct q as [|j' q].
    + destruct (ns !! j); [now rewrite Hins|reflexivity].
    + destruct (ns !! j) as [[s|tag cls kids]|]; try reflexivity.
      now rewrite Hins.
Qed.

Lemma label_replace_loop (blocks : list (path * node)) (i : nat)
    (det : list path) (s : list node) (p : path) :
  (forall q b, (q, b) ∈ blocks -> is_prefix q p = false) ->
  label <$> subtree (replace_loop make i blocks det s) p
  = label <$> subtree s p.
Proof.
  revert i det s. induction blocks as [|[q b] blocks IH]; intros i det s Hb;
    [reflexivity|].
  cbn [replace_loop].
  assert (forall q' b', (q', b') ∈ blocks -> is_prefix q' p = false) as Hb'.
  { intros q' b' H. apply (Hb q' b'). now right. }
  destruct (existsb _ det); rewrite IH by assumption; [reflexivity|].
  apply label_replace. apply (Hb q b). now left.
Qed.

End Outside.

Section CodeText.

Lemma code_block_source_lookup (texts : list string) (i : nat) (block : node) :
  code_block_source texts i block
  = from_option id (get_text "" block) (texts !! i).
Proof.
  unfold code_block_source. case_bool_decide as Hnil.
  - subst texts. reflexivity.
  - simpl. destruct (Nat.ltb_spec i (length texts)) as [Hlt|Hge].
    + destruct (lookup_lt_is_Some_2 texts i Hlt) as [t Ht]. rewrite Ht. simpl.
      now apply nth_lookup_Some.
    + now rewrite lookup_ge_None_2.
Qed.

Lemma split_not_nil (s : string) : split nl s <> [].
Proof.
  induction s as [|c s IH]; [discriminate|]. cbn [split].
  destruct (c =? nl)%char; [discriminate|]. now destruct (split nl s).
Qed.

Lemma join_cons (l : string) (ls : list string) :
  ls <> [] -> join NL (l :: ls) = l +:+ NL +:+ join NL ls.
Proof. destruct ls; [congruence|reflexivity]. Qed.

(** Joining the lines of a text with newlines gives the text back. *)
Lemma join_split (s : string) : join NL (split nl s) = s.
Proof.
  induction s as [|c s IH]; [reflexivity|]. cbn [split].
  destruct (Ascii.eqb_spec c nl) as [->|Hne].
  - rewrite join_cons by apply split_not_nil. now rewrite IH.
  - pose proof (split_not_nil s) as Hs.
    destruct (split nl s) as [|l ls]; [congruence|].
    destruct ls as [|l' ls].
    + simpl in *. congruence.
    + rewrite join_cons by discriminate. rewrite join_cons in IH by discriminate.
      rewrite str_app_cons. now rewrite IH.
Qed.

Lemma split_line (l0 rest : string) :
  contains NL l0 = false ->
  split nl (l0 +:+ NL +:+ rest) = l0 :: split nl rest.
Proof.
  induction l0 as [|c l0 IH]; intros Hno.
  - rewrite str_app_nil_l. unfold NL. rewrite str_app_cons, str_app_nil_l.
    cbn [split]. now rewrite Ascii.eqb_refl.
  - rewrite contains_cons in Hno. apply orb_false_iff in Hno as [Hc Hno].
    rewrite str_app_cons. cbn [split].
    destruct (Ascii.eqb_spec c nl) as [->|Hne].
    + unfold NL in Hc. cbn in Hc. discriminate.
    + now rewrite IH.
Qed.

End CodeText.

(** X14.  The loop over the code blocks replaces every Notion code block
    that lies in no other code block by [<pre><code>...</code></pre>]
    at the same place.  The i-th block in document order (blocks inside
    blocks counted) gets the i-th browser text when the list has one,
    and its own static text otherwise; the language label is removed
    from it and it is stripped. *)
Theorem code_block_replaced (code_block_texts : list string)
    (soup : list node) (i : nat) (p : path) (block : node) :
  find_all is_code_block soup !! i = Some (p, block) ->
  outermost (find_all is_code_block soup) p ->
  subtree (rewrite_code_blocks code_block_texts soup) p
  = Some (pre_code
            (strip_lang_label
               (from_option id (get_text "" block) (code_block_texts !! i)))).
Proof.
  intros Hi Hout. unfold rewrite_code_blocks.
  rewrite (rewrite_blocks_at _ _ soup i p block Hi Hout).
  unfold new_code_block. now rewrite code_block_source_lookup.
Qed.

Lemma code_block_replaced_witness :
  subtree
    (rewrite_code_blocks ["python" +:+ NL +:+ "print(1)"]
       [Element "div" ["page"]
          [Element "div" ["notion-code-block"] [Text "py"; Text "print(1)"];
           Element "div" ["notion-code-block"] [Text "static"]]])
    [0; 1]
  = Some (pre_code
            (strip_lang_label
               (from_option id
                  (get_text "" (Element "div" ["notion-code-block"] [Text "static"]))
                  (["python" +:+ NL +:+ "print(1)"] !! 1)))).
Proof.
  apply code_block_replaced.
  - reflexivity.
  - intros q b Hin Hne. vm_compute in Hin.
    apply elem_of_cons in Hin as [[= -> ->]|Hin]; [reflexivity|].
    apply elem_of_cons in Hin as [[= -> ->]|Hin]; [congruence|].
    inversion Hin.
Defined.

(** X15.  What [preprocess_notion_html] does to the text of a code block:
    when the first line, stripped and lowercased, is not a language
    label, the text is kept whole and only stripped; when it is one,
    exactly that line is dropped and the rest is stripped. *)
Theorem strip_lang_label_first_line :
  (forall text,
     lower (strip (first_line text)) ∉ lang_labels ->
     strip_lang_label text = strip text)
  /\ (forall l0 rest,
        contains NL l0 = false -> lower (strip l0) ∈ lang_labels ->
        strip_lang_label (l0 +:+ NL +:+ rest) = strip rest).
Proof.
  split.
  - intros text Hno. unfold strip_lang_label, first_line in *.
    pose proof (join_split text) as Hj.
    destruct (split nl text) as [|l0 ls]; [now rewrite <- Hj|].
    simpl in Hno. rewrite bool_decide_false by assumption. now rewrite Hj.
  - intros l0 rest Hl0 Hlab. unfold strip_lang_label.
    rewrite split_line by assumption.
    rewrite bool_decide_true by assumption. now rewrite join_split.
Qed.

Lemma strip_lang_label_first_line_witness :
  strip_lang_label ("python" +:+ NL +:+ "print(1)") = strip "print(1)"
  /\ strip_lang_label ("print(1)" +:+ NL +:+ "x") = strip ("print(1)" +:+ NL +:+ "x").
Proof.
  destruct strip_lang_label_first_line as [H1 H2]. split.
  - apply H2; [reflexivity|]. vm_compute. repeat constructor.
  - apply H1. vm_compute. intros H.
    repeat (apply elem_of_cons in H as [H|H]; [discriminate H|]).
    inversion H.
Defined.

(** X16.  The loop over the callouts replaces every Notion callout that
    lies in no other callout by a [<blockquote>] at the same place,
    holding the strings of the callout joined by newlines and
    stripped. *)
Theorem callout_replaced (soup : list node) (i : nat) (p : path)
    (callout : node) :
  find_all is_callout soup !! i = Some (p, callout) ->
  outermost (find_all is_callout soup) p ->
  subtree (rewrite_callouts soup) p
  = Some (Element "blockquote" [] [Text (strip (get_text NL callout))]).
Proof.
  intros Hi Hout. unfold rewrite_callouts.
  now rewrite (rewrite_blocks_at _ _ soup i p callout Hi Hout).
Qed.

Lemma callout_replaced_witness :
  subtree
    (rewrite_callouts
       [Text "intro";
        Element "div" ["notion-callout-block"]
          [Element "span" [] [Text " Note "]; Text "read this "]])
    [1]
  = Some (Element "blockquote" []
            [Text (strip (get_text NL
                            (Element "div" ["notion-callout-block"]
                               [Element "span" [] [Text " Note "];
                                Text "read this "])))]).
Proof.
  apply (callout_replaced _ 0).
  - reflexivity.
  - intros q b Hin Hne. vm_compute in Hin.
    apply elem_of_cons in Hin as [[= -> ->]|Hin]; [congruence|].
    inversion Hin.
Defined.

(** X17.  Rewriting blocks leaves the rest of the document in place:
    every node that is neither a matched block nor below one keeps its
    tag, its classes and its number of children, and a text node there
    keeps its text. *)
Theorem rewrite_blocks_outside (target : node -> bool)
    (make : nat -> node -> node) (soup : list node) (p : path) :
  (forall q b, (q, b) ∈ find_all target soup -> is_prefix q p = false) ->
  label <$> subtree (rewrite_blocks target make soup) p
  = label <$> subtree soup p.
Proof. intros H. unfold rewrite_blocks. now apply label_replace_loop. Qed.

Lemma rewrite_blocks_outside_witness :
  label <$> subtree
              (rewrite_blocks is_code_block (new_code_block [])
                 [Text "intro";
                  Element "div" ["notion-code-block"] [Text "x = 1"]]) [0]
  = label <$> subtree
                [Text "intro";
                 Element "div" ["notion-code-block"] [Text "x = 1"]] [0].
Proof.
  apply rewrite_blocks_outside.
  intros q b Hin. vm_compute in Hin.
  apply elem_of_cons in Hin as [[= -> ->]|Hin]; [reflexivity|].
  inversion Hin.
Defined.

Section DiscoverFacts.

Import Discover.

Lemma optional_inv {A : Type} (p : string) (k : string -> option A)
    (s : string) (m : A) :
  optional p k s = Some m ->
  (exists r, s = p +:+ r /\ k r = Some m) \/ k s = Some m.
Proof.
  unfold optional. destruct (literal p s) as [r|] eqn:E; simpl.
  - apply literal_spec in E. destruct (k r) eqn:Ek.
    + intros [= <-]. left. now exists r.
    + now right.
  - now right.
Qed.

Lemma either_inv {A : Type} (p q : string) (k : string -> option A)
    (s : string) (m : A) :
  either p q k s = Some m ->
  exists r, (s = p +:+ r \/ s = q +:+ r) /\ k r = Some m.
Proof.
  unfold either. destruct (literal p s) as [r|] eqn:E; simpl.
  - apply literal_spec in E. destruct (k r) eqn:Ek.
    + intros [= <-]. exists r. now split; [left|].
    + destruct (literal q s) as [r'|] eqn:E'; [|discriminate]. simpl.
      apply literal_spec in E'. intros H. exists r'. now split; [right|].
  - destruct (literal q s) as [r'|] eqn:E'; [|discriminate]. simpl.
    apply literal_spec in E'. intros H. exists r'. now split; [right|].
Qed.

Lemma bind_literal_inv {A : Type} (p : string) (k : string -> option A)
    (s : string) (m : A) :
  literal p s ≫= k = Some m -> exists r, s = p +:+ r /\ k r = Some m.
Proof.
  destruct (literal p s) as [r|] eqn:E; [|discriminate]. simpl.
  apply literal_spec in E. intros H. now exists r.
Qed.

Lemma url_tail_inv (s rest : string) :
  url_tail s = Some rest ->
  exists run, run <> "" /\ all_chars is_url_char run = true
              /\ s = run +:+ rest.
Proof.
  unfold url_tail. pose proof (span_app is_url_char s) as Happ.
  pose proof (span_all is_url_char s) as Hall.
  destruct (span is_url_char s) as [run r]. simpl in *.
  destruct run as [|c run]; [discriminate|]. intros [= <-].
  exists (String c run). now split.
Qed.

Ltac pick_prefix p run :=
  exists p, run; split; [cbn; tauto|split; [assumption|split; [assumption|reflexivity]]].

Ltac pick_any run :=
  first
    [ pick_prefix "http://notion.so/" run
    | pick_prefix "https://notion.so/" run
    | pick_prefix "http://www.notion.so/" run
    | pick_prefix "https://www.notion.so/" run
    | pick_prefix "http://notion.site/" run
    | pick_prefix "https://notion.site/" run
    | pick_prefix "http://www.notion.site/" run
    | pick_prefix "https://www.notion.site/" run
    | pick_prefix "http://docs.google.com/document/d/" run
    | pick_prefix "https://docs.google.com/document/d/" run
    | pick_prefix "http://docs.google.com/spreadsheets/d/" run
    | pick_prefix "https://docs.google.com/spreadsheets/d/" run ].

Lemma notion_here_shape (s rest : string) :
  notion_here s = Some rest -> match_shape s rest.
Proof.
  unfold notion_here, match_shape. intros H.
  apply bind_literal_inv in H as (r0 & -> & H).
  assert (forall r, (r ← literal "notion." r;
                     either "so" "site" (fun r => literal "/" r ≫= url_tail) r)
                    = Some rest ->
                    exists dom run, (dom = "so" \/ dom = "site") /\ run <> ""
                      /\ all_chars is_url_char run = true
                      /\ r = "notion." +:+ dom +:+ "/" +:+ run +:+ rest) as Hsite.
  { intros r Hr. apply bind_literal_inv in Hr as (r1 & -> & Hr).
    apply either_inv in Hr as (r2 & Hdom & Hr).
    apply bind_literal_inv in Hr as (r3 & -> & Hr).
    apply url_tail_inv in Hr as (run & Hne & Hall & ->).
    destruct Hdom as [-> | ->]; [exists "so", run|exists "site", run]; auto. }
  assert (forall r, (r ← literal "://" r;
                     optional "www."
                       (fun r => r ← literal "notion." r;
                          either "so" "site"
                            (fun r => literal "/" r ≫= url_tail) r) r)
                    = Some rest ->
                    exists www dom run,
                      (www = "" \/ www = "www.") /\ (dom = "so" \/ dom = "site")
                      /\ run <> "" /\ all_chars is_url_char run = true
                      /\ r = "://" +:+ www +:+ "notion." +:+ dom +:+ "/"
                             +:+ run +:+ rest) as Hhost.
  { intros r Hr. apply bind_literal_inv in Hr as (r1 & -> & Hr).
    apply optional_inv in Hr as [(r2 & -> & Hr)|Hr];
      apply Hsite in Hr as (dom & run & Hdom & Hne & Hall & ->).
    - exists "www.", dom, run. auto.
    - exists "", dom, run. auto. }
  apply optional_inv in H as [(r1 & -> & H)|H];
    apply Hhost in H as (www & dom & run & [-> | ->] & [-> | ->] & Hne & Hall & ->);
    pick_any run.
Qed.

Lemma gdocs_here_shape (s rest : string) :
  gdocs_here s = Some rest -> match_shape s rest.
Proof.
  unfold gdocs_here, match_shape. intros H.
  apply bind_literal_inv in H as (r0 & -> & H).
  assert (forall r, (r ← literal "://docs.google.com/" r;
                     either "document" "spreadsheets"
                       (fun r => literal "/d/" r ≫= url_tail) r)
                    = Some rest ->
                    exists kind run,
                      (kind = "document" \/ kind = "spreadsheets")
                      /\ run <> "" /\ all_chars is_url_char run = true
                      /\ r = "://docs.google.com/" +:+ kind +:+ "/d/"
                             +:+ run +:+ rest) as Hhost.
  { intros r Hr. apply bind_literal_inv in Hr as (r1 & -> & Hr).
    apply either_inv in Hr as (r2 & Hkind & Hr).
    apply bind_literal_inv in Hr as (r3 & -> & Hr).
    apply url_tail_inv in Hr as (run & Hne & Hall & ->).
    destruct Hkind as [-> | ->];
      [exists "document", run|exists "spreadsheets", run]; auto. }
  apply optional_inv in H as [(r1 & -> & H)|H];
    apply Hhost in H as (kind & run & [-> | ->] & Hne & Hall & ->);
    pick_any run.
Qed.

Lemma substring_prefix (a b : string) :
  substring 0 (String.length a) (a +:+ b) = a.
Proof.
  induction a as [|c a IH].
  - rewrite str_app_nil_l. now destruct b.
  - rewrite str_app_cons. simpl. now rewrite IH.
Qed.

Lemma findall_go_elem (here : string -> option string) (skip : nat)
    (s u : string) :
  u ∈ findall_go here skip s ->
  exists l post rest,
    s = l +:+ post /\ here post = Some rest
    /\ u = substring 0 (String.length post - String.length rest) post.
Proof.
  revert skip. induction s as [|c s IH]; intros skip Hu; [inversion Hu|].
  assert (forall k, u ∈ findall_go here k s ->
                    exists l post rest,
                      String c s = l +:+ post /\ here post = Some rest
                      /\ u = substring 0 (String.length post - String.length rest)
                               post) as Hrec.
  { intros k Hk. apply IH in Hk as (l & post & rest & -> & Hh & ->).
    exists (String c l), post, rest. now rewrite str_app_cons. }
  cbn [findall_go] in Hu. destruct skip as [|k]; [|now apply (Hrec k)].
  destruct (here (String c s)) as [rest|] eqn:E; [|now apply (Hrec 0)].
  apply elem_of_cons in Hu as [->|Hu]; [|now apply Hrec in Hu].
  exists "", (String c s), rest. now rewrite str_app_nil_l.
Qed.

Lemma shape_matched (post rest : string) :
  match_shape post rest ->
  exists p run, In p discovered_prefixes /\ run <> ""
                /\ all_chars is_url_char run = true
                /\ substring 0 (String.length post - String.length rest) post
                   = p +:+ run.
Proof.
  intros (p & run & Hp & Hne & Hall & ->). exists p, run.
  repeat split; try assumption.
  rewrite <- str_app_assoc. rewrite (str_length_app (p +:+ run) rest).
  replace (String.length (p +:+ run) + String.length rest - String.length rest)
    with (String.length (p +:+ run)) by lia.
  apply substring_prefix.
Qed.

Lemma last_char_cons2 (c d : ascii) (s : string) :
  last_char (String c (String d s)) = last_char (String d s).
Proof.
  change (last_char (String c (String d s)))
    with (match last_char (String d s) with
          | Some x => Some x
          | None => Some c
          end).
  destruct (last_char (String d s)) eqn:E; [reflexivity|].
  simpl in E. destruct (last_char s); discriminate.
Qed.

Lemma rstrip_chars_prefix (chars : ascii -> bool) (p r : string) :
  (exists c, last_char p = Some c /\ chars c = false) ->
  exists r', rstrip_chars chars (p +:+ r) = p +:+ r'.
Proof.
  induction p as [|c p IH]; intros (d & Hlast & Hd); [discriminate|].
  rewrite str_app_cons. cbn [rstrip_chars].
  destruct p as [|c' p].
  - rewrite str_app_nil_l. simpl in Hlast. injection Hlast as ->.
    rewrite Hd. destruct (rstrip_chars chars r) as [|x r'].
    + now exists "".
    + now exists (String x r').
  - destruct IH as [r' Hr'].
    { exists d. split; [|assumption]. now rewrite last_char_cons2 in Hlast. }
    rewrite Hr'. rewrite str_app_cons. exists r'. now rewrite !str_app_cons.
Qed.

Lemma all_chars_app (f : ascii -> bool) (a b : string) :
  all_chars f (a +:+ b) = all_chars f a && all_chars f b.
Proof.
  induction a as [|c a IH]; [now rewrite str_app_nil_l|].
  rewrite str_app_cons. simpl. rewrite IH. now rewrite andb_assoc.
Qed.

Lemma rstrip_chars_all (chars f : ascii -> bool) (u : string) :
  all_chars f u = true -> all_chars f (rstrip_chars chars u) = true.
Proof.
  induction u as [|c u IH]; [reflexivity|]. simpl.
  intros [Hc Hu]%andb_true_iff. specialize (IH Hu).
  destruct (rstrip_chars chars u) as [|x r].
  - destruct (chars c); [reflexivity|]. simpl. now rewrite Hc.
  - cbn [all_chars]. rewrite Hc. exact IH.
Qed.

Lemma rstrip_chars_last (chars : ascii -> bool) (u : string) (c : ascii) :
  last_char (rstrip_chars chars u) = Some c -> chars c = false.
Proof.
  induction u as [|d u IH]; [discriminate|]. cbn [rstrip_chars].
  destruct (rstrip_chars chars u) as [|x r].
  - destruct (chars d) eqn:E; [discriminate|]. simpl. now intros [= <-].
  - intros H. apply IH. now rewrite last_char_cons2 in H.
Qed.

Lemma prefixes_clean (p : string) :
  In p discovered_prefixes ->
  all_chars is_url_char p = true
  /\ exists c, last_char p = Some c /\ is_trailing c = false.
Proof.
  intros H. cbn in H.
  repeat (destruct H as [<-|H]; [split; [reflexivity|now exists "/"%char]|]).
  destruct H.
Qed.

(** What the inner loop sees: a discovered prefix followed by characters
    of the class, no trailing punctuation left. *)
Lemma found_urls_shape (content u : string) :
  u ∈ found_urls content ->
  discovered u = true
  /\ all_chars is_url_char u = true
  /\ forall c, last_char u = Some c -> is_trailing c = false.
Proof.
  unfold found_urls. intros (m & -> & Hm)%list_elem_of_fmap.
  assert (exists post rest, match_shape post rest
            /\ m = substring 0 (String.length post - String.length rest) post)
    as (post & rest & Hshape & ->).
  { apply elem_of_app in Hm as [Hm|Hm];
      apply findall_go_elem in Hm as (l & post & rest & _ & Hh & ->);
      exists post, rest; split; try reflexivity.
    - now apply notion_here_shape.
    - now apply gdocs_here_shape. }
  apply shape_matched in Hshape as (p & run & Hp & Hne & Hall & ->).
  destruct (prefixes_clean p Hp) as [Hpall Hplast].
  split; [|split].
  - destruct (rstrip_chars_prefix is_trailing p run Hplast) as [r' ->].
    unfold discovered. apply existsb_exists. exists p. split; [assumption|].
    apply starts_with_spec. now exists r'.
  - apply rstrip_chars_all. rewrite all_chars_app. now rewrite Hpall, Hall.
  - apply rstrip_chars_last.
Qed.

(** The dictionary only grows, and a key once present keeps its value. *)
Lemma add_url_subseteq (post : Post.t) (urls : gmap NormalizedKey UrlInfo)
    (u : string) :
  urls ⊆ add_url post urls u.
Proof.
  unfold add_url. destruct (urls !! normalize_url u) eqn:E; [reflexivity|].
  now apply insert_subseteq.
Qed.

Lemma add_urls_subseteq (post : Post.t) (us : list string)
    (urls : gmap NormalizedKey UrlInfo) :
  urls ⊆ foldl (add_url post) urls us.
Proof.
  revert urls. induction us as [|u us IH]; intros urls; [reflexivity|].
  simpl. etrans; [apply add_url_subseteq|apply IH].
Qed.

Lemma add_posts_subseteq (posts : list Post.t)
    (urls : gmap NormalizedKey UrlInfo) :
  urls ⊆ foldl add_post urls posts.
Proof.
  revert urls. induction posts as [|post posts IH]; intros urls; [reflexivity|].
  simpl. etrans; [apply add_urls_subseteq|apply IH].
Qed.

(** After the inner loop, an entry is an old one or comes from one of
    the URLs. *)
Lemma add_urls_lookup (post : Post.t) (us : list string)
    (urls : gmap NormalizedKey UrlInfo) (key : NormalizedKey) (info : UrlInfo) :
  foldl (add_url post) urls us !! key = Some info ->
  urls !! key = Some info
  \/ exists u, u ∈ us /\ key = normalize_url u /\ info = entry_of post u.
Proof.
  revert urls. induction us as [|u us IH]; intros urls H; [now left|].
  simpl in H. apply IH in H as [H|(u' & Hin & Hk & Hi)].
  - unfold add_url in H. destruct (urls !! normalize_url u) eqn:E; [now left|].
    apply lookup_insert_Some in H as [[<- <-]|[_ H]]; [|now left].
    right. exists u. split; [now left|now split].
  - right. exists u'. split; [now right|now split].
Qed.

Lemma add_urls_present (post : Post.t) (us : list string)
    (urls : gmap NormalizedKey UrlInfo) (u : string) :
  u ∈ us -> is_Some (foldl (add_url post) urls us !! normalize_url u).
Proof.
  revert urls. induction us as [|u' us IH]; intros urls Hin; [inversion Hin|].
  simpl. apply elem_of_cons in Hin as [->|Hin]; [|now apply IH].
  assert (is_Some (add_url post urls u' !! normalize_url u')) as [info Hinfo].
  { unfold add_url. destruct (urls !! normalize_url u') eqn:E.
    - rewrite E. eauto.
    - rewrite lookup_insert_eq. eauto. }
  exists info. eapply lookup_weaken; [exact Hinfo|apply add_urls_subseteq].
Qed.

Lemma add_urls_absent (post : Post.t) (us : list string)
    (urls : gmap NormalizedKey UrlInfo) (key : NormalizedKey) :
  urls !! key = None ->
  (forall u, u ∈ us -> normalize_url u <> key) ->
  foldl (add_url post) urls us !! key = None.
Proof.
  revert urls. induction us as [|u us IH]; intros urls Hno Hus; [exact Hno|].
  simpl. apply IH.
  - unfold add_url. destruct (urls !! normalize_url u) eqn:E; [exact Hno|].
    rewrite lookup_insert_ne; [exact Hno|]. apply Hus. now left.
  - intros u' Hu'. apply Hus. now right.
Qed.

Lemma add_posts_absent (posts : list Post.t)
    (urls : gmap NormalizedKey UrlInfo) (key : NormalizedKey) :
  urls !! key = None ->
  (forall u, mentioned posts u -> normalize_url u <> key) ->
  foldl add_post urls posts !! key = None.
Proof.
  revert urls. induction posts as [|post posts IH]; intros urls Hno Hus;
    [exact Hno|].
  simpl. apply IH.
  - apply add_urls_absent; [exact Hno|].
    intros u Hu. apply Hus. exists post. split; [now left|exact Hu].
  - intros u (post' & Hin & Hu). apply Hus. exists post'.
    split; [now right|exact Hu].
Qed.

Lemma add_posts_lookup (posts : list Post.t)
    (urls : gmap NormalizedKey UrlInfo) (key : NormalizedKey) (info : UrlInfo) :
  foldl add_post urls posts !! key = Some info ->
  urls !! key = Some info
  \/ exists post u, post ∈ posts /\ u ∈ found_urls (content_of post)
                    /\ key = normalize_url u /\ info = entry_of post u.
Proof.
  revert urls. induction posts as [|post posts IH]; intros urls H; [now left|].
  simpl in H. apply IH in H as [H|(post' & u & Hin & Hu & Hk & Hi)].
  - apply add_urls_lookup in H as [H|(u & Hu & Hk & Hi)]; [now left|].
    right. exists post, u. split; [now left|now repeat split].
  - right. exists post', u. split; [now right|now repeat split].
Qed.

Lemma add_posts_present (posts : list Post.t)
    (urls : gmap NormalizedKey UrlInfo) (u : string) :
  mentioned posts u -> is_Some (foldl add_post urls posts !! normalize_url u).
Proof.
  revert urls. induction posts as [|post posts IH]; intros urls (post' & Hin & Hu);
    [inversion Hin|].
  simpl. apply elem_of_cons in Hin as [->|Hin].
  - destruct (add_urls_present post (found_urls (content_of post)) urls u Hu)
      as [info Hinfo].
    exists info. eapply lookup_weaken; [exact Hinfo|apply add_posts_subseteq].
  - apply IH. now exists post'.
Qed.

End DiscoverFacts.

(** X18.  Every entry of the dictionary of referenced URLs comes from a
    post: its URL was found in the content of that post, it starts with
    one of the Notion or Google Docs prefixes the two patterns allow, the
    entry is filed under the normalized key of that very URL, and it
    carries the identifiers and the name of the post. *)
Theorem db_urls_from_posts (posts : list Discover.Post.t)
    (key : NormalizedKey) (info : UrlInfo) :
  Discover.get_db_resource_urls posts !! key = Some info ->
  exists post u,
    post ∈ posts
    /\ u ∈ Discover.found_urls (Discover.content_of post)
    /\ info = Discover.entry_of post u
    /\ key = normalize_url u
    /\ discovered u = true.
Proof.
  unfold Discover.get_db_resource_urls. intros H.
  apply add_posts_lookup in H as [H|(post & u & Hin & Hu & Hk & Hi)].
  - now rewrite lookup_empty in H.
  - exists post, u. repeat split; try assumption.
    now apply found_urls_shape in Hu as [Hd _].
Qed.

Lemma db_urls_from_posts_witness :
  exists post u,
    post ∈ [ {| Discover.Post.content := Some "Kit (https://www.notion.so/Kit-0123456789abcdef0123456789abcdef).";
                Discover.Post.asset_id := "a1";
                Discover.Post.project_id := "p1";
                Discover.Post.name := "Post one" |} ]
    /\ u ∈ Discover.found_urls (Discover.content_of post)
    /\ {| info_url := "https://www.notion.so/Kit-0123456789abcdef0123456789abcdef";
          post_asset_id := "a1"; project_id := "p1"; post_name := "Post one" |}
       = Discover.entry_of post u
    /\ ("notion", "0123456789abcdef0123456789abcdef") = normalize_url u
    /\ discovered u = true.
Proof. apply db_urls_from_posts. reflexivity. Defined.

(** X19.  The first mention wins: when a URL is found in a post, no post
    before it mentions a URL with the same key and no earlier URL of the
    same post has that key, the dictionary files this URL and this post
    under the key, whatever comes later. *)
Theorem first_mention_wins (before after : list Discover.Post.t)
    (post : Discover.Post.t) (us1 us2 : list string) (u : string) :
  Discover.found_urls (Discover.content_of post) = us1 ++ u :: us2 ->
  (forall u', Discover.mentioned before u' ->
              normalize_url u' <> normalize_url u) ->
  (forall u', u' ∈ us1 -> normalize_url u' <> normalize_url u) ->
  Discover.get_db_resource_urls (before ++ post :: after) !! normalize_url u
  = Some (Discover.entry_of post u).
Proof.
  intros Hfound Hbefore Hus1. unfold Discover.get_db_resource_urls.
  rewrite foldl_app. cbn [foldl].
  eapply lookup_weaken; [|apply add_posts_subseteq].
  unfold Discover.add_post at 1. rewrite Hfound, foldl_app. cbn [foldl].
  eapply lookup_weaken; [|apply add_urls_subseteq].
  unfold Discover.add_url at 1.
  rewrite add_urls_absent.
  - now rewrite lookup_insert_eq.
  - apply add_posts_absent; [apply lookup_empty|exact Hbefore].
  - exact Hus1.
Qed.

Lemma first_mention_wins_witness :
  Discover.get_db_resource_urls
    ([] ++ {| Discover.Post.content :=
                Some "https://notion.so/A-0123456789abcdef0123456789abcdef then https://www.notion.so/B-0123456789abcdef0123456789abcdef";
              Discover.Post.asset_id := "a1";
              Discover.Post.project_id := "p1";
              Discover.Post.name := "Post one" |} :: [])
    !! normalize_url "https://notion.so/A-0123456789abcdef0123456789abcdef"
  = Some (Discover.entry_of
            {| Discover.Post.content :=
                 Some "https://notion.so/A-0123456789abcdef0123456789abcdef then https://www.notion.so/B-0123456789abcdef0123456789abcdef";
               Discover.Post.asset_id := "a1";
               Discover.Post.project_id := "p1";
               Discover.Post.name := "Post one" |}
            "https://notion.so/A-0123456789abcdef0123456789abcdef").
Proof.
  apply (first_mention_wins [] [] _ []
           ["https://www.notion.so/B-0123456789abcdef0123456789abcdef"]).
  - reflexivity.
  - intros u' (post' & Hin & _). inversion Hin.
  - intros u' Hin. inversion Hin.
Defined.

(** X20.  The keys of the dictionary of referenced URLs are exactly the
    normalized keys of the URLs found in the posts: no mention is
    dropped and no key is made up. *)
Theorem db_urls_keys (posts : list Discover.Post.t) (key : NormalizedKey) :
  is_Some (Discover.get_db_resource_urls posts !! key)
  <-> exists u, Discover.mentioned posts u /\ key = normalize_url u.
Proof.
  unfold Discover.get_db_resource_urls. split.
  - intros [info H].
    apply add_posts_lookup in H as [H|(post & u & Hin & Hu & Hk & Hi)].
    + now rewrite lookup_empty in H.
    + exists u. split; [now exists post|assumption].
  - intros (u & Hm & ->). now apply add_posts_present.
Qed.

(** X21.  A URL handed to the loop holds no whitespace, closing
    parenthesis, double quote, [>] or closing bracket, and does not end
    with a closing parenthesis, a full stop, a comma or a semicolon. *)
Theorem found_urls_clean (content u : string) :
  u ∈ Discover.found_urls content ->
  all_chars Discover.is_url_char u = true
  /\ forall c, last_char u = Some c -> Discover.is_trailing c = false.
Proof. intros H. now apply found_urls_shape in H as (_ & Hall & Hlast). Qed.

Lemma found_urls_clean_witness :
  all_chars Discover.is_url_char "https://docs.google.com/document/d/abc" = true
  /\ forall c, last_char "https://docs.google.com/document/d/abc" = Some c ->
               Discover.is_trailing c = false.
Proof.
  apply (found_urls_clean "Read (https://docs.google.com/document/d/abc).").
  vm_compute. repeat constructor.
Defined.

Section Lines.

Lemma split_shape (s : string) :
  split nl s = first_line s :: tl (split nl s).
Proof.
  unfold first_line. pose proof (split_not_nil s) as H.
  now destruct (split nl s).
Qed.

Lemma split_nl_cons (s : string) : split nl (String nl s) = "" :: split nl s.
Proof. reflexivity. Qed.

Lemma split_other_cons (c : ascii) (s : string) :
  is_nl c = false ->
  split nl (String c s) = String c (first_line s) :: tl (split nl s).
Proof.
  unfold is_nl. intros Hc. cbn [split]. rewrite Hc.
  now rewrite (split_shape s).
Qed.

Lemma contains_nl_cons (c : ascii) (s : string) :
  contains NL (String c s) = is_nl c || contains NL s.
Proof.
  rewrite contains_cons. unfold NL, is_nl. cbn [starts_with].
  rewrite Ascii.eqb_sym. now destruct (c =? nl)%char, s.
Qed.

Lemma split_no_nl (s : string) :
  Forall (fun l => contains NL l = false) (split nl s).
Proof.
  induction s as [|c s IH]; [now repeat constructor|].
  destruct (is_nl c) eqn:Hc.
  - unfold is_nl in Hc. apply Ascii.eqb_eq in Hc as ->.
    rewrite split_nl_cons. now constructor.
  - rewrite split_other_cons by assumption. rewrite split_shape in IH.
    inversion IH as [|? ? H1 H2]; subst. constructor; [|assumption].
    now rewrite contains_nl_cons, Hc.
Qed.

Lemma split_one_line (l : string) :
  contains NL l = false -> split nl l = [l].
Proof.
  induction l as [|c l IH]; [reflexivity|].
  rewrite contains_nl_cons. intros [Hc Hl]%orb_false_iff.
  rewrite split_other_cons by assumption.
  unfold first_line. now rewrite IH.
Qed.

(** Splitting the joined lines gives the lines back. *)
Lemma split_join (ls : list string) :
  ls <> [] -> Forall (fun l => contains NL l = false) ls ->
  split nl (join NL ls) = ls.
Proof.
  induction ls as [|l ls IH]; [congruence|]. intros _ Hall.
  inversion Hall as [|? ? Hl Hls]; subst.
  destruct ls as [|l' ls].
  - simpl. now apply split_one_line.
  - rewrite join_cons by discriminate. rewrite split_line by assumption.
    now rewrite IH.
Qed.

(** Collapsing the runs of newlines only removes empty lines. *)
Lemma squeeze_lines (s : string) :
  (first_line (squeeze 0 s) = first_line s
   /\ forall L, L ∈ tl (split nl (squeeze 0 s)) -> L ∈ tl (split nl s))
  /\ (forall k L, 1 <= k -> L ∈ split nl (squeeze k s) -> L ∈ split nl s).
Proof.
  induction s as [|c s [[IH0 IH0'] IH1]]; [now split|].
  destruct (is_nl c) eqn:Hc.
  - assert (c = nl) as -> by (now apply Ascii.eqb_eq).
    split; [split|].
    + reflexivity.
    + cbn [squeeze]. rewrite Hc. simpl Nat.ltb. cbn iota.
      rewrite !split_nl_cons. cbn [tl]. intros L. apply (IH1 1). lia.
    + intros k L Hk. cbn [squeeze]. rewrite Hc.
      rewrite split_nl_cons. destruct (k <? 2)%nat.
      * rewrite split_nl_cons. intros [->|HL]%elem_of_cons; [now left|].
        right. apply (IH1 (S k)); [lia|assumption].
      * intros HL. right. apply (IH1 (S k)); [lia|assumption].
  - assert (forall k, split nl (squeeze k (String c s))
                      = String c (first_line s) :: tl (split nl (squeeze 0 s)))
      as Hsq.
    { intros k. cbn [squeeze]. rewrite Hc. rewrite split_other_cons by assumption.
      now rewrite IH0. }
    rewrite split_other_cons by assumption.
    split; [split|].
    + unfold first_line at 1 2. rewrite Hsq.
      now rewrite split_other_cons by assumption.
    + rewrite Hsq. exact IH0'.
    + intros k L _. rewrite Hsq.
      intros [->|HL]%elem_of_cons; [now left|]. right. now apply IH0'.
Qed.

Lemma collapse_lines (s L : string) :
  L ∈ split nl (collapse_newlines s) -> L ∈ split nl s.
Proof.
  rewrite collapse_squeeze. destruct (squeeze_lines s) as [[H0 H0'] _].
  rewrite (split_shape (squeeze 0 s)), (split_shape s), H0.
  intros [->|HL]%elem_of_cons; [now left|]. right. now apply H0'.
Qed.

End Lines.

Section StripLines.

Import Text.

Lemma is_space_nl : is_space nl = true.
Proof. reflexivity. Qed.

Lemma not_space_not_nl (c : ascii) : is_space c = false -> is_nl c = false.
Proof.
  intros H. unfold is_nl. destruct (Ascii.eqb_spec c nl) as [->|]; [|reflexivity].
  now rewrite is_space_nl in H.
Qed.

Lemma lstrip_cons (c : ascii) (s : string) :
  lstrip (String c s) = if is_space c then lstrip s else String c s.
Proof.
  unfold lstrip, drop_while. cbn [span]. destruct (is_space c); [|reflexivity].
  now destruct (span is_space s).
Qed.

(** A line of the text stripped on the left is the end of a line of the
    text, after whitespace. *)
Lemma lstrip_lines (t L : string) :
  L ∈ split nl (lstrip t) ->
  exists L' w, L' ∈ split nl t /\ blank w = true /\ L' = w +:+ L.
Proof.
  induction t as [|c t IH]; intros HL.
  - exists L, "". now rewrite str_app_nil_l.
  - rewrite lstrip_cons in HL. destruct (is_space c) eqn:Hc.
    + destruct (IH HL) as (L' & w & Hin & Hw & ->).
      destruct (is_nl c) eqn:Hnl.
      * assert (c = nl) as -> by (now apply Ascii.eqb_eq).
        exists (w +:+ L), w. rewrite split_nl_cons. split; [now right|now split].
      * rewrite split_other_cons by assumption.
        rewrite split_shape in Hin. apply elem_of_cons in Hin as [Hin|Hin].
        -- exists (String c (w +:+ L)), (String c w). rewrite <- Hin.
           split; [now left|]. split; [|now rewrite str_app_cons].
           unfold blank in *. simpl. now rewrite Hc.
        -- exists (w +:+ L), w. split; [now right|now split].
    + exists L, "". now rewrite str_app_nil_l.
Qed.

Lemma rstrip_cons (c : ascii) (s : string) :
  rstrip (String c s)
  = match rstrip s with
    | "" => if is_space c then "" else String c ""
    | r => String c r
    end.
Proof. reflexivity. Qed.

(** The lines of the text stripped on the right are the first lines of
    the text, the last of them without the whitespace that ends it. *)
Lemma rstrip_lines (t : string) :
  (exists w, blank w = true /\ first_line t = first_line (rstrip t) +:+ w)
  /\ (forall L, L ∈ tl (split nl (rstrip t)) ->
        exists L' w, L' ∈ tl (split nl t) /\ blank w = true /\ L' = L +:+ w).
Proof.
  induction t as [|c t [(w0 & Hw0 & Hfirst) IHtl]].
  { split; [now exists ""|]. intros L HL. inversion HL. }
  assert (forall L, L ∈ split nl (rstrip t) ->
            exists L' w, L' ∈ split nl t /\ blank w = true /\ L' = L +:+ w)
    as IHall.
  { intros L HL. rewrite split_shape in HL.
    apply elem_of_cons in HL as [->|HL].
    - exists (first_line t), w0. rewrite (split_shape t) at 1.
      split; [now left|now split].
    - destruct (IHtl L HL) as (L' & w & Hin & Hw & ->).
      exists (L +:+ w), w. rewrite split_shape. split; [now right|now split]. }
  rewrite rstrip_cons. destruct (rstrip t) as [|x r] eqn:Hr.
  - change (first_line "") with "" in Hfirst. rewrite str_app_nil_l in Hfirst.
    destruct (is_space c) eqn:Hc.
    + split; [|intros L HL; inversion HL].
      change (first_line "") with "".
      destruct (is_nl c) eqn:Hnl.
      * assert (c = nl) as -> by (now apply Ascii.eqb_eq). now exists "".
      * exists (String c w0). unfold first_line at 1.
        rewrite split_other_cons by assumption. rewrite Hfirst.
        split; [|reflexivity]. unfold blank in *. simpl. now rewrite Hc.
    + pose proof (not_space_not_nl c Hc) as Hnl.
      split; [|rewrite split_other_cons by assumption; intros L HL; inversion HL].
      exists w0. split; [assumption|]. unfold first_line at 1 2.
      rewrite !split_other_cons by assumption. simpl. now rewrite Hfirst.
  - destruct (is_nl c) eqn:Hnl.
    + assert (c = nl) as -> by (now apply Ascii.eqb_eq).
      rewrite !split_nl_cons. split; [now exists ""|]. cbn [tl]. exact IHall.
    + unfold first_line at 1 2. rewrite !split_other_cons by assumption.
      cbn [hd tl]. split; [|exact IHtl].
      exists w0. split; [assumption|]. now rewrite Hfirst, str_app_cons.
Qed.

(** A line of the stripped text is a line of the text without the
    whitespace around it. *)
Lemma strip_lines (t L : string) :
  L ∈ split nl (strip t) -> exists L', L' ∈ split nl t /\ padded L' L.
Proof.
  unfold strip. intros HL.
  assert (exists L1 w', L1 ∈ split nl (lstrip t) /\ blank w' = true
                        /\ L1 = L +:+ w') as (L1 & w' & H1 & Hw' & ->).
  { destruct (rstrip_lines (lstrip t)) as [(w0 & Hw0 & Hfirst) Htl].
    rewrite split_shape in HL. apply elem_of_cons in HL as [->|HL].
    - exists (first_line (lstrip t)), w0. rewrite (split_shape (lstrip t)) at 1.
      split; [now left|now split].
    - destruct (Htl L HL) as (L' & w & Hin & Hw & ->).
      exists (L +:+ w), w. rewrite split_shape. split; [now right|now split]. }
  apply lstrip_lines in H1 as (L' & w & Hin & Hw & ->).
  exists (w +:+ L +:+ w'). split; [assumption|]. now exists w, w'.
Qed.

End StripLines.

Section Padding.

Import Text.

Lemma blank_app (a b : string) : blank (a +:+ b) = blank a && blank b.
Proof. apply all_chars_app. Qed.

Lemma spaces_end_blank (r : string) :
  spaces_then at_end r = true <-> blank r = true.
Proof.
  unfold blank. induction r as [|c r IH]; [now split|]. cbn [spaces_then all_chars].
  destruct (is_space c) eqn:Hc.
  - rewrite orb_true_iff, IH. simpl. split; [|now left].
    intros [H|H]; [assumption|]. destruct r; [reflexivity|discriminate].
  - simpl. split; [|discriminate]. destruct r; [|discriminate].
    intros H. apply Ascii.eqb_eq in H as ->. now rewrite is_space_nl in Hc.
Qed.

Lemma closed_anywhere : pad_closed anywhere.
Proof. now intros r w _ _. Qed.

Lemma closed_spaces_end : pad_closed (spaces_then at_end).
Proof.
  intros r w Hw Hr. apply spaces_end_blank. rewrite blank_app.
  apply spaces_end_blank in Hr. now rewrite Hr, Hw.
Qed.

Lemma iliteral_app (p r r' w : string) :
  iliteral p r = Some r' -> iliteral p (r +:+ w) = Some (r' +:+ w).
Proof.
  revert r. induction p as [|a p IH]; intros r; cbn [iliteral].
  - now intros [= ->].
  - destruct r as [|b r]; [discriminate|]. rewrite str_app_cons.
    destruct (ieq a b); [apply IH|discriminate].
Qed.

Lemma closed_lit (p : string) (k : string -> bool) :
  pad_closed k -> pad_closed (lit p k).
Proof.
  intros Hk r w Hw. unfold lit. destruct (iliteral p r) as [r'|] eqn:E;
    [|discriminate].
  rewrite (iliteral_app _ _ _ w E). now apply Hk.
Qed.

Lemma closed_opt_char (p : ascii) (k : string -> bool) :
  pad_closed k -> pad_closed (opt_char p k).
Proof.
  intros Hk r w Hw. destruct r as [|c r].
  - rewrite str_app_nil_l. simpl. intros H. apply (Hk "" w Hw) in H.
    rewrite str_app_nil_l in H. destruct w; [assumption|].
    simpl. rewrite H. apply orb_true_r.
  - rewrite str_app_cons. cbn [opt_char].
    intros [[Hc H]%andb_true_iff|H]%orb_true_iff.
    + rewrite Hc. now rewrite (Hk r w Hw H).
    + apply (Hk _ w Hw) in H. rewrite str_app_cons in H. rewrite H.
      apply orb_true_r.
Qed.

Lemma closed_any_char (k : string -> bool) :
  pad_closed k -> pad_closed (any_char k).
Proof.
  intros Hk r w Hw. destruct r as [|c r]; [discriminate|].
  rewrite str_app_cons. cbn [any_char].
  intros [Hc H]%andb_true_iff. now rewrite Hc, (Hk r w Hw H).
Qed.

Lemma closed_space (k : string -> bool) : pad_closed k -> pad_closed (space k).
Proof.
  intros Hk r w Hw. destruct r as [|c r]; [discriminate|].
  rewrite str_app_cons. cbn [space].
  intros [Hc H]%andb_true_iff. now rewrite Hc, (Hk r w Hw H).
Qed.

Lemma spaces_then_now (k : string -> bool) (s : string) :
  k s = true -> spaces_then k s = true.
Proof.
  intros H. destruct s as [|c s]; [assumption|]. cbn [spaces_then].
  rewrite H. destruct (is_space c); [apply orb_true_r|reflexivity].
Qed.

Lemma closed_spaces_then (k : string -> bool) :
  pad_closed k -> pad_closed (spaces_then k).
Proof.
  intros Hk r w Hw. induction r as [|c r IH].
  - intros H. apply spaces_then_now. now apply Hk.
  - rewrite str_app_cons. cbn [spaces_then]. destruct (is_space c).
    + intros [H|H]%orb_true_iff.
      * now rewrite IH.
      * apply (Hk _ w Hw) in H. rewrite str_app_cons in H. rewrite H.
        apply orb_true_r.
    + intros H. apply (Hk _ w Hw) in H. now rewrite str_app_cons in H.
Qed.

Lemma spaces_then_lead (k : string -> bool) (w s : string) :
  blank w = true -> spaces_then k s = true -> spaces_then k (w +:+ s) = true.
Proof.
  unfold blank. intros Hw Hs. induction w as [|c w IH].
  - now rewrite str_app_nil_l.
  - simpl in Hw. apply andb_true_iff in Hw as [Hc Hw].
    rewrite str_app_cons. cbn [spaces_then]. rewrite Hc. now rewrite IH.
Qed.

Lemma skip_patterns_closed :
  Forall (fun p => exists k, p = spaces_then k /\ pad_closed k) skip_patterns.
Proof.
  unfold skip_patterns.
  repeat (apply Forall_cons; split;
          [eexists; split; [reflexivity|];
           repeat first [ apply closed_lit | apply closed_opt_char
                        | apply closed_any_char | apply closed_space
                        | apply closed_spaces_end | apply closed_anywhere ]|]).
  apply Forall_nil. exact I.
Qed.

(** A chrome line is still one with whitespace around it. *)
Lemma chrome_padded (line core : string) :
  padded line core -> is_chrome_line core = true -> is_chrome_line line = true.
Proof.
  intros (w & w' & Hw & Hw' & ->). unfold is_chrome_line.
  pose proof skip_patterns_closed as Hall.
  induction Hall as [|p ps (k & -> & Hk) _ IH]; [discriminate|].
  cbn [existsb]. intros [H|H]%orb_true_iff.
  - apply orb_true_iff. left. apply spaces_then_lead; [assumption|].
    now apply closed_spaces_then.
  - apply orb_true_iff. right. now apply IH.
Qed.

Lemma padded_empty (core : string) : padded "" core -> core = "".
Proof.
  intros (w & w' & _ & _ & H). destruct w; [|discriminate].
  rewrite str_app_nil_l in H. now destruct core.
Qed.

End Padding.

(** X22.  No line of page chrome survives the normalizer: whatever the
    HTML parser and the markdown converter produce, no line of the
    result of [html_to_markdown] matches one of [skip_patterns]. *)
Theorem chrome_lines_dropped (bs4 : option (string -> list node))
    (soup_to_html : list node -> string)
    (markdownify : option (string -> string))
    (html : string) (code_block_texts : list string) (line : string) :
  line ∈ split nl (html_to_markdown (Text.libs bs4 soup_to_html markdownify)
                     html code_block_texts) ->
  Text.is_chrome_line line = false.
Proof.
  unfold html_to_markdown, final_cleanup. cbn [Text.libs is_chrome_line].
  set (result := match _ with Some md => _ | None => _ end).
  set (cleaned := List.filter _ (split nl result)).
  intros (L' & HL' & Hpad)%strip_lines. apply collapse_lines in HL'.
  destruct (Text.is_chrome_line line) eqn:Hline; [|reflexivity].
  pose proof (chrome_padded L' line Hpad Hline) as Hchrome.
  destruct cleaned as [|l ls] eqn:Hcleaned.
  - simpl in HL'. apply list_elem_of_singleton in HL' as ->.
    apply padded_empty in Hpad as ->. discriminate Hline.
  - rewrite split_join in HL'.
    + rewrite <- Hcleaned in HL'. apply list_elem_of_In in HL'.
      apply List.filter_In in HL' as [_ HL']. now rewrite Hchrome in HL'.
    + discriminate.
    + rewrite <- Hcleaned. apply List.Forall_forall. intros x Hx.
      apply List.filter_In in Hx as [Hx _].
      pose proof (split_no_nl result) as Hall.
      rewrite List.Forall_forall in Hall. now apply Hall.
Qed.

Lemma chrome_lines_dropped_witness :
  Text.is_chrome_line "Hello" = false.
Proof.
  apply (chrome_lines_dropped None (fun _ => "") (Some (fun html => html))
           ("  skip to content" +:+ NL +:+ "Hello" +:+ NL +:+ "Share ") []).
  vm_compute. repeat constructor.
Defined.

Section TextFacts.

Import Text.

Lemma all_chars_strip (f : ascii -> bool) (s : string) :
  all_chars f s = true -> all_chars f (strip s) = true.
Proof.
  destruct (strip_substring s) as (pre & post & H). intros Hs.
  rewrite H, !all_chars_app in Hs.
  now apply andb_true_iff in Hs as [_ [Hs _]%andb_true_iff].
Qed.

Lemma all_chars_squeeze (f : ascii -> bool) (s : string) (k : nat) :
  all_chars f s = true -> all_chars f (squeeze k s) = true.
Proof.
  revert k. induction s as [|c s IH]; intros k; [reflexivity|].
  cbn [all_chars squeeze]. intros [Hc Hs]%andb_true_iff.
  destruct (is_nl c); [destruct (k <? 2)%nat|]; cbn [all_chars];
    rewrite ?Hc; simpl; now apply IH.
Qed.

Lemma take_while_zero (s : string) :
  String.length (take_while is_space s) = 0 ->
  match s with String c _ => is_space c = false | "" => True end.
Proof.
  destruct s as [|c s]; [easy|]. unfold take_while. cbn [span].
  destruct (is_space c); [|reflexivity]. now destruct (span is_space s).
Qed.

Lemma take_while_succ (c : ascii) (s : string) (n : nat) :
  String.length (take_while is_space (String c s)) = S n ->
  is_space c = true /\ String.length (take_while is_space s) = n.
Proof.
  unfold take_while. cbn [span]. destruct (is_space c); [|discriminate].
  destruct (span is_space s). simpl. intros [= H]. now split.
Qed.

(** After [re.sub(r"\s+", " ", text)] a whitespace character is a plain
    space. *)
Lemma collapse_spaces_plain (s : string) (skip : nat) :
  all_chars plain_space (sub_go spaces_here " " skip s) = true.
Proof.
  revert skip. induction s as [|c s IH]; intros skip; [reflexivity|].
  cbn [sub_go]. destruct skip as [|k]; [|apply IH].
  unfold spaces_here.
  destruct (String.length (take_while is_space (String c s))) as [|n] eqn:E.
  - apply take_while_zero in E. cbn [all_chars]. rewrite IH.
    unfold plain_space. now rewrite E.
  - rewrite all_chars_app. now rewrite IH.
Qed.

Lemma replace_go_all (f : ascii -> bool) (old new : string) (skip : nat)
    (s : string) :
  all_chars f new = true -> all_chars f s = true ->
  all_chars f (replace_go old new skip s) = true.
Proof.
  intros Hnew. revert skip. induction s as [|c s IH]; intros skip; [reflexivity|].
  cbn [all_chars replace_go]. intros [Hc Hs]%andb_true_iff.
  destruct skip as [|k]; [|now apply IH].
  destruct (starts_with old (String c s)).
  - rewrite all_chars_app, Hnew. now apply IH.
  - cbn [all_chars]. rewrite Hc. now apply IH.
Qed.

Lemma entities_all (f : ascii -> bool) (es : list (string * string))
    (text : string) :
  Forall (fun e => all_chars f e.2 = true) es ->
  all_chars f text = true -> all_chars f (foldl replace text es) = true.
Proof.
  intros Hes. revert text. induction Hes as [|e es He _ IH]; intros text Ht;
    [assumption|].
  cbn [foldl]. apply IH. unfold replace. now apply replace_go_all.
Qed.

Lemma plain_no_nl (s : string) :
  all_chars plain_space s = true -> contains NL s = false.
Proof.
  induction s as [|c s IH]; [reflexivity|]. cbn [all_chars].
  intros [Hc Hs]%andb_true_iff. rewrite contains_nl_cons, (IH Hs).
  unfold is_nl. destruct (Ascii.eqb_spec c nl) as [->|]; [discriminate Hc|reflexivity].
Qed.

(** A pattern that matches nowhere leaves the text as it is. *)
Lemma sub_go_nowhere (m : string -> option nat) (repl s : string) :
  (forall l t, s = l +:+ t -> m t = None) -> sub_go m repl 0 s = s.
Proof.
  induction s as [|c s IH]; intros H; [reflexivity|]. cbn [sub_go].
  rewrite (H "" (String c s)) by now rewrite str_app_nil_l.
  rewrite IH; [reflexivity|]. intros l t ->.
  apply (H (String c l)). now rewrite str_app_cons.
Qed.

Lemma replace_go_nowhere (old new s : string) :
  (forall l t, s = l +:+ t -> starts_with old t = false) ->
  replace_go old new 0 s = s.
Proof.
  induction s as [|c s IH]; intros H; [reflexivity|]. cbn [replace_go].
  rewrite (H "" (String c s)) by now rewrite str_app_nil_l.
  rewrite IH; [reflexivity|]. intros l t ->.
  apply (H (String c l)). now rewrite str_app_cons.
Qed.

Lemma not_contains_suffix (p l t : string) :
  contains p (l +:+ t) = false -> starts_with p t = false.
Proof.
  intros H. destruct (starts_with p t) eqn:E; [|reflexivity].
  apply starts_with_spec in E as [r ->].
  assert (contains p (l +:+ p +:+ r) = true) as Hc
    by (apply contains_spec; now exists l, r).
  congruence.
Qed.

Lemma ieq_lt (b : ascii) : ieq "<" b = true -> b = "<"%char.
Proof.
  unfold ieq. intros H. apply Ascii.eqb_eq in H.
  destruct b as [[] [] [] [] [] [] [] []]; vm_compute in H; congruence.
Qed.

Lemma element_here_lt (tag t : string) (n : nat) :
  element_here tag t = Some n -> starts_with "<" t = true.
Proof.
  unfold element_here. change ("<" +:+ tag) with (String "<" tag).
  cbn [iliteral].
  destruct t as [|b t]; [discriminate|].
  destruct (ieq "<" b) eqn:E; [|discriminate]. intros _.
  apply ieq_lt in E as ->. reflexivity.
Qed.

Lemma tag_here_lt (t : string) (n : nat) :
  tag_here t = Some n -> starts_with "<" t = true.
Proof.
  unfold tag_here. destruct t as [|b t]; [discriminate|]. cbn [literal].
  destruct (Ascii.eqb_spec "<" b) as [<-|]; [reflexivity|discriminate].
Qed.

Lemma remove_elements_plain (html tag : string) :
  contains "<" html = false -> remove_elements html tag = html.
Proof.
  intros H. unfold remove_elements, sub. apply sub_go_nowhere. intros l t ->.
  apply not_contains_suffix in H.
  destruct (element_here tag t) eqn:E; [|reflexivity].
  apply element_here_lt in E. congruence.
Qed.

Lemma remove_tags_plain (html : string) (tags : list string) :
  contains "<" html = false -> foldl remove_elements html tags = html.
Proof.
  intros H. induction tags as [|tag tags IH]; [reflexivity|].
  cbn [foldl]. now rewrite remove_elements_plain.
Qed.

Lemma replace_plain (text : string) (e : string * string) :
  contains "&" text = false -> starts_with "&" e.1 = true ->
  replace text e = text.
Proof.
  intros H He. unfold replace. apply replace_go_nowhere. intros l t ->.
  apply not_contains_suffix in H.
  destruct (starts_with e.1 t) eqn:E; [|reflexivity].
  apply starts_with_spec in He as [r1 Hr1]. apply starts_with_spec in E as [r2 ->].
  rewrite Hr1 in H. rewrite str_app_cons, str_app_nil_l in H.
  rewrite str_app_cons in H. simpl in H. discriminate.
Qed.

Lemma filter_out_app (f : ascii -> bool) (a b : string) :
  filter_out f (a +:+ b) = filter_out f a +:+ filter_out f b.
Proof.
  induction a as [|c a IH]; [now rewrite !str_app_nil_l|].
  rewrite str_app_cons. cbn [filter_out]. destruct (f c); [assumption|].
  now rewrite str_app_cons, IH.
Qed.

Lemma filter_out_lstrip (s : string) :
  filter_out is_space (lstrip s) = filter_out is_space s.
Proof.
  induction s as [|c s IH]; [reflexivity|]. rewrite lstrip_cons.
  cbn [filter_out]. destruct (is_space c) eqn:E; [assumption|].
  cbn [filter_out]. now rewrite E.
Qed.

Lemma filter_out_rstrip (s : string) :
  filter_out is_space (rstrip s) = filter_out is_space s.
Proof.
  induction s as [|c s IH]; [reflexivity|]. rewrite rstrip_cons.
  cbn [filter_out]. rewrite <- IH. destruct (rstrip s) as [|x r].
  - destruct (is_space c) eqn:E; [reflexivity|]. cbn [filter_out]. now rewrite E.
  - cbn [filter_out]. reflexivity.
Qed.

Lemma filter_out_collapse (s : string) (skip : nat) :
  skip <= String.length (take_while is_space s) ->
  filter_out is_space (sub_go spaces_here " " skip s) = filter_out is_space s.
Proof.
  revert skip. induction s as [|c s IH]; intros skip Hskip; [reflexivity|].
  cbn [sub_go]. destruct skip as [|k].
  - unfold spaces_here.
    destruct (String.length (take_while is_space (String c s))) as [|n] eqn:E.
    + apply take_while_zero in E. cbn [filter_out]. rewrite E.
      rewrite IH by lia. reflexivity.
    + apply take_while_succ in E as [Hc Hn]. cbn [filter_out]. rewrite Hc.
      rewrite filter_out_app. simpl. rewrite str_app_nil_l.
      apply IH. lia.
  - destruct (String.length (take_while is_space (String c s))) as [|n] eqn:E;
      [lia|].
    apply take_while_succ in E as [Hc Hn]. cbn [filter_out]. rewrite Hc.
    apply IH. lia.
Qed.

Lemma sub_go_all (f : ascii -> bool) (m : string -> option nat)
    (repl s : string) (skip : nat) :
  all_chars f repl = true -> all_chars f s = true ->
  all_chars f (sub_go m repl skip s) = true.
Proof.
  intros Hrepl. revert skip. induction s as [|c s IH]; intros skip; [reflexivity|].
  cbn [all_chars sub_go]. intros [Hc Hs]%andb_true_iff.
  destruct skip as [|k]; [|now apply IH].
  destruct (m (String c s)).
  - rewrite all_chars_app, Hrepl. now apply IH.
  - cbn [all_chars]. rewrite Hc. now apply IH.
Qed.

Lemma contains_char (a : ascii) (s : string) :
  contains (String a "") s = false
  <-> all_chars (fun c => negb (c =? a)%char) s = true.
Proof.
  induction s as [|c s IH]; [now split|].
  rewrite contains_cons. cbn [starts_with all_chars].
  rewrite orb_false_iff, andb_true_iff, IH, (Ascii.eqb_sym a c).
  destruct (c =? a)%char, s; simpl; intuition congruence.
Qed.

(** Without markup and entities only the whitespace is rewritten. *)
Lemma html_to_text_plain (html : string) :
  contains "<" html = false -> contains "&" html = false ->
  html_to_text html = strip (sub spaces_here " " html).
Proof.
  intros Hlt Hamp. unfold html_to_text.
  rewrite remove_tags_plain by assumption.
  assert (sub tag_here " " html = html) as ->.
  { unfold sub. apply sub_go_nowhere. intros l t ->.
    apply not_contains_suffix in Hlt.
    destruct (tag_here t) eqn:E; [|reflexivity].
    apply tag_here_lt in E. congruence. }
  set (text := strip _).
  assert (contains "&" text = false) as Htext.
  { apply contains_char. apply all_chars_strip. apply sub_go_all; [reflexivity|].
    now apply contains_char. }
  unfold entities. cbn [foldl].
  repeat (rewrite (replace_plain text); [|assumption|reflexivity]). reflexivity.
Qed.

Lemma html_to_text_spaces (html : string) :
  all_chars plain_space (html_to_text html) = true.
Proof.
  unfold html_to_text. apply entities_all.
  - unfold entities. repeat (apply Forall_cons; split; [reflexivity|]).
    apply Forall_nil. exact I.
  - apply all_chars_strip. apply collapse_spaces_plain.
Qed.

End TextFacts.

(** X23.  Whatever the page, a whitespace character of the text that
    [html_to_text] returns is a plain space: the text holds no newline,
    tab or non-breaking space. *)
Theorem html_to_text_plain_spaces (html : string) :
  all_chars Text.plain_space (Text.html_to_text html) = true.
Proof. apply html_to_text_spaces. Qed.

(** X24.  On a text without markup and without entities, that is
    without [<] and [&], [html_to_text] changes whitespace only: the
    other characters are all kept, in their order. *)
Theorem html_to_text_keeps_plain_text (html : string) :
  contains "<" html = false -> contains "&" html = false ->
  filter_out is_space (Text.html_to_text html) = filter_out is_space html.
Proof.
  intros Hlt Hamp. rewrite html_to_text_plain by assumption.
  unfold strip. rewrite filter_out_rstrip, filter_out_lstrip.
  apply filter_out_collapse. lia.
Qed.

Lemma html_to_text_keeps_plain_text_witness :
  filter_out is_space (Text.html_to_text ("  Prompt kit" +:+ NL +:+ "v2 "))
  = filter_out is_space ("  Prompt kit" +:+ NL +:+ "v2 ").
Proof. apply html_to_text_keeps_plain_text; reflexivity. Defined.

(** X25.  Without markdownify the normalizer returns one line of text:
    the result of [html_to_markdown] then holds no newline, and no
    whitespace but plain spaces. *)
Theorem fallback_is_one_line (bs4 : option (string -> list node))
    (soup_to_html : list node -> string)
    (html : string) (code_block_texts : list string) :
  all_chars Text.plain_space
    (html_to_markdown (Text.libs bs4 soup_to_html None) html code_block_texts)
  = true
  /\ contains NL
       (html_to_markdown (Text.libs bs4 soup_to_html None) html
          code_block_texts)
     = false.
Proof.
  set (out := html_to_markdown _ _ _).
  assert (all_chars Text.plain_space out = true) as Hout;
    [|split; [exact Hout|now apply plain_no_nl]].
  unfold out, html_to_markdown, final_cleanup. cbn [Text.libs markdownify
    html_to_text is_chrome_line].
  pose proof (html_to_text_spaces
                (preprocess_notion_html (Text.libs bs4 soup_to_html None)
                   (strip_non_content (Text.libs bs4 soup_to_html None) html)
                   code_block_texts)) as Htext.
  set (text := Text.html_to_text _) in *.
  apply all_chars_strip. rewrite collapse_squeeze. apply all_chars_squeeze.
  rewrite (split_one_line text) by (apply plain_no_nl; apply Htext).
  cbn [List.filter]. destruct (negb (Text.is_chrome_line text)); [|reflexivity].
  exact Htext.
Qed.

Section Elements.

Import Text.

Lemma sub_go_prefix (m : string -> option nat) (repl x b : string) :
  (forall l t, x = l +:+ t -> t <> "" -> m (t +:+ b) = None) ->
  sub_go m repl 0 (x +:+ b) = x +:+ sub_go m repl 0 b.
Proof.
  induction x as [|c x IH]; intros H; [now rewrite !str_app_nil_l|].
  rewrite !str_app_cons. cbn [sub_go].
  assert (m (String c (x +:+ b)) = None) as ->.
  { rewrite <- str_app_cons. apply (H ""); [now rewrite str_app_nil_l|discriminate]. }
  f_equal. apply IH. intros l t -> Ht.
  apply (H (String c l)); [now rewrite str_app_cons|assumption].
Qed.

Lemma no_lt_app (a b : string) :
  contains "<" (a +:+ b) = false
  <-> contains "<" a = false /\ contains "<" b = false.
Proof.
  rewrite !contains_char, all_chars_app. apply andb_true_iff.
Qed.

Lemma no_lt_head (c : ascii) (s : string) :
  contains "<" (String c s) = false -> starts_with "<" (String c s) = false.
Proof. rewrite contains_cons. now intros [H _]%orb_false_iff. Qed.

(** Where a suffix that starts with [<] can start. *)
Lemma lt_suffix (a r l t : string) :
  contains "<" a = false -> a +:+ "<" +:+ r = l +:+ t ->
  starts_with "<" t = true ->
  t = "<" +:+ r \/ exists l', r = l' +:+ t.
Proof.
  revert l. induction a as [|c a IH]; intros l Ha H Ht.
  - rewrite str_app_nil_l in H. destruct l as [|d l].
    + left. now rewrite str_app_nil_l in H.
    + right. exists l. change ("<" +:+ r) with (String "<" r) in H.
      rewrite str_app_cons in H. now injection H.
  - rewrite str_app_cons in H. destruct l as [|d l].
    + rewrite str_app_nil_l in H. subst t. apply no_lt_head in Ha.
      cbn [starts_with] in Ht, Ha. destruct ("<" =? c)%char; discriminate.
    + rewrite str_app_cons in H. injection H as _ H.
      rewrite contains_cons in Ha. apply orb_false_iff in Ha as [_ Ha].
      now apply (IH l).
Qed.

Lemma no_lt_suffix (m l t : string) :
  contains "<" m = false -> m = l +:+ t -> starts_with "<" t = false.
Proof. intros H ->. now apply not_contains_suffix in H. Qed.

Lemma lt_suffixes (a m1 m2 l t : string) :
  contains "<" a = false -> contains "<" m1 = false ->
  contains "<" m2 = false ->
  a +:+ "<" +:+ m1 +:+ "<" +:+ m2 = l +:+ t ->
  starts_with "<" t = true ->
  t = "<" +:+ m1 +:+ "<" +:+ m2 \/ t = "<" +:+ m2.
Proof.
  intros Ha H1 H2 H Ht.
  destruct (lt_suffix a _ l t Ha H Ht) as [->|[l' H']]; [now left|].
  destruct (lt_suffix m1 _ l' t H1 H' Ht) as [->|[l'' H'']]; [now right|].
  apply (no_lt_suffix _ _ _ H2) in H''. congruence.
Qed.

Lemma ieq_refl (a : ascii) : ieq a a = true.
Proof. unfold ieq. apply Ascii.eqb_refl. Qed.

Lemma iliteral_refl (p r : string) : iliteral p (p +:+ r) = Some r.
Proof.
  induction p as [|a p IH]; [now rewrite str_app_nil_l|].
  rewrite str_app_cons. cbn [iliteral]. now rewrite ieq_refl.
Qed.

Lemma drop_attrs (attrs r : string) :
  contains ">" attrs = false ->
  drop_while not_gt (attrs +:+ ">" +:+ r) = ">" +:+ r.
Proof.
  unfold drop_while. induction attrs as [|c attrs IH]; intros H.
  - now rewrite str_app_nil_l.
  - rewrite contains_cons in H. apply orb_false_iff in H as [Hc H].
    rewrite str_app_cons. cbn [span]. unfold not_gt at 1.
    cbn [starts_with] in Hc. rewrite Ascii.eqb_sym in Hc.
    destruct (c =? ">")%char; [now destruct attrs|]. simpl negb. cbn iota.
    specialize (IH H). destruct (span not_gt (attrs +:+ ">" +:+ r)). exact IH.
Qed.

Lemma lazy_until_body (close body b : string) :
  starts_with "<" close = true -> contains "<" body = false ->
  lazy_until close (body +:+ close +:+ b) = Some b.
Proof.
  intros Hclose. induction body as [|c body IH]; intros Hbody.
  - rewrite str_app_nil_l. destruct (close +:+ b) eqn:E;
      cbn [lazy_until]; rewrite <- ?E, iliteral_refl; reflexivity.
  - rewrite str_app_cons. cbn [lazy_until].
    assert (iliteral close (String c (body +:+ close +:+ b)) = None) as ->.
    { destruct close as [|x close]; [discriminate|]. cbn [starts_with] in Hclose.
      destruct (Ascii.eqb_spec "<" x) as [<-|]; [|discriminate].
      cbn [iliteral]. destruct (ieq "<" c) eqn:E; [|reflexivity].
      apply ieq_lt in E as ->. apply no_lt_head in Hbody. discriminate. }
    apply IH. rewrite contains_cons in Hbody. now apply orb_false_iff in Hbody.
Qed.

(** The pattern of a tag matches an element of that tag, whole. *)
Lemma element_here_element (tag attrs body b : string) :
  contains ">" attrs = false -> contains "<" body = false ->
  element_here tag (element tag attrs body +:+ b)
  = Some (String.length (element tag attrs body)).
Proof.
  intros Hattrs Hbody. unfold element_here, element.
  rewrite <- !str_app_assoc. rewrite (str_app_assoc "<" tag).
  rewrite !str_app_assoc. rewrite <- (str_app_assoc "<" tag).
  rewrite iliteral_refl. cbn [mbind option_bind].
  rewrite drop_attrs by assumption.
  change (literal ">" (">" +:+ ?r)) with (Some r). cbn [mbind option_bind].
  rewrite <- (str_app_assoc "</" tag), <- (str_app_assoc ("</" +:+ tag) ">").
  rewrite lazy_until_body by (assumption || reflexivity).
  cbn [mbind option_bind]. f_equal.
  rewrite !str_length_app. lia.
Qed.

Lemma remove_own_element (tag a attrs body b : string) :
  contains "<" a = false ->
  contains ">" attrs = false -> contains "<" body = false ->
  remove_elements (a +:+ element tag attrs body +:+ b) tag
  = a +:+ remove_elements b tag.
Proof.
  intros Ha Hattrs Hbody. unfold remove_elements, sub.
  rewrite sub_go_prefix.
  - f_equal. pose proof (element_here_element tag attrs body b Hattrs Hbody) as H.
    destruct (element tag attrs body) as [|c e] eqn:E; [discriminate E|].
    rewrite str_app_cons. cbn [sub_go]. rewrite <- str_app_cons, H.
    rewrite str_app_nil_l.
    replace (String.length (String c e) - 1) with (String.length e)
      by (simpl; lia).
    apply sub_go_skip.
  - intros l t -> Ht.
    destruct (element_here tag (t +:+ element tag attrs body +:+ b)) eqn:E;
      [|reflexivity].
    apply element_here_lt in E. destruct t as [|c t]; [congruence|].
    rewrite no_lt_app in Ha. destruct Ha as [_ Ha]. apply no_lt_head in Ha.
    rewrite str_app_cons in E. cbn [starts_with] in E, Ha.
    destruct ("<" =? c)%char; discriminate.
Qed.

Lemma remove_plain_prefix (tag a b : string) :
  contains "<" a = false ->
  remove_elements (a +:+ b) tag = a +:+ remove_elements b tag.
Proof.
  intros Ha. unfold remove_elements, sub. apply sub_go_prefix.
  intros l t -> Ht.
  destruct (element_here tag (t +:+ b)) eqn:E; [|reflexivity].
  apply element_here_lt in E. destruct t as [|c t]; [congruence|].
  rewrite no_lt_app in Ha. destruct Ha as [_ Ha]. apply no_lt_head in Ha.
  rewrite str_app_cons in E. cbn [starts_with] in E, Ha.
  destruct ("<" =? c)%char; discriminate.
Qed.

(** The pattern of another tag matches nowhere in an element. *)
Lemma remove_other_element (tag' tag a attrs body b : string) :
  contains "<" a = false -> contains "<" tag = false ->
  contains "<" attrs = false -> contains "<" body = false ->
  (forall r, iliteral ("<" +:+ tag') ("<" +:+ tag +:+ r) = None) ->
  (forall r, iliteral ("<" +:+ tag') ("</" +:+ r) = None) ->
  remove_elements (a +:+ element tag attrs body +:+ b) tag'
  = a +:+ element tag attrs body +:+ remove_elements b tag'.
Proof.
  intros Ha Htag Hattrs Hbody Hopen Hclose. unfold remove_elements, sub.
  rewrite <- (str_app_assoc a). rewrite sub_go_prefix;
    [now rewrite str_app_assoc|].
  intros l t Hlt Ht.
  destruct (element_here tag' (t +:+ b)) eqn:E; [|reflexivity].
  pose proof (element_here_lt _ _ _ E) as Hstart.
  assert (starts_with "<" t = true) as Hstart'.
  { destruct t; [congruence|]. now rewrite str_app_cons in Hstart. }
  unfold element in Hlt.
  assert (t = "<" +:+ (tag +:+ attrs +:+ ">" +:+ body) +:+ "<" +:+ ("/" +:+ tag +:+ ">")
          \/ t = "<" +:+ ("/" +:+ tag +:+ ">")) as [->| ->].
  { apply (lt_suffixes a _ _ l); try assumption.
    - rewrite !no_lt_app. repeat split; assumption.
    - rewrite !no_lt_app. repeat split; assumption.
    - rewrite <- Hlt. now rewrite !str_app_assoc. }
  - unfold element_here in E. rewrite !str_app_assoc in E.
    now rewrite Hopen in E.
  - unfold element_here in E.
    change ("<" +:+ ("/" +:+ tag +:+ ">")) with ("</" +:+ (tag +:+ ">")) in E.
    rewrite !str_app_assoc in E. now rewrite Hclose in E.
Qed.

End Elements.

Ltac remove_pass :=
  first
    [ rewrite remove_other_element
        by first [assumption | reflexivity | intros; reflexivity]
    | rewrite remove_own_element by assumption
    | rewrite remove_plain_prefix by assumption ].

(** X26.  The first step of [html_to_markdown] removes a non-content
    element with everything inside it: when no [<] comes before an
    element of one of the seven tags, written in lower case, and its
    attributes and its body hold no [<] and its attributes no [>], the
    page is treated as if the element were not there. *)
Theorem non_content_element_removed (tag a attrs body b : string) :
  In tag non_content_tags ->
  contains "<" a = false ->
  contains "<" attrs = false -> contains ">" attrs = false ->
  contains "<" body = false ->
  Text.strip_non_content (a +:+ element tag attrs body +:+ b)
  = Text.strip_non_content (a +:+ b).
Proof.
  intros Htag Ha Hattrs Hattrs' Hbody.
  unfold Text.strip_non_content. cbn [foldl]. cbn in Htag.
  repeat (destruct Htag as [<-|Htag]; [repeat remove_pass; reflexivity|]).
  destruct Htag.
Qed.

Lemma non_content_element_removed_witness :
  Text.strip_non_content
    ("Intro " +:+ element "script" " type=module" "track(1 > 0);" +:+ "<p>Text</p>")
  = Text.strip_non_content ("Intro " +:+ "<p>Text</p>").
Proof.
  apply non_content_element_removed; try reflexivity. cbn. tauto.
Defined.

(** X27.  The fallback conversion does not let the content of a
    [noscript], [script], [style] or [svg] element into the text: under
    the same conditions [html_to_text] returns what it returns for the
    page without the element. *)
Theorem hidden_element_not_in_text (tag a attrs body b : string) :
  In tag non_text_tags ->
  contains "<" a = false ->
  contains "<" attrs = false -> contains ">" attrs = false ->
  contains "<" body = false ->
  Text.html_to_text (a +:+ element tag attrs body +:+ b)
  = Text.html_to_text (a +:+ b).
Proof.
  intros Htag Ha Hattrs Hattrs' Hbody. unfold Text.html_to_text.
  assert (foldl Text.remove_elements (a +:+ element tag attrs body +:+ b)
            ["noscript"; "script"; "style"; "svg"]
          = foldl Text.remove_elements (a +:+ b)
              ["noscript"; "script"; "style"; "svg"]) as ->; [|reflexivity].
  cbn [foldl]. cbn in Htag.
  repeat (destruct Htag as [<-|Htag]; [repeat remove_pass; reflexivity|]).
  destruct Htag.
Qed.

Lemma hidden_element_not_in_text_witness :
  Text.html_to_text
    ("Intro " +:+ element "style" "" "p { color: red }" +:+ "<p>Text</p>")
  = Text.html_to_text ("Intro " +:+ "<p>Text</p>").
Proof.
  apply hidden_element_not_in_text; try reflexivity. cbn. tauto.
Defined.

Section FluxFacts.

Import Flux.
Local Open Scope Z_scope.

Lemma round_to_16 (n : Z) :
  exists r, round_to_multiple n 16 = Py.Return r
            /\ (16 | r) /\ r <= n < r + 16.
Proof.
  exists (n / 16 * 16). split; [reflexivity|]. split.
  - now exists (n / 16).
  - pose proof (Z.div_mod n 16 ltac:(lia)) as H.
    pose proof (Z.mod_pos_bound n 16 ltac:(lia)). lia.
Qed.

Lemma max_64_divide (r : Z) : (16 | r) -> (16 | Z.max r 64).
Proof.
  intros H. destruct (Z.max_spec r 64) as [[_ ->]|[_ ->]]; [now exists 4|assumption].
Qed.

End FluxFacts.

(** X28.  [round_to_multiple] rounds down, never up: for a positive
    [multiple] it returns the largest multiple that is not above [n],
    whatever the sign of [n]. *)
Theorem round_to_multiple_floors (n multiple : Z) :
  (0 < multiple)%Z ->
  exists r, Flux.round_to_multiple n multiple = Py.Return r
            /\ (multiple | r)%Z /\ (r <= n < r + multiple)%Z.
Proof.
  intros Hpos. unfold Flux.round_to_multiple.
  destruct (Z.eqb_spec multiple 0) as [->|_]; [lia|].
  exists (n / multiple * multiple)%Z. split; [reflexivity|]. split.
  - now exists (n / multiple)%Z.
  - pose proof (Z.div_mod n multiple ltac:(lia)) as H.
    pose proof (Z.mod_pos_bound n multiple Hpos). lia.
Qed.

Lemma round_to_multiple_floors_witness :
  exists r, Flux.round_to_multiple 1080 16 = Py.Return r
            /\ (16 | r)%Z /\ (r <= 1080 < r + 16)%Z.
Proof. apply round_to_multiple_floors. lia. Defined.

(** X29.  Whatever the floating-point operations give, the width and the
    height that [calculate_flux_2_pro_dimensions] returns are multiples
    of 16, scaled down or not. *)
Theorem flux_2_pro_multiples_of_16 (fl : Flux.Floats) (width height : Z)
    (max_mp : Flux.number fl) (w h : Z) (mp : Flux.number fl) :
  Flux.calculate_flux_2_pro_dimensions fl width height max_mp
  = Py.Return (w, h, mp) ->
  (16 | w)%Z /\ (16 | h)%Z.
Proof.
  unfold Flux.calculate_flux_2_pro_dimensions.
  destruct (round_to_16 width) as (rw & -> & Hrw & _).
  destruct (round_to_16 height) as (rh & -> & Hrh & _).
  cbn [mbind Py.result_bind].
  destruct (Flux.megapixels fl (Z.max rw 64 * Z.max rh 64)) as [mp0|];
    cbn [mbind Py.result_bind]; [|discriminate].
  destruct (Flux.gt fl mp0 max_mp).
  - destruct (Flux.scale_down fl max_mp mp0 (Z.max rw 64)) as [sw|];
      cbn [mbind Py.result_bind]; [|discriminate].
    destruct (round_to_16 sw) as (rw' & -> & Hrw' & _).
    cbn [mbind Py.result_bind].
    destruct (Flux.scale_down fl max_mp mp0 (Z.max rh 64)) as [sh|];
      cbn [mbind Py.result_bind]; [|discriminate].
    destruct (round_to_16 sh) as (rh' & -> & Hrh' & _).
    cbn [mbind Py.result_bind].
    destruct (Flux.megapixels fl (rw' * rh'));
      cbn [mbind Py.result_bind]; [|discriminate].
    cbn [mret Py.result_ret]. now intros [= <- <- _].
  - cbn [mret Py.result_ret]. intros [= <- <- _].
    split; now apply max_64_divide.
Qed.

Lemma flux_2_pro_multiples_of_16_witness :
  (16 | 2656)%Z /\ (16 | 1488)%Z.
Proof.
  apply (flux_2_pro_multiples_of_16 Flux.exact 3840 2160 4000000%Z
           2656 1488 3952128%Z).
  reflexivity.
Defined.

(** X30.  When the rounded size is within the limit, so that nothing is
    scaled down, [calculate_flux_2_pro_dimensions] never rounds a
    dimension up and never returns one below 64: each dimension is at
    most the larger of the requested one and 64, and less than 16 below
    it. *)
Theorem flux_2_pro_within_limit (fl : Flux.Floats) (width height : Z)
    (max_mp mp : Flux.number fl) :
  Flux.megapixels fl
    (Z.max (width / 16 * 16) 64 * Z.max (height / 16 * 16) 64)
  = Py.Return mp ->
  Flux.gt fl mp max_mp = false ->
  exists w h,
    Flux.calculate_flux_2_pro_dimensions fl width height max_mp
    = Py.Return (w, h, mp)
    /\ (64 <= w /\ Z.max width 64 - 16 < w <= Z.max width 64)%Z
    /\ (64 <= h /\ Z.max height 64 - 16 < h <= Z.max height 64)%Z.
Proof.
  intros Hmp Hgt.
  exists (Z.max (width / 16 * 16) 64), (Z.max (height / 16 * 16) 64). split.
  - unfold Flux.calculate_flux_2_pro_dimensions.
    change (Flux.round_to_multiple width 16) with (Py.Return (width / 16 * 16)%Z).
    change (Flux.round_to_multiple height 16)
      with (Py.Return (height / 16 * 16)%Z).
    cbn [mbind Py.result_bind]. rewrite Hmp. cbn [mbind Py.result_bind].
    now rewrite Hgt.
  - pose proof (Z.div_mod width 16 ltac:(lia)).
    pose proof (Z.mod_pos_bound width 16 ltac:(lia)).
    pose proof (Z.div_mod height 16 ltac:(lia)).
    pose proof (Z.mod_pos_bound height 16 ltac:(lia)). lia.
Qed.

Lemma flux_2_pro_within_limit_witness :
  exists w h,
    Flux.calculate_flux_2_pro_dimensions Flux.exact 1920 1080 4000000%Z
    = Py.Return (w, h, 2058240%Z)
    /\ (64 <= w /\ Z.max 1920 64 - 16 < w <= Z.max 1920 64)%Z
    /\ (64 <= h /\ Z.max 1080 64 - 16 < h <= Z.max 1080 64)%Z.
Proof. apply flux_2_pro_within_limit; reflexivity. Defined.


(** ** The code blocks of a Notion page *)

Section CodeBlocks.





End CodeBlocks.


